(** * Fit-Friend: the pose-derived exercise analysis engine

    A shallow embedding of [features.py], [pose_tracker.py] and [app.py]
    (with the upload filter of [config.py] and the session greeting of
    [smart_coach.py]): joint geometry, the rule-based exercise classifier,
    the form scorer, the live and batch repetition counters, label
    smoothing and the per-video session aggregation, together with the
    properties the specification states about them.

    Conventions.  Python numbers that only ever hold integers (scores,
    counters, frame indices) are [Z]; the feature values (angles,
    velocities, confidences) are exact rationals [Q], and the
    trigonometric angle primitive is modelled over the reals [R].  The
    batch estimator's threshold and the distance of two points are
    computed in binary64 as the code does ([Float64], [Numpy]): there the
    rounding decides results.  Python dictionaries keyed by strings are
    [gmap string _]; an insertion-ordered dictionary whose iteration order
    matters is an association list. *)

From Stdlib Require Import ZArith QArith Qabs Qreals Reals Lra Lia.
From stdpp Require Import gmap strings list pretty.

Local Open Scope Z_scope.

(** ** Numbers *)

Module Num.

Definition Qltb (a b : Q) : bool :=
  match Qcompare a b with Lt => true | _ => false end.

Definition Qleb (a b : Q) : bool :=
  match Qcompare a b with Gt => false | _ => true end.

End Num.

(** ** Python dictionaries with string keys, and the [KeyError] of [d[k]] *)

Module Dict.

Inductive result (A : Type) : Type :=
| Ok (a : A)
| KeyError (k : string).
Arguments Ok {A} a.
Arguments KeyError {A} k.

Definition bind {A B} (r : result A) (f : A -> result B) : result B :=
  match r with
  | Ok a => f a
  | KeyError k => KeyError k
  end.

(** [d[k]] *)
Definition getitem {V} (d : gmap string V) (k : string) : result V :=
  match d !! k with
  | Some v => Ok v
  | None => KeyError k
  end.

(** [d.get(k, dflt)] *)
Definition get {V} (d : gmap string V) (k : string) (dflt : V) : V :=
  match d !! k with
  | Some v => v
  | None => dflt
  end.

(** [k in d] *)
Definition contains {V} (d : gmap string V) (k : string) : bool :=
  match d !! k with
  | Some _ => true
  | None => false
  end.

(** [{**a, **b}]: the entries of [b] override those of [a]. *)
Definition merge2 {V} (a b : gmap string V) : gmap string V := b ∪ a.

End Dict.

Notation "'let*' x ':=' r 'in' k" := (Dict.bind r (fun x => k))
  (at level 10, x name, r at level 100, k at level 200).

(** ** [collections.deque(maxlen=n)] *)

Module Deque.

(** [dq.append(x)] on a deque bounded by [maxlen]: the new item goes to the
    right end and, when the bound is exceeded, items fall off the left end. *)
Definition append {A} (maxlen : nat) (dq : list A) (x : A) : list A :=
  let l := dq ++ [x] in
  drop (length l - maxlen)%nat l.

(** [dq[-2]] *)
Definition second_last {A} (dq : list A) : option A :=
  match rev dq with
  | _ :: y :: _ => Some y
  | _ => None
  end.

End Deque.

(** ** features.py: classification and form scoring *)

Module Features.
Import Num Dict.

(** A feature vector: feature name to number. *)
Abbreviation features_t := (gmap string Q).

Definition avg (x y : Q) : Q := ((x + y) / 2)%Q.

(** The three averages [detect_exercise_type] computes first; a missing
    angle raises [KeyError]. *)
Definition averages (features : features_t) : result (Q * Q * Q) :=
  let* rk := getitem features "right_knee_angle" in
  let* lk := getitem features "left_knee_angle" in
  let* rh := getitem features "right_hip_angle" in
  let* lh := getitem features "left_hip_angle" in
  let* re := getitem features "right_elbow_angle" in
  let* le := getitem features "left_elbow_angle" in
  Ok (avg rk lk, avg rh lh, avg re le).

(** The four rule predicates, each with the defaults its own
    [features.get] calls use. *)
Definition squat_rule (avg_knee avg_hip : Q) (features : features_t) : bool :=
  Qltb avg_knee 140 && Qltb avg_hip 130 &&
  Qltb 40 (get features "foot_distance" 0%Q) &&
  Qltb 160 (get features "spine_angle" 180%Q).

Definition bicep_curl_rule (avg_elbow : Q) (features : features_t) : bool :=
  Qltb avg_elbow 120 &&
  Qltb 100 (get features "shoulder_hip_distance" 0%Q) &&
  Qltb (get features "torso_lean" 0%Q) 20.

Definition push_up_rule (avg_elbow : Q) (features : features_t) : bool :=
  Qltb avg_elbow 130 &&
  Qltb 160 (get features "spine_angle" 0%Q) &&
  Qltb (get features "shoulder_hip_distance" 0%Q) 80.

Definition plank_rule (features : features_t) : bool :=
  Qltb 170 (get features "spine_angle" 0%Q) &&
  Qltb (get features "shoulder_hip_distance" 0%Q) 60.

(** [detect_exercise_type(features, coords)]; [coords] is never read. *)
Definition detect_exercise_type (features : features_t) : result string :=
  let* a := averages features in
  let '(avg_knee, avg_hip, avg_elbow) := a in
  if squat_rule avg_knee avg_hip features then Ok "squat"
  else if bicep_curl_rule avg_elbow features then Ok "bicep_curl"
  else if push_up_rule avg_elbow features then Ok "push_up"
  else if plank_rule features then Ok "plank"
  else Ok "unknown".

(** The result dictionary of [analyze_form_quality]. *)
Record analysis_t : Type := Analysis {
  overall_score : Z;
  issues : list string;
  recommendations : list string
}.

(** The running [score], [issues], [recommendations] locals. *)
Record scoring : Type := Scoring {
  t_score : Z;
  t_issues : list string;
  t_recs : list string
}.

(** One triggered rule: append the issue and the recommendation, subtract
    the penalty. *)
Definition penalize (issue rec : string) (penalty : Z) (t : scoring) : scoring :=
  Scoring (t_score t - penalty) (t_issues t ++ [issue]) (t_recs t ++ [rec]).

(** [if cond: ...] with no else branch. *)
Definition when (cond : bool) (issue rec : string) (penalty : Z) (t : scoring)
  : scoring :=
  if cond then penalize issue rec penalty t else t.

Definition squat_rules (features : features_t) (t : scoring) : result scoring :=
  let* rk := getitem features "right_knee_angle" in
  let* lk := getitem features "left_knee_angle" in
  let avg_knee := avg rk lk in
  let t :=
    if Qltb avg_knee 60 then
      penalize "Squatting too deep - risk of knee injury"
               "Don't go below parallel (90 degrees)" 20 t
    else
      when (Qltb 140 avg_knee)
           "Not squatting deep enough"
           "Go deeper until thighs are parallel" 15 t in
  let* rh := getitem features "right_hip_angle" in
  let* lh := getitem features "left_hip_angle" in
  let avg_hip := avg rh lh in
  let t := when (Qltb avg_hip 60)
      "Hips not hinging properly"
      "Push hips back more, imagine sitting in a chair" 20 t in
  let t := when (Qltb 30 (get features "torso_lean" 0%Q))
      "Leaning forward too much"
      "Keep chest up and core engaged" 15 t in
  let t := when (Qltb 15 (get features "knee_symmetry" 0%Q))
      "Uneven knee positioning"
      "Focus on balanced movement" 10 t in
  let t := when (Qltb (get features "foot_distance" 0%Q) 40)
      "Stance too narrow"
      "Widen stance to shoulder width" 10 t in
  let knee_velocity := get features "right_knee_angle_velocity" 0%Q in
  let t := when (Qltb 100 knee_velocity)
      "Moving too quickly"
      "Slow down for better control" 10 t in
  Ok t.

Definition bicep_curl_rules (features : features_t) (t : scoring) : result scoring :=
  let* re := getitem features "right_elbow_angle" in
  (* [a or b]: the left operand short-circuits the right one *)
  let* over :=
    (if Qltb 170 re then Ok true
     else let* le := getitem features "left_elbow_angle" in Ok (Qltb 170 le)) in
  let t := when over
      "Elbow overextending"
      "Don't fully lock out elbows" 10 t in
  let elbow_velocity := get features "right_elbow_angle_velocity" 0%Q in
  let t := when (Qltb 150 elbow_velocity)
      "Using momentum - swinging weights"
      "Use controlled movements" 20 t in
  let t := when (Qltb 15 (get features "torso_lean" 0%Q))
      "Leaning too much"
      "Stand straight, engage core" 10 t in
  Ok t.

Definition push_up_rules (features : features_t) (t : scoring) : result scoring :=
  let* re := getitem features "right_elbow_angle" in
  let* le := getitem features "left_elbow_angle" in
  let avg_elbow := avg re le in
  let t := when (Qltb 160 avg_elbow)
      "Not going down far enough"
      "Lower until chest nearly touches ground" 15 t in
  let t := when (Qltb (get features "spine_angle" 180%Q) 160)
      "Hips sagging or piking"
      "Maintain straight line from head to heels" 20 t in
  Ok t.

(** The rule set selected by the [if exercise == ...] chain; any other
    label (plank, unknown, ...) has none. *)
Definition exercise_rules (exercise : string) (features : features_t)
    (t : scoring) : result scoring :=
  if String.eqb exercise "squat" then squat_rules features t
  else if String.eqb exercise "bicep_curl" then bicep_curl_rules features t
  else if String.eqb exercise "push_up" then push_up_rules features t
  else Ok t.

Definition visibility_rule (features : features_t) (t : scoring) : scoring :=
  when (Qltb (get features "min_visibility" 1%Q) (7 # 10))
       "Poor camera angle or lighting"
       "Improve camera position and lighting" 5 t.

(** [analyze_form_quality(exercise, features, coords)]; [coords] is never
    read. *)
Definition analyze_form_quality (exercise : string) (features : features_t)
  : result analysis_t :=
  let t := Scoring 100 [] [] in
  let* t := exercise_rules exercise features t in
  let t := visibility_rule features t in
  Ok (Analysis (Z.max (t_score t) 0) (t_issues t) (t_recs t)).

(** *** Feature extraction

    What [extract_comprehensive_features] derives from one frame's
    landmarks by geometry alone: the six joint angles and the alignment
    and visibility measures. *)
Record angles_t : Type := Angles {
  right_knee_angle : Q;
  left_knee_angle : Q;
  right_hip_angle : Q;
  left_hip_angle : Q;
  right_elbow_angle : Q;
  left_elbow_angle : Q
}.

Record enhanced_t : Type := Enhanced {
  spine_angle : Q;
  knee_symmetry : Q;
  hip_symmetry : Q;
  shoulder_symmetry : Q;
  foot_distance : Q;
  torso_lean : Q;
  shoulder_hip_distance : Q;
  avg_visibility : Q;
  min_visibility : Q
}.

(** The [angles] dictionary, as its items in insertion order. *)
Definition angles_items (a : angles_t) : list (string * Q) :=
  [ ("right_knee_angle", right_knee_angle a);
    ("left_knee_angle", left_knee_angle a);
    ("right_hip_angle", right_hip_angle a);
    ("left_hip_angle", left_hip_angle a);
    ("right_elbow_angle", right_elbow_angle a);
    ("left_elbow_angle", left_elbow_angle a) ].

(** The [enhanced_features] dictionary. *)
Definition enhanced_items (e : enhanced_t) : list (string * Q) :=
  [ ("spine_angle", spine_angle e);
    ("knee_symmetry", knee_symmetry e);
    ("hip_symmetry", hip_symmetry e);
    ("shoulder_symmetry", shoulder_symmetry e);
    ("foot_distance", foot_distance e);
    ("torso_lean", torso_lean e);
    ("shoulder_hip_distance", shoulder_hip_distance e);
    ("avg_visibility", avg_visibility e);
    ("min_visibility", min_visibility e) ].

(** [dt = 1/30.0] *)
Definition dt : Q := 1 # 30.

(** The body of [for joint in current_angles.keys()]. *)
Definition temporal_step (prev_angles : features_t)
    (temporal_features : features_t) (item : string * Q) : features_t :=
  let '(joint, current) := item in
  match prev_angles !! joint with
  | Some prev =>
      let velocity := (Qabs (current - prev) / dt)%Q in
      <[joint +:+ "_is_fast" := if Qltb 100 velocity then 1%Q else 0%Q]>
        (<[joint +:+ "_velocity" := velocity]> temporal_features)
  | None => temporal_features
  end.

(** [calculate_temporal_features(current_angles)], with the module-level
    [feature_extractor.angle_history] (a [deque(maxlen=30)]) threaded
    through: the temporal features and the history afterwards.
    [current_angles] is given by its items in insertion order. *)
Definition calculate_temporal_features (current_angles : list (string * Q))
    (angle_history : list features_t) : features_t * list features_t :=
  let angle_history :=
    Deque.append 30 angle_history (list_to_map current_angles) in
  let temporal_features :=
    if (2 <=? length angle_history)%nat then
      match Deque.second_last angle_history with
      | Some prev_angles =>
          fold_left (temporal_step prev_angles) current_angles ∅
      | None => ∅
      end
    else ∅ in
  (temporal_features, angle_history).

(** The tail of [extract_comprehensive_features]: the temporal features
    are computed from the angles and the shared history, and
    [all_features = {**angles, **enhanced_features, **temporal_features}]. *)
Definition extract_comprehensive_features (a : angles_t) (e : enhanced_t)
    (angle_history : list features_t) : features_t * list features_t :=
  let angles : features_t := list_to_map (angles_items a) in
  let enhanced_features : features_t := list_to_map (enhanced_items e) in
  let '(temporal_features, angle_history) :=
    calculate_temporal_features (angles_items a) angle_history in
  (merge2 (merge2 angles enhanced_features) temporal_features, angle_history).

End Features.

(** ** Insertion-ordered tallies ([d[k] = d.get(k, 0) + 1], [max(d, key=d.get)]) *)

Module Tally.

(** [d[k] = d.get(k, 0) + 1]: an existing key keeps its position, a new
    key goes last. *)
Fixpoint incr (d : list (string * Z)) (k : string) : list (string * Z) :=
  match d with
  | [] => [(k, 1)]
  | (k', n) :: rest =>
      if String.eqb k' k then (k', n + 1) :: rest
      else (k', n) :: incr rest k
  end.

(** The dictionary built by [for ex in xs: d[ex] = d.get(ex, 0) + 1]. *)
Definition count_all (xs : list string) : list (string * Z) :=
  fold_left incr xs [].

(** [max] keeps the first maximal item: a later one replaces the current
    best only when strictly larger. *)
Fixpoint max_from (best : string * Z) (rest : list (string * Z))
  : string * Z :=
  match rest with
  | [] => best
  | kv :: rest' =>
      if snd best <? snd kv then max_from kv rest' else max_from best rest'
  end.

(** [k = max(d, key=d.get)] together with [d[k]]; [None] on an empty
    dictionary (where Python raises [ValueError]). *)
Definition argmax (d : list (string * Z)) : option (string * Z) :=
  match d with
  | [] => None
  | kv :: rest => Some (max_from kv rest)
  end.

(** [sum(d.values())] *)
Definition total (d : list (string * Z)) : Z :=
  fold_right (fun kv acc => snd kv + acc) 0 d.

End Tally.

(** ** pose_tracker.py: label smoothing and the live repetition counter *)

Module Coach.
Import Num Dict.

(** One entry of [rep_states]. *)
Record rep_state : Type := RepState {
  threshold_low : Q;
  threshold_high : Q;
  current_phase : string;
  last_angle : option Q
}.

(** The fields of [IntegratedPoseCoach] that classification smoothing and
    repetition counting read or write.  [coach] tells whether [self.coach]
    is set; [said] lists the messages handed to [coach.say_coaching],
    oldest first. *)
Record coach_t : Type := CoachState {
  coach : bool;
  said : list string;
  current_exercise : string;
  exercise_confidence : Q;
  exercise_history : list string;
  rep_count : Z;
  rep_states : gmap string rep_state
}.

(** [__init__] *)
Definition init (coach : bool) : coach_t :=
  {| coach := coach;
     said := [];
     current_exercise := "unknown";
     exercise_confidence := 0;
     exercise_history := [];
     rep_count := 0;
     rep_states :=
       <["squat" := RepState 120 160 "up" None]>
       (<["bicep_curl" := RepState 90 150 "down" None]>
       (<["push_up" := RepState 110 160 "up" None]> ∅)) |}.

Definition with_history (h : list string) (c : coach_t) : coach_t :=
  CoachState (coach c) (said c) (current_exercise c) (exercise_confidence c)
             h (rep_count c) (rep_states c).

Definition with_exercise (ex : string) (conf : Q) (c : coach_t) : coach_t :=
  CoachState (coach c) (said c) ex conf
             (exercise_history c) (rep_count c) (rep_states c).

Definition with_rep_states (rs : gmap string rep_state) (c : coach_t)
  : coach_t :=
  CoachState (coach c) (said c) (current_exercise c) (exercise_confidence c)
             (exercise_history c) (rep_count c) rs.

Definition with_rep_count (n : Z) (c : coach_t) : coach_t :=
  CoachState (coach c) (said c) (current_exercise c) (exercise_confidence c)
             (exercise_history c) n (rep_states c).

(** [if self.coach: self.coach.say_coaching(msg)] *)
Definition say_coaching (msg : string) (c : coach_t) : coach_t :=
  if coach c then
    CoachState (coach c) (said c ++ [msg]) (current_exercise c)
               (exercise_confidence c) (exercise_history c) (rep_count c)
               (rep_states c)
  else c.

(** The majority label of the window and its share of the window: the
    locals [most_common] and [confidence]. *)
Definition majority (history : list string) : option (string * Q) :=
  match Tally.argmax (Tally.count_all history) with
  | Some (most_common, n) =>
      Some (most_common, (inject_Z n / inject_Z (Z.of_nat (length history)))%Q)
  | None => None
  end.

(** [smooth_exercise_detection(detected_exercise)]: the new state and the
    returned label.  The history is a [deque(maxlen=10)].  Confidences are
    quotients [k/n] with [n <= 10]; on those the floating-point test
    [confidence >= 0.6] and the exact one agree. *)
Definition smooth_exercise_detection (detected_exercise : option string)
    (c : coach_t) : coach_t * string :=
  let detected_exercise :=
    match detected_exercise with Some ex => ex | None => "unknown" end in
  let c := with_history
             (Deque.append 10 (exercise_history c) detected_exercise) c in
  let c :=
    if (5 <=? length (exercise_history c))%nat then
      match majority (exercise_history c) with
      | Some (most_common, confidence) =>
          if Qleb (6 # 10) confidence
          then with_exercise most_common confidence c
          else c
      | None => c
      end
    else c in
  (c, current_exercise c).

(** [state["current_phase"] = phase], where [state] is the dictionary
    stored under key [ex] of [rep_states]: the write is seen through
    [rep_states]. *)
Definition set_phase (ex : string) (phase : string) (c : coach_t) : coach_t :=
  with_rep_states
    (alter (fun s => RepState (threshold_low s) (threshold_high s) phase
                              (last_angle s)) ex (rep_states c)) c.

(** [_count_reps_squat(knee_angle, state)], [state] being the dictionary
    [rep_states[ex]]. *)
Definition _count_reps_squat (knee_angle : Q) (ex : string) (c : coach_t)
  : coach_t :=
  match rep_states c !! ex with
  | None => c
  | Some state =>
      if String.eqb (current_phase state) "up"
         && Qltb knee_angle (threshold_low state) then
        set_phase ex "down" c
      else if String.eqb (current_phase state) "down"
              && Qltb (threshold_high state) knee_angle then
        let c := set_phase ex "up" c in
        let c := with_rep_count (rep_count c + 1) c in
        say_coaching ("Great squat! Rep " +:+ pretty (rep_count c)) c
      else c
  end.

(** [_count_reps_bicep(elbow_angle, state)] *)
Definition _count_reps_bicep (elbow_angle : Q) (ex : string) (c : coach_t)
  : coach_t :=
  match rep_states c !! ex with
  | None => c
  | Some state =>
      if String.eqb (current_phase state) "down"
         && Qltb elbow_angle (threshold_low state) then
        set_phase ex "up" c
      else if String.eqb (current_phase state) "up"
              && Qltb (threshold_high state) elbow_angle then
        let c := set_phase ex "down" c in
        let c := with_rep_count (rep_count c + 1) c in
        say_coaching ("Nice curl! Rep " +:+ pretty (rep_count c)) c
      else c
  end.

(** [_count_reps_pushup(elbow_angle, state)] *)
Definition _count_reps_pushup (elbow_angle : Q) (ex : string) (c : coach_t)
  : coach_t :=
  match rep_states c !! ex with
  | None => c
  | Some state =>
      if String.eqb (current_phase state) "up"
         && Qltb elbow_angle (threshold_low state) then
        set_phase ex "down" c
      else if String.eqb (current_phase state) "down"
              && Qltb (threshold_high state) elbow_angle then
        let c := set_phase ex "up" c in
        let c := with_rep_count (rep_count c + 1) c in
        say_coaching ("Strong push-up! Rep " +:+ pretty (rep_count c)) c
      else c
  end.

(** [(features[k1] + features[k2]) / 2] *)
Definition average_of (features : gmap string Q) (k1 k2 : string)
  : result Q :=
  let* x := getitem features k1 in
  let* y := getitem features k2 in
  Ok ((x + y) / 2)%Q.

(** [update_rep_count(features)].  A [KeyError] raised inside the [try]
    block is caught and only printed. *)
Definition update_rep_count (features : gmap string Q) (c : coach_t)
  : coach_t :=
  if negb (contains (rep_states c) (current_exercise c)) then c
  else
    let state := current_exercise c in
    if String.eqb (current_exercise c) "squat" then
      if contains features "right_knee_angle"
         && contains features "left_knee_angle" then
        match average_of features "right_knee_angle" "left_knee_angle" with
        | Ok avg_knee => _count_reps_squat avg_knee state c
        | KeyError _ => c
        end
      else c
    else if String.eqb (current_exercise c) "bicep_curl" then
      if contains features "right_elbow_angle"
         && contains features "left_elbow_angle" then
        match average_of features "right_elbow_angle" "left_elbow_angle" with
        | Ok avg_elbow => _count_reps_bicep avg_elbow state c
        | KeyError _ => c
        end
      else c
    else if String.eqb (current_exercise c) "push_up" then
      if contains features "right_elbow_angle"
         && contains features "left_elbow_angle" then
        match average_of features "right_elbow_angle" "left_elbow_angle" with
        | Ok avg_elbow => _count_reps_pushup avg_elbow state c
        | KeyError _ => c
        end
      else c
    else c.

(** [SmartCoach.reset_session()] (smart_coach.py), on the messages: after
    clearing the coach's own records it hands [say_coaching] a greeting. *)
Definition coach_reset_session (c : coach_t) : coach_t :=
  CoachState (coach c) (said c ++ ["New session started! Let's make it count!"])
             (current_exercise c) (exercise_confidence c)
             (exercise_history c) (rep_count c) (rep_states c).

(** [reset_session()], on the fields modelled here: the label, its
    confidence, the label window and the count go back to their initial
    values, every entry of [rep_states] gets its initial phase and no last
    angle, and then [if self.coach: self.coach.reset_session()]. *)
Definition reset_session (c : coach_t) : coach_t :=
  let c' :=
    {| coach := coach c;
       said := said c;
       current_exercise := "unknown";
       exercise_confidence := 0;
       exercise_history := [];
       rep_count := 0;
       rep_states :=
         map_imap
           (fun exercise state =>
              Some (RepState (threshold_low state) (threshold_high state)
                      (if String.eqb exercise "squat"
                          || String.eqb exercise "push_up"
                       then "up" else "down")
                      None))
           (rep_states c) |} in
  if coach c' then coach_reset_session c' else c'.

End Coach.

(** ** Floating point: binary64 arithmetic and NumPy's reductions *)

(** A binary64 value is modelled by the rational it denotes, and an
    operation by the exact operation followed by rounding to the nearest
    value with 53 significant bits, ties to the even one.  The exponent
    range is not modelled: the quantities computed from form scores and
    pixel coordinates stay far from overflow and underflow. *)
Module Float64.

(** Number of significant bits. *)
Definition prec : Z := 53.

(** [mant * 2 ^ expo] *)
Definition ldexp (mant expo : Z) : Q :=
  Qred (if 0 <=? expo then inject_Z (mant * 2 ^ expo)
        else Qmake mant (Z.to_pos (2 ^ (- expo)))).

(** Of [m] and [m + 1] the one nearest to a value between them, the even
    one on a tie; [c] compares the value with the midpoint [m + 1/2]. *)
Definition nearest_even (m : Z) (c : comparison) : Z :=
  match c with
  | Lt => m
  | Gt => m + 1
  | Eq => if Z.even m then m else m + 1
  end.

(** The binary64 nearest to [n / d], for positive [n] and [d]: the
    quotient is scaled by a power of two into [2^52, 2^53) and rounded to
    an integer. *)
Definition round_pos (n d : Z) : Q :=
  let e0 := Z.log2 n - Z.log2 d - prec in
  let num := n * 2 ^ Z.max 0 (- e0) in
  let den := d * 2 ^ Z.max 0 e0 in
  let '(e, den) :=
    if 2 ^ prec <=? num / den then (e0 + 1, 2 * den) else (e0, den) in
  ldexp (nearest_even (num / den) (2 * (num mod den) ?= den)) e.

Definition round (q : Q) : Q :=
  let q := Qred q in
  match Qnum q with
  | 0 => 0%Q
  | Zpos n => round_pos (Zpos n) (Zpos (Qden q))
  | Zneg n => (- round_pos (Zpos n) (Zpos (Qden q)))%Q
  end.

(** Conversion of an integer, and the four operations. *)
Definition of_int (z : Z) : Q := round (inject_Z z).
Definition add (x y : Q) : Q := round (x + y).
Definition sub (x y : Q) : Q := round (x - y).
Definition mul (x y : Q) : Q := round (x * y).
Definition div (x y : Q) : Q := round (x / y).

(** The binary64 nearest to the square root of [n / d]: the quotient is
    scaled by a power of four that brings its root into [2^52, 2^53). *)
Definition sqrt_pos (n d : Z) : Q :=
  let e0 := (Z.log2 n - Z.log2 d - 1) / 2 - (prec - 1) in
  let num := n * 4 ^ Z.max 0 (- e0) in
  let den := d * 4 ^ Z.max 0 e0 in
  let '(e, den) :=
    if 2 ^ prec <=? Z.sqrt (num / den) then (e0 + 1, 4 * den)
    else (e0, den) in
  let m := Z.sqrt (num / den) in
  ldexp (nearest_even m (4 * num ?= (2 * m + 1) ^ 2 * den)) e.

(** [sqrt], on the non-negative values. *)
Definition sqrt (x : Q) : Q :=
  let x := Qred x in
  match Qnum x with
  | Zpos n => sqrt_pos (Zpos n) (Zpos (Qden x))
  | _ => 0%Q
  end.

End Float64.

(** [np.mean] and [np.std] of a list of integers, as NumPy computes them
    (numpy/_core/_methods.py, [_mean] and [_var]): the elements are
    converted to binary64 and added up by [np.add.reduce], which sums a
    contiguous array by [pairwise_sum] (numpy/_core/src/umath,
    loops_utils.h.src; the notes of [numpy.sum] describe it). *)
Module Numpy.

(** The straight loop [for (i = 0; i < n; i++) res += a[i]]. *)
Definition sum_loop (res : Q) (a : list Q) : Q := fold_left Float64.add a res.

(** [r[j] += a[i + j]] for [j] from 0 to 7. *)
Fixpoint add_lanes (r a : list Q) : list Q :=
  match r, a with
  | x :: r', y :: a' => Float64.add x y :: add_lanes r' a'
  | _, _ => r
  end.

(** The unrolled loop over [blocks] groups of eight elements: the eight
    partial sums, and the elements left over. *)
Fixpoint unrolled (blocks : nat) (r a : list Q) : list Q * list Q :=
  match blocks with
  | O => (r, a)
  | S blocks' => unrolled blocks' (add_lanes r (take 8 a)) (drop 8 a)
  end.

(** A block of 8 to 128 elements: eight partial sums, added up as a
    balanced tree, then the elements beyond the last multiple of 8. *)
Definition block_sum (a : list Q) : Q :=
  match unrolled (Nat.div (length a) 8 - 1) (take 8 a) (drop 8 a) with
  | ([r0; r1; r2; r3; r4; r5; r6; r7], rest) =>
      sum_loop
        (Float64.add
           (Float64.add (Float64.add r0 r1) (Float64.add r2 r3))
           (Float64.add (Float64.add r4 r5) (Float64.add r6 r7)))
        rest
  | (_, _) => sum_loop 0%Q a
  end.

Definition PW_BLOCKSIZE : nat := 128.

(** [pairwise_sum(a, n)]: fewer than 8 elements are added in a loop, up
    to 128 as a block, and more are split in two halves (the first one a
    multiple of 8 long) that are summed apart.  [fuel] bounds the depth of
    the splitting; the length of [a] is always enough. *)
Fixpoint pairwise_sum (fuel : nat) (a : list Q) : Q :=
  let n := length a in
  if (n <? 8)%nat then sum_loop 0%Q a
  else if (n <=? PW_BLOCKSIZE)%nat then block_sum a
  else
    match fuel with
    | O => block_sum a
    | S fuel' =>
        let n2 := (Nat.div n 2 - Nat.modulo (Nat.div n 2) 8)%nat in
        Float64.add (pairwise_sum fuel' (take n2 a))
                    (pairwise_sum fuel' (drop n2 a))
    end.

(** [np.add.reduce(a)] *)
Definition sum (a : list Q) : Q := pairwise_sum (length a) a.

(** [np.mean(a)]: the sum in binary64, divided by the count.  (An array of
    more than 8192 integers is converted and summed in chunks of that
    size; sums of integers below 2^53 are exact in either order.) *)
Definition mean (a : list Z) : Q :=
  Float64.div (sum (map Float64.of_int a))
              (Float64.of_int (Z.of_nat (length a))).

(** [np.std(a)]: [x = a - mean], [x = x * x], [sqrt(sum(x) / n)]. *)
Definition std (a : list Z) : Q :=
  let arrmean := mean a in
  let x := map (fun v => Float64.sub (Float64.of_int v) arrmean) a in
  let x := map (fun v => Float64.mul v v) x in
  let ret := sum x in
  let ret := Float64.div ret (Float64.of_int (Z.of_nat (length a))) in
  Float64.sqrt ret.

End Numpy.

(** ** app.py: the batch estimator and the per-video session aggregation *)

Module Analyzer.
Import Num Dict Features.

(** [Config.FRAME_SKIP] *)
Definition FRAME_SKIP : Z := 3.

Definition sum (xs : list Z) : Z := fold_right Z.add 0 xs.

(** [threshold = np.mean(form_scores) - np.std(form_scores)] *)
Definition threshold (form_scores : list Z) : Q :=
  Float64.sub (Numpy.mean form_scores) (Numpy.std form_scores).

(** [score < threshold]; the score is an integer, which binary64 holds
    exactly, and the comparison of two values is exact. *)
Definition below_threshold (threshold : Q) (score : Z) : bool :=
  Qltb (inject_Z score) threshold.

(** [score >= threshold] *)
Definition at_or_above_threshold (threshold : Q) (score : Z) : bool :=
  Qleb threshold (inject_Z score).

(** The body of [for score in form_scores], on the locals
    [(low_form_periods, in_low_period)]. *)
Definition rep_step (threshold : Q) (st : Z * bool) (score : Z)
  : Z * bool :=
  let '(low_form_periods, in_low_period) := st in
  if below_threshold threshold score && negb in_low_period then
    (low_form_periods + 1, true)
  else if at_or_above_threshold threshold score then
    (low_form_periods, false)
  else (low_form_periods, in_low_period).

(** [estimate_rep_count(form_scores)] *)
Definition estimate_rep_count (form_scores : list Z) : Z :=
  if (length form_scores <? 10)%nat then 0
  else
    let threshold := threshold form_scores in
    let '(low_form_periods, _) :=
      fold_left (rep_step threshold) form_scores (0, false) in
    Z.max 0 (low_form_periods - 1).

(** One entry of [key_frames]. *)
Record key_frame : Type := KeyFrame {
  frame : Z;
  score : Z;
  kf_issues : list string;
  image_path : string
}.

(** The [analysis_results] dictionary. *)
Record analysis_results : Type := AnalysisResults {
  frames_analyzed : Z;
  exercise_detected : string;
  confidence : Q;
  form_scores : list Z;
  issues_detected : list string;
  recommendations : list string;
  rep_count : Z;
  key_frames : list key_frame;
  overall_score : Z;
  video_duration : Q;
  fps : Q
}.

(** What [analyze_video] returns: the results or [{"error": msg}]. *)
Inductive response : Type :=
| Results (r : analysis_results)
| Error (msg : string).

(** One decoded frame as the analysis sees it: [None] when the pose
    provider reports no landmarks (or extraction gives [(None, None)]),
    otherwise the geometry-derived measures of the frame. *)
Definition frame_t : Type := option (angles_t * enhanced_t).

(** An opened capture: its [CAP_PROP_FPS], [CAP_PROP_FRAME_COUNT] and the
    frames [cap.read()] delivers, in order. *)
Record video : Type := Video {
  cap_fps : Q;
  cap_frame_count : Z;
  cap_frames : list frame_t
}.

(** The locals of the frame loop together with the shared angle history. *)
Record loop_state : Type := LoopState {
  results : analysis_results;
  exercise_votes : list (string * Z);
  angle_history : list features_t
}.

(** The accumulation under [if analysis:] and the frame counter after it. *)
Definition record_analysis (frame_count : Z) (a : Features.analysis_t)
    (r : analysis_results) : analysis_results :=
  let key_frames' :=
    if Features.overall_score a <? 70 then
      key_frames r ++
        [KeyFrame frame_count (Features.overall_score a)
                  (take 2 (Features.issues a))
                  ("static/results/key_frame_" +:+ pretty frame_count +:+ ".jpg")]
    else key_frames r in
  AnalysisResults
    (frames_analyzed r + 1)
    (exercise_detected r)
    (confidence r)
    (form_scores r ++ [Features.overall_score a])
    (issues_detected r ++ Features.issues a)
    (recommendations r ++ Features.recommendations a)
    (rep_count r)
    key_frames'
    (overall_score r)
    (video_duration r)
    (fps r).

(** The analysis of one sampled frame with landmarks.  A [KeyError] leaves
    the loop; the history has been extended by then. *)
Definition process_frame (frame_count : Z) (a : angles_t) (e : enhanced_t)
    (st : loop_state) : result loop_state * list features_t :=
  let '(features, h) :=
    extract_comprehensive_features a e (angle_history st) in
  (let* detected_exercise := detect_exercise_type features in
   let votes := Tally.incr (exercise_votes st) detected_exercise in
   let* analysis := analyze_form_quality detected_exercise features in
   Ok (LoopState (record_analysis frame_count analysis (results st)) votes h),
   h).

(** The [while True] loop over the frames still to be read. *)
Fixpoint frame_loop (frames : list frame_t) (frame_count : Z)
    (st : loop_state) : result loop_state * list features_t :=
  match frames with
  | [] => (Ok st, angle_history st)
  | f :: rest =>
      if negb (frame_count mod FRAME_SKIP =? 0) then
        frame_loop rest (frame_count + 1) st
      else
        match f with
        | Some (a, e) =>
            match process_frame frame_count a e st with
            | (Ok st', _) => frame_loop rest (frame_count + 1) st'
            | (KeyError k, h) => (KeyError k, h)
            end
        | None => frame_loop rest (frame_count + 1) st
        end
  end.

(** [list(set(xs))]: the distinct members of [xs] in the order the set
    implementation enumerates them. *)
Definition list_set (xs : list string) : list string :=
  elements (list_to_set xs : gset string).

(** The summary computed once the votes are known not to be empty. *)
Definition finalize (most_likely_exercise : string) (votes : Z)
    (exercise_votes : list (string * Z)) (r : analysis_results)
  : analysis_results :=
  let total_votes := Tally.total exercise_votes in
  let confidence := (inject_Z votes / inject_Z total_votes)%Q in
  let overall_score' :=
    match form_scores r with
    | [] => overall_score r
    | _ => Z.quot (sum (form_scores r)) (Z.of_nat (length (form_scores r)))
    end in
  AnalysisResults
    (frames_analyzed r)
    most_likely_exercise
    confidence
    (form_scores r)
    (list_set (issues_detected r))
    (list_set (recommendations r))
    (estimate_rep_count (form_scores r))
    (key_frames r)
    overall_score'
    (video_duration r)
    (fps r).

(** [analyze_video(video_path)]: [None] stands for a capture that cannot
    be opened.  The second component is the shared angle history the call
    leaves behind. *)
Definition analyze_video (v : option video) (angle_history : list features_t)
  : response * list features_t :=
  match v with
  | None => (Error "Could not open video file", angle_history)
  | Some v =>
      let fps := cap_fps v in
      let total_frames := cap_frame_count v in
      let duration :=
        if Qltb 0 fps then (inject_Z total_frames / fps)%Q else 0%Q in
      let analysis_results :=
        AnalysisResults 0 "unknown" 0 [] [] [] 0 [] 0 duration fps in
      match frame_loop (cap_frames v) 0
              (LoopState analysis_results [] angle_history) with
      | (Ok st, h) =>
          match Tally.argmax (exercise_votes st) with
          | Some (most_likely_exercise, votes) =>
              (Results (finalize most_likely_exercise votes
                                 (exercise_votes st) (results st)), h)
          | None => (Error "No pose landmarks detected in video", h)
          end
      | (KeyError k, h) =>
          (Error ("Analysis failed: '" +:+ k +:+ "'"), h)
      end
  end.

End Analyzer.

(** ** features.py: joint geometry

    [calculate_angle] goes through a square root and an arccosine, so it is
    modelled on the real numbers, each NumPy primitive by the function it
    approximates. *)

Module Geometry.

Local Open Scope R_scope.

Definition point : Type := R * R.

(** [a - b] on arrays of two coordinates *)
Definition sub (a b : point) : point := (fst a - fst b, snd a - snd b).

(** [np.dot] *)
Definition dot (u v : point) : R := fst u * fst v + snd u * snd v.

(** [np.linalg.norm] *)
Definition norm (u : point) : R := sqrt (dot u u).

(** [np.clip(x, lo, hi)] *)
Definition clip (x lo hi : R) : R := Rmin (Rmax x lo) hi.

(** [np.degrees] *)
Definition degrees (x : R) : R := x * 180 / PI.

(** Rounding to the nearest integer, ties to the even one. *)
Definition rint (x : R) : Z :=
  let f := Zfloor x in
  let r := x - IZR f in
  if Rlt_dec r (1 / 2) then f
  else if Rlt_dec (1 / 2) r then (f + 1)%Z
  else if Z.even f then f else (f + 1)%Z.

(** [round(x, 2)] *)
Definition round2 (x : R) : R := IZR (rint (x * 100)) / 100.

(** [AdvancedFeatureExtractor.calculate_angle(a, b, c)] *)
Definition calculate_angle (a b c : point) : R :=
  let ba := sub a b in
  let bc := sub c b in
  let norm_ba := norm ba in
  let norm_bc := norm bc in
  if Req_dec_T norm_ba 0 then 0
  else if Req_dec_T norm_bc 0 then 0
  else
    let cosine := dot ba bc / (norm_ba * norm_bc) in
    let angle := acos (clip cosine (-1) 1) in
    round2 (degrees angle).

End Geometry.

(** ** features.py: the distance of two points *)

Module Distance.

(** A point with binary64 coordinates. *)
Definition point : Type := (Q * Q)%type.

(** A pixel: a point with integer coordinates. *)
Definition pixel (x y : Z) : point := (inject_Z x, inject_Z y).

(** [x ** 2] *)
Definition square (x : Q) : Q := Float64.mul x x.

(** [AdvancedFeatureExtractor.calculate_distance(p1, p2)].  On the
    coordinates the pipeline passes (pixels, or midpoints of two pixels)
    the differences, the squares and their sum are exact, in Python's
    integers as in binary64, and the square root is the one rounding. *)
Definition calculate_distance (p1 p2 : point) : Q :=
  Float64.sqrt
    (Float64.add (square (Float64.sub (fst p1) (fst p2)))
                 (square (Float64.sub (snd p1) (snd p2)))).

End Distance.

(** ** app.py: the upload filter *)

Module Upload.

(** [Config.ALLOWED_EXTENSIONS] (a set: only membership is used). *)
Definition ALLOWED_EXTENSIONS : list string :=
  ["mp4"; "avi"; "mov"; "mkv"; "webm"; "mpg"; "mpeg"].

Definition dot : Ascii.ascii := Ascii.ascii_of_nat 46.

(** ['.' in filename] *)
Fixpoint contains_dot (filename : string) : bool :=
  match filename with
  | EmptyString => false
  | String c rest => Ascii.eqb c dot || contains_dot rest
  end.

(** [filename.rsplit('.', 1)[1]]: the text after the last dot; [None]
    where the split has one part only and the index is out of range. *)
Fixpoint after_last_dot (filename : string) : option string :=
  match filename with
  | EmptyString => None
  | String c rest =>
      match after_last_dot rest with
      | Some ext => Some ext
      | None => if Ascii.eqb c dot then Some rest else None
      end
  end.

(** [str.lower] on one character of ASCII text: the letters A-Z move to
    a-z, every other character stays. *)
Definition lower_char (c : Ascii.ascii) : Ascii.ascii :=
  let n := Ascii.nat_of_ascii c in
  if ((65 <=? n) && (n <=? 90))%nat then Ascii.ascii_of_nat (n + 32) else c.

(** [s.lower()] for ASCII text. *)
Fixpoint lower (s : string) : string :=
  match s with
  | EmptyString => EmptyString
  | String c rest => String (lower_char c) (lower rest)
  end.

(** [allowed_file(filename)] (and [Config.is_allowed_file], which has the
    same body). *)
Definition allowed_file (filename : string) : bool :=
  contains_dot filename
  && match after_last_dot filename with
     | Some ext => bool_decide (lower ext ∈ ALLOWED_EXTENSIONS)
     | None => false
     end.

End Upload.

(** * Properties *)

(** ** Comparisons on rationals *)

Module NumFacts.
Import Num.

Lemma Qltb_lt a b : Qltb a b = true <-> (a < b)%Q.
Proof.
  unfold Qltb. rewrite Qlt_alt. destruct (Qcompare a b); split; congruence.
Qed.

Lemma Qltb_ge a b : Qltb a b = false <-> (b <= a)%Q.
Proof.
  split; intros H.
  - apply Qnot_lt_le. intros Hlt. apply Qltb_lt in Hlt. congruence.
  - destruct (Qltb a b) eqn:E; [|reflexivity].
    apply Qltb_lt in E. exfalso. exact (Qlt_not_le _ _ E H).
Qed.

Lemma Qleb_le a b : Qleb a b = true <-> (a <= b)%Q.
Proof.
  unfold Qleb. rewrite Qle_alt. destruct (Qcompare a b); split; congruence.
Qed.

Lemma Qleb_gt a b : Qleb a b = false <-> (b < a)%Q.
Proof.
  split; intros H.
  - apply Qnot_le_lt. intros Hle. apply Qleb_le in Hle. congruence.
  - destruct (Qleb a b) eqn:E; [|reflexivity].
    apply Qleb_le in E. exfalso. exact (Qlt_not_le _ _ H E).
Qed.

End NumFacts.

(** ** The live repetition counter *)

Module CoachFacts.
Import Num Dict Coach NumFacts.

(** The squat counter fed a sequence of average knee angles. *)
Definition feed_squat (angles : list Q) (c : coach_t) : coach_t :=
  fold_left (fun c knee_angle => _count_reps_squat knee_angle "squat" c)
            angles c.

Lemma rep_count_say msg c : rep_count (say_coaching msg c) = rep_count c.
Proof. unfold say_coaching. destruct (coach c); reflexivity. Qed.

Lemma rep_states_say msg c : rep_states (say_coaching msg c) = rep_states c.
Proof. unfold say_coaching. destruct (coach c); reflexivity. Qed.

(** Each counter either leaves the count alone or adds one to it. *)
Lemma squat_step angle ex c :
  rep_count (_count_reps_squat angle ex c) = rep_count c
  \/ rep_count (_count_reps_squat angle ex c) = rep_count c + 1.
Proof.
  unfold _count_reps_squat. destruct (rep_states c !! ex) as [st|]; [|by left].
  repeat case_match; rewrite ?rep_count_say; simpl; auto.
Qed.

Lemma bicep_step angle ex c :
  rep_count (_count_reps_bicep angle ex c) = rep_count c
  \/ rep_count (_count_reps_bicep angle ex c) = rep_count c + 1.
Proof.
  unfold _count_reps_bicep. destruct (rep_states c !! ex) as [st|]; [|by left].
  repeat case_match; rewrite ?rep_count_say; simpl; auto.
Qed.

Lemma pushup_step angle ex c :
  rep_count (_count_reps_pushup angle ex c) = rep_count c
  \/ rep_count (_count_reps_pushup angle ex c) = rep_count c + 1.
Proof.
  unfold _count_reps_pushup. destruct (rep_states c !! ex) as [st|]; [|by left].
  repeat case_match; rewrite ?rep_count_say; simpl; auto.
Qed.

Lemma update_step features c :
  rep_count (update_rep_count features c) = rep_count c
  \/ rep_count (update_rep_count features c) = rep_count c + 1.
Proof.
  unfold update_rep_count.
  repeat case_match; auto using squat_step, bicep_step, pushup_step.
Qed.

(** The phase stored for exercise [ex]. *)
Definition phase_of (ex : string) (c : coach_t) : option string :=
  current_phase <$> rep_states c !! ex.

Lemma phase_of_set_phase ex phase c st :
  rep_states c !! ex = Some st ->
  phase_of ex (set_phase ex phase c) = Some phase.
Proof.
  intros H. unfold phase_of, set_phase. simpl.
  rewrite lookup_alter_eq, H. reflexivity.
Qed.

(** C1: starting from the initial state (phase "up", thresholds 120 and
    160), the squat counter fed the knee angles 170, 100, 170 ends with one
    repetition, fed only 170, 100 it ends with none; and a step taken in
    phase "down" with an angle above the high threshold returns to phase
    "up" and adds exactly one to the count, while a step that is not such a
    transition leaves the count unchanged. *)
Theorem squat_counter_counts_returns_to_up :
  (forall coach,
     rep_states (init coach) !! "squat" = Some (RepState 120 160 "up" None)
     /\ rep_count (feed_squat [170; 100; 170]%Q (init coach)) = 1
     /\ rep_count (feed_squat [170; 100]%Q (init coach)) = 0)
  /\ (forall c state knee_angle,
        rep_states c !! "squat" = Some state ->
        current_phase state = "down" ->
        (threshold_high state < knee_angle)%Q ->
        rep_count (_count_reps_squat knee_angle "squat" c) = rep_count c + 1
        /\ phase_of "squat" (_count_reps_squat knee_angle "squat" c)
           = Some "up")
  /\ (forall c state knee_angle,
        rep_states c !! "squat" = Some state ->
        (current_phase state <> "down"
         \/ (knee_angle <= threshold_high state)%Q) ->
        rep_count (_count_reps_squat knee_angle "squat" c) = rep_count c).
Proof.
  split; [|split].
  - intros [|]; repeat split; vm_compute; reflexivity.
  - intros c state angle Hst Hph Hhi.
    unfold _count_reps_squat. rewrite Hst, Hph. simpl.
    apply Qltb_lt in Hhi. rewrite Hhi.
    rewrite rep_count_say. unfold phase_of. rewrite rep_states_say. simpl.
    split; [reflexivity|]. rewrite lookup_alter_eq, Hst. reflexivity.
  - intros c state angle Hst Hcase.
    unfold _count_reps_squat. rewrite Hst.
    destruct (String.eqb (current_phase state) "up"
              && Qltb angle (threshold_low state)); [reflexivity|].
    destruct Hcase as [Hph|Hle].
    + destruct (String.eqb_spec (current_phase state) "down"); [done|].
      reflexivity.
    + apply Qltb_ge in Hle. rewrite Hle, andb_false_r. reflexivity.
Qed.

Lemma squat_counter_counts_returns_to_up_witness :
  rep_count (_count_reps_squat 170 "squat"
               (feed_squat [170; 100]%Q (init true)))
  = rep_count (feed_squat [170; 100]%Q (init true)) + 1.
Proof.
  exact (proj1 (proj1 (proj2 squat_counter_counts_returns_to_up)
                  (feed_squat [170; 100]%Q (init true))
                  (RepState 120 160 "down" None) 170%Q
                  ltac:(vm_compute; reflexivity)
                  ltac:(reflexivity)
                  ltac:(reflexivity))).
Defined.

(** C9: an update never lowers the repetition count, whatever the current
    exercise and the features; hence neither does any sequence of
    updates. *)
Theorem update_rep_count_never_decrements :
  (forall features c, rep_count c <= rep_count (update_rep_count features c))
  /\ (forall inputs c,
        rep_count c
        <= rep_count (fold_left (fun c f => update_rep_count f c) inputs c)).
Proof.
  assert (Hstep : forall features c,
             rep_count c <= rep_count (update_rep_count features c)).
  { intros features c. destruct (update_step features c) as [H|H]; lia. }
  split; [exact Hstep|].
  induction inputs as [|f inputs IH]; intros c; simpl; [lia|].
  specialize (IH (update_rep_count f c)). specialize (Hstep f c). lia.
Qed.

(** C10: when the current exercise is none of squat, bicep_curl and
    push_up, [update_rep_count] returns the state it was given: count,
    phases and everything else. *)
Theorem update_rep_count_other_exercise_noop features c :
  current_exercise c <> "squat" ->
  current_exercise c <> "bicep_curl" ->
  current_exercise c <> "push_up" ->
  update_rep_count features c = c.
Proof.
  intros H1 H2 H3. unfold update_rep_count.
  destruct (negb (contains (rep_states c) (current_exercise c)));
    [reflexivity|].
  destruct (String.eqb_spec (current_exercise c) "squat"); [done|].
  destruct (String.eqb_spec (current_exercise c) "bicep_curl"); [done|].
  destruct (String.eqb_spec (current_exercise c) "push_up"); [done|].
  reflexivity.
Qed.

Lemma update_rep_count_other_exercise_noop_witness :
  update_rep_count ∅ (with_exercise "plank" 1 (init true))
  = with_exercise "plank" 1 (init true).
Proof.
  apply update_rep_count_other_exercise_noop; simpl; discriminate.
Defined.

End CoachFacts.

(** ** Classification smoothing *)

Module SmoothingFacts.
Import Num Dict Coach NumFacts.

(** The labels fed one after the other, each as a detection. *)
Definition feed (labels : list string) (c : coach_t) : coach_t :=
  fold_left (fun c l => fst (smooth_exercise_detection (Some l) c)) labels c.

(** [a, b, a, b, ...], [n] labels long. *)
Fixpoint alternating (a b : string) (n : nat) : list string :=
  match n with
  | O => []
  | S n' => a :: alternating b a n'
  end.

(** What one call decides from the window it has just extended: the label
    and confidence to publish, if any. *)
Definition verdict (history : list string) : option (string * Q) :=
  if (5 <=? length history)%nat then
    match majority history with
    | Some (most_common, confidence) =>
        if Qleb (6 # 10) confidence then Some (most_common, confidence)
        else None
    | None => None
    end
  else None.

(** The part of the state smoothing works on. *)
Definition view (c : coach_t) : list string * string * Q :=
  (exercise_history c, current_exercise c, exercise_confidence c).

Definition step_view (l : string) (v : list string * string * Q)
  : list string * string * Q :=
  let '(h, cur, conf) := v in
  let h' := Deque.append 10 h l in
  match verdict h' with
  | Some (m, cf) => (h', m, cf)
  | None => (h', cur, conf)
  end.

Lemma view_smooth l c :
  view (fst (smooth_exercise_detection (Some l) c)) = step_view l (view c).
Proof.
  unfold smooth_exercise_detection, step_view, view, verdict. simpl.
  repeat case_match; simplify_eq; reflexivity.
Qed.

Lemma view_feed labels c :
  view (feed labels c) = fold_left (fun v l => step_view l v) labels (view c).
Proof.
  revert c. induction labels as [|l labels IH]; intros c; [reflexivity|].
  unfold feed in *. cbn [fold_left]. rewrite <- view_smooth. apply IH.
Qed.

Lemma alternating_snoc a b n :
  alternating a b (S n) = alternating a b n ++ [if Nat.even n then a else b].
Proof.
  revert a b. induction n as [|n IH]; intros a b; [reflexivity|].
  change (alternating a b (S (S n))) with (a :: alternating b a (S n)).
  rewrite IH. change (alternating a b (S n)) with (a :: alternating b a n).
  rewrite Nat.even_succ, <- Nat.negb_even. destruct (Nat.even n); reflexivity.
Qed.

(** The window's majority confidence, when the window is long enough for
    the code to compute it, is at most [bound]. *)
Definition window_confidence_le (bound : Q) (history : list string) : Prop :=
  (5 <= length history)%nat ->
  exists most_common confidence,
    majority history = Some (most_common, confidence)
    /\ (confidence <= bound)%Q.

Section Alternating.
Variables a b : string.
Hypothesis Hab : a <> b.

Lemma eqb_ab : String.eqb a b = false.
Proof. by apply String.eqb_neq. Qed.

Lemma eqb_ba : String.eqb b a = false.
Proof. apply String.eqb_neq. congruence. Qed.

Ltac tally :=
  unfold step_view, verdict, majority, Tally.count_all, Deque.append;
  repeat (cbn [fold_left Tally.incr app length drop Nat.sub Nat.leb Nat.even
               fst snd];
          rewrite ?String.eqb_refl, ?eqb_ab, ?eqb_ba);
  vm_compute.

(** The view after [n] alternating labels, from the initial view. *)
Definition run (n : nat) : list string * string * Q :=
  fold_left (fun v l => step_view l v) (alternating a b n)
            ([], "unknown", 0%Q).

Lemma run_S n : run (S n) = step_view (if Nat.even n then a else b) (run n).
Proof. unfold run. rewrite alternating_snoc, fold_left_app. reflexivity. Qed.

Lemma run_1 : run 1 = ([a], "unknown", 0%Q).
Proof. tally; reflexivity. Qed.

Lemma run_2 : run 2 = ([a; b], "unknown", 0%Q).
Proof. rewrite run_S, run_1. tally; reflexivity. Qed.

Lemma run_3 : run 3 = ([a; b; a], "unknown", 0%Q).
Proof. rewrite run_S, run_2. tally; reflexivity. Qed.

Lemma run_4 : run 4 = ([a; b; a; b], "unknown", 0%Q).
Proof. rewrite run_S, run_3. tally; reflexivity. Qed.

Lemma run_5 : run 5 = ([a; b; a; b; a], a, 3 # 5).
Proof. rewrite run_S, run_4. tally; reflexivity. Qed.

Lemma run_6 : run 6 = ([a; b; a; b; a; b], a, 3 # 5).
Proof. rewrite run_S, run_5. tally; reflexivity. Qed.

Lemma run_7 : run 7 = ([a; b; a; b; a; b; a], a, 3 # 5).
Proof. rewrite run_S, run_6. tally; reflexivity. Qed.

Lemma run_8 : run 8 = ([a; b; a; b; a; b; a; b], a, 3 # 5).
Proof. rewrite run_S, run_7. tally; reflexivity. Qed.

Lemma run_9 : run 9 = ([a; b; a; b; a; b; a; b; a], a, 3 # 5).
Proof. rewrite run_S, run_8. tally; reflexivity. Qed.

(** Once the window is full it holds five of each label, starting with
    [a] after an even number of labels and with [b] after an odd one. *)
Definition full_window (n : nat) : list string :=
  if Nat.even n then [a; b; a; b; a; b; a; b; a; b]
  else [b; a; b; a; b; a; b; a; b; a].

Lemma run_full k : run (10 + k) = (full_window k, a, 3 # 5).
Proof.
  induction k as [|k IH].
  - change (10 + 0)%nat with 10%nat. rewrite run_S, run_9. tally; reflexivity.
  - replace (10 + S k)%nat with (S (10 + k)) by lia.
    rewrite run_S, IH. unfold full_window.
    replace (Nat.even (10 + k)) with (Nat.even k)
      by (rewrite Nat.even_add; destruct (Nat.even k); reflexivity).
    rewrite Nat.even_succ, <- Nat.negb_even.
    destruct (Nat.even k); tally; reflexivity.
Qed.

(** The published label and confidence after [n] alternating labels. *)
Lemma run_label n :
  snd (fst (run n)) = (if (n <? 5)%nat then "unknown" else a)
  /\ snd (run n) = (if (n <? 5)%nat then 0%Q else 3 # 5).
Proof.
  destruct (Nat.lt_ge_cases n 10) as [Hlt|Hge].
  - do 10 (destruct n as [|n];
           [rewrite ?run_1, ?run_2, ?run_3, ?run_4, ?run_5, ?run_6, ?run_7,
              ?run_8, ?run_9; split; reflexivity|]).
    lia.
  - replace n with (10 + (n - 10))%nat by lia. rewrite run_full.
    destruct (_ <? 5)%nat eqn:E; [apply Nat.ltb_lt in E; lia|].
    split; reflexivity.
Qed.

(** The confidence computed from each window never exceeds 0.6. *)
Lemma run_window n : window_confidence_le (6 # 10) (fst (fst (run n))).
Proof.
  assert (Hfull : forall k, window_confidence_le (6 # 10) (full_window k)).
  { intros k _. unfold full_window.
    destruct (Nat.even k); [exists a, (5 # 10) | exists b, (5 # 10)];
      (split; [tally; reflexivity | vm_compute; discriminate]). }
  destruct (Nat.lt_ge_cases n 10) as [Hlt|Hge].
  - do 5 (destruct n as [|n];
          [rewrite ?run_1, ?run_2, ?run_3, ?run_4; intros Hlen;
           cbn in Hlen; lia|]).
    destruct n as [|n];
      [rewrite run_5; intros _; exists a, (3 # 5);
       split; [tally; reflexivity | vm_compute; discriminate]|].
    destruct n as [|n];
      [rewrite run_6; intros _; exists a, (3 # 6);
       split; [tally; reflexivity | vm_compute; discriminate]|].
    destruct n as [|n];
      [rewrite run_7; intros _; exists a, (4 # 7);
       split; [tally; reflexivity | vm_compute; discriminate]|].
    destruct n as [|n];
      [rewrite run_8; intros _; exists a, (4 # 8);
       split; [tally; reflexivity | vm_compute; discriminate]|].
    destruct n as [|n];
      [rewrite run_9; intros _; exists a, (5 # 9);
       split; [tally; reflexivity | vm_compute; discriminate]|].
    lia.
  - replace n with (10 + (n - 10))%nat by lia. rewrite run_full. apply Hfull.
Qed.

End Alternating.

Lemma view_init coach : view (init coach) = ([], "unknown", 0%Q).
Proof. reflexivity. Qed.

Lemma view_current c : current_exercise c = snd (fst (view c)).
Proof. reflexivity. Qed.

Lemma view_confidence c : exercise_confidence c = snd (view c).
Proof. reflexivity. Qed.

Lemma view_history c : exercise_history c = fst (fst (view c)).
Proof. reflexivity. Qed.

(** The same label five times: nothing is published before the fifth
    call, which publishes the label with confidence 5/5. *)
Lemma same_label_five l coach :
  view (feed [l; l; l; l; l] (init coach)) = ([l; l; l; l; l], l, 5 # 5)
  /\ (forall k, (k < 5)%nat ->
        current_exercise (feed (replicate k l) (init coach)) = "unknown").
Proof.
  split.
  - rewrite view_feed, view_init.
    unfold step_view, verdict, majority, Tally.count_all, Deque.append.
    repeat (cbn [fold_left Tally.incr app length drop Nat.sub Nat.leb];
            rewrite ?String.eqb_refl).
    vm_compute. reflexivity.
  - intros k Hk.
    assert (Hview : snd (fst (view (feed (replicate k l) (init coach))))
                    = "unknown"); [|exact Hview].
    rewrite view_feed, view_init.
    do 5 (destruct k as [|k]; [reflexivity|]). lia.
Qed.

(** C5 (as the code has it): the same label five times in a row is
    published at the fifth call with confidence 1 and not before.  Under
    two distinct labels fed in alternation, the published confidence and
    the confidence computed from every window stay at or below 0.6; the
    published label changes only at the fifth call, where three of the five
    labels in the window are the first label, the confidence is exactly 0.6
    and the test [confidence >= 0.6] passes: from then on the published
    label is the first label of the sequence. *)
Theorem smoothing_publishes_at_sixty_percent coach a b n :
  a <> b ->
  (current_exercise (feed [a; a; a; a; a] (init coach)) = a
   /\ (exercise_confidence (feed [a; a; a; a; a] (init coach)) == 1)%Q
   /\ (forall k, (k < 5)%nat ->
         current_exercise (feed (replicate k a) (init coach)) = "unknown"))
  /\ (exercise_confidence (feed (alternating a b n) (init coach)) <= 6 # 10)%Q
  /\ window_confidence_le (6 # 10)
       (exercise_history (feed (alternating a b n) (init coach)))
  /\ current_exercise (feed (alternating a b n) (init coach))
     = (if (n <? 5)%nat then "unknown" else a).
Proof.
  intros Hab.
  destruct (same_label_five a coach) as [Hview Hbefore].
  pose proof (view_feed (alternating a b n) (init coach)) as Halt.
  rewrite view_init in Halt. fold (run a b n) in Halt.
  destruct (run_label a b Hab n) as [Hlabel Hconf].
  pose proof (run_window a b Hab n) as Hwin.
  rewrite !view_current, !view_confidence, view_history, Hview, Halt.
  cbn [fst snd].
  split; [split; [reflexivity|split; [reflexivity|]]|split; [|split]].
  - exact Hbefore.
  - rewrite Hconf. destruct (n <? 5)%nat; vm_compute; discriminate.
  - exact Hwin.
  - exact Hlabel.
Qed.

Lemma smoothing_publishes_at_sixty_percent_witness :
  current_exercise (feed (alternating "squat" "push_up" 7) (init true))
  = "squat".
Proof.
  exact (proj2 (proj2 (proj2
           (smoothing_publishes_at_sixty_percent true "squat" "push_up" 7
              ltac:(discriminate))))).
Defined.

(** Five alternating labels already move the published label away from
    its initial value. *)
Lemma alternating_labels_switch_at_fifth :
  current_exercise (init true) = "unknown"
  /\ current_exercise
       (feed ["squat"; "push_up"; "squat"; "push_up"; "squat"] (init true))
     = "squat"
  /\ exercise_confidence
       (feed ["squat"; "push_up"; "squat"; "push_up"; "squat"] (init true))
     = 3 # 5.
Proof. repeat split; vm_compute; reflexivity. Qed.

End SmoothingFacts.

(** ** The classifier and the form scorer *)

Module FeaturesFacts.
Import Num Dict Features NumFacts.

(** The six angle features are present. *)
Definition has_angles (features : features_t) : Prop :=
  Forall (fun k => is_Some (features !! k))
         ["right_knee_angle"; "left_knee_angle"; "right_hip_angle";
          "left_hip_angle"; "right_elbow_angle"; "left_elbow_angle"].

Lemma getitem_is_Some (features : features_t) k :
  is_Some (features !! k) -> exists v, getitem features k = Ok v.
Proof. intros [v Hv]. exists v. unfold getitem. rewrite Hv. reflexivity. Qed.

Ltac angles_present H :=
  unfold has_angles in H;
  repeat match type of H with
  | Forall _ (_ :: _) =>
      let Hk := fresh "Hk" in
      let v := fresh "v" in
      apply Forall_cons in H; destruct H as [Hk H];
      apply getitem_is_Some in Hk; destruct Hk as [v Hk]
  end.

Lemma averages_total features :
  has_angles features -> exists a, averages features = Ok a.
Proof.
  intros H. angles_present H. unfold averages.
  repeat match goal with Hk : getitem _ _ = Ok _ |- _ => rewrite Hk; clear Hk end.
  simpl. eauto.
Qed.

Lemma detect_exercise_type_total features :
  has_angles features -> exists l, detect_exercise_type features = Ok l.
Proof.
  intros H. destruct (averages_total features H) as [[[k h] e] Ha].
  unfold detect_exercise_type. rewrite Ha. simpl.
  repeat case_match; eauto.
Qed.

(** A rule that may fire takes at most its penalty and never adds. *)
Lemma when_score cond issue rec penalty t :
  0 <= penalty ->
  t_score t - penalty <= t_score (when cond issue rec penalty t) <= t_score t.
Proof. intros Hp. unfold when, penalize. destruct cond; simpl; lia. Qed.

(** Replace each pending [when] by a tally whose score is bounded, the
    innermost first. *)
Ltac bound_whens :=
  repeat match goal with
  | |- context [when ?c ?i ?r ?p ?t] =>
      lazymatch t with
      | context [when _ _ _ _ _] => fail
      | _ =>
          let H := fresh "Hw" in
          pose proof (when_score c i r p t ltac:(lia)) as H;
          generalize dependent (when c i r p t); intros
      end
  end.

Lemma squat_rules_score features t t' :
  squat_rules features t = Ok t' ->
  t_score t - 85 <= t_score t' <= t_score t.
Proof.
  unfold squat_rules.
  destruct (getitem features "right_knee_angle") as [rk|]; [|discriminate].
  destruct (getitem features "left_knee_angle") as [lk|]; [|discriminate].
  cbn [bind].
  destruct (getitem features "right_hip_angle") as [rh|]; [|discriminate].
  destruct (getitem features "left_hip_angle") as [lh|]; [|discriminate].
  cbn [bind]. intros [= <-].
  destruct (Qltb (avg rk lk) 60); bound_whens; unfold penalize in *;
    cbn [t_score] in *; lia.
Qed.

Lemma bicep_curl_rules_score features t t' :
  bicep_curl_rules features t = Ok t' ->
  t_score t - 40 <= t_score t' <= t_score t.
Proof.
  unfold bicep_curl_rules, bind.
  repeat (case_match; try discriminate); intros [= <-];
    unfold when, penalize; repeat case_match; simpl; lia.
Qed.

Lemma push_up_rules_score features t t' :
  push_up_rules features t = Ok t' ->
  t_score t - 35 <= t_score t' <= t_score t.
Proof.
  unfold push_up_rules, bind.
  repeat (case_match; try discriminate); intros [= <-];
    unfold when, penalize; repeat case_match; simpl; lia.
Qed.

Lemma exercise_rules_score exercise features t t' :
  exercise_rules exercise features t = Ok t' ->
  t_score t - 85 <= t_score t' <= t_score t.
Proof.
  unfold exercise_rules. repeat case_match; intros Hr.
  - apply squat_rules_score in Hr. lia.
  - apply bicep_curl_rules_score in Hr. lia.
  - apply push_up_rules_score in Hr. lia.
  - injection Hr as <-. lia.
Qed.

Lemma exercise_rules_total exercise features t :
  has_angles features -> exists t', exercise_rules exercise features t = Ok t'.
Proof.
  intros H. angles_present H.
  unfold exercise_rules, squat_rules, bicep_curl_rules, push_up_rules.
  repeat match goal with Hk : getitem _ _ = Ok _ |- _ => rewrite Hk; clear Hk end.
  simpl. repeat case_match; simpl; eauto.
Qed.

(** A squat frame on which every squat rule and the visibility rule
    fire. *)
Definition worst_squat : features_t :=
  list_to_map
    [ ("right_knee_angle", 50%Q); ("left_knee_angle", 50%Q);
      ("right_hip_angle", 50%Q); ("left_hip_angle", 50%Q);
      ("right_elbow_angle", 180%Q); ("left_elbow_angle", 180%Q);
      ("torso_lean", 45%Q); ("knee_symmetry", 20%Q);
      ("foot_distance", 10%Q); ("right_knee_angle_velocity", 300%Q);
      ("min_visibility", (1 # 2)%Q) ].

Lemma form_score_range_facts :
  (forall exercise features r,
     analyze_form_quality exercise features = Ok r ->
     10 <= overall_score r <= 100)
  /\ (forall exercise features,
        has_angles features ->
        exists r, analyze_form_quality exercise features = Ok r)
  /\ (exists r, analyze_form_quality "squat" worst_squat = Ok r
               /\ overall_score r = 10 /\ length (issues r) = 7%nat).
Proof.
  split; [|split].
  - intros exercise features r. unfold analyze_form_quality.
    destruct (exercise_rules exercise features (Scoring 100 [] [])) as [t|k] eqn:E;
      simpl; [|discriminate].
    intros [= <-]. apply exercise_rules_score in E. simpl in *.
    pose proof (when_score
      (Qltb (get features "min_visibility" 1%Q) (7 # 10))
      "Poor camera angle or lighting"
      "Improve camera position and lighting" 5 t ltac:(lia)) as Hv.
    unfold visibility_rule. lia.
  - intros exercise features H.
    destruct (exercise_rules_total exercise features (Scoring 100 [] []) H)
      as [t Ht].
    unfold analyze_form_quality. rewrite Ht. simpl. eauto.
  - eexists. split; [vm_compute; reflexivity|]. split; reflexivity.
Qed.

(** C3: whatever the exercise label and the features, a returned score lies
    between 0 and 100 (in fact never below 10: the penalties of one
    exercise add up to 90 at most, so the clamp at 0 is never the binding
    bound); the scorer returns whenever the six angles are present; and on
    a squat frame where every rule fires the score is 10 with all seven
    issues reported. *)
Theorem form_score_in_range :
  (forall exercise features r,
     analyze_form_quality exercise features = Ok r ->
     0 <= overall_score r <= 100 /\ 10 <= overall_score r)
  /\ (forall exercise features,
        has_angles features ->
        exists r, analyze_form_quality exercise features = Ok r)
  /\ (exists r, analyze_form_quality "squat" worst_squat = Ok r
               /\ overall_score r = 10 /\ length (issues r) = 7%nat).
Proof.
  destruct form_score_range_facts as (Hrange & Htotal & Hworst).
  split; [|split; [exact Htotal | exact Hworst]].
  intros exercise features r Hr. specialize (Hrange _ _ _ Hr). lia.
Qed.

(** The analysis of [worst_squat]. *)
Definition worst_squat_analysis : analysis_t :=
  Eval vm_compute in
    match analyze_form_quality "squat" worst_squat with
    | Ok r => r
    | KeyError _ => Analysis 0 [] []
    end.

Lemma form_score_in_range_witness :
  0 <= overall_score worst_squat_analysis <= 100
  /\ 10 <= overall_score worst_squat_analysis.
Proof.
  exact (proj1 form_score_in_range "squat" worst_squat worst_squat_analysis
           ltac:(vm_compute; reflexivity)).
Defined.

(** *** The four classification rules *)

(** The rule labels in the order the classifier tries them. *)
Definition rule_labels : list string :=
  ["squat"; "bicep_curl"; "push_up"; "plank"].

(** The predicate the classifier evaluates for a label. *)
Definition rule_holds (avg_knee avg_hip avg_elbow : Q) (features : features_t)
    (label : string) : bool :=
  if String.eqb label "squat" then squat_rule avg_knee avg_hip features
  else if String.eqb label "bicep_curl" then bicep_curl_rule avg_elbow features
  else if String.eqb label "push_up" then push_up_rule avg_elbow features
  else if String.eqb label "plank" then plank_rule features
  else false.

(** The first label in priority order whose predicate holds. *)
Definition first_match (avg_knee avg_hip avg_elbow : Q)
    (features : features_t) : string :=
  match find (rule_holds avg_knee avg_hip avg_elbow features) rule_labels with
  | Some label => label
  | None => "unknown"
  end.

Lemma bicep_excludes_low_shoulder_hip avg_elbow features bound :
  (bound <= 100)%Q ->
  bicep_curl_rule avg_elbow features = true ->
  Qltb (get features "shoulder_hip_distance" 0%Q) bound = false.
Proof.
  intros Hb H. unfold bicep_curl_rule in H.
  apply andb_prop in H as [H _]. apply andb_prop in H as [_ H].
  apply Qltb_lt in H. apply Qltb_ge.
  apply Qlt_le_weak. eapply Qle_lt_trans; eassumption.
Qed.

(** A standing frame with bent knees, hips and elbows: the squat rule and
    the bicep-curl rule both hold. *)
Definition squat_and_curl : features_t :=
  list_to_map
    [ ("right_knee_angle", 90%Q); ("left_knee_angle", 90%Q);
      ("right_hip_angle", 90%Q); ("left_hip_angle", 90%Q);
      ("right_elbow_angle", 90%Q); ("left_elbow_angle", 90%Q);
      ("foot_distance", 50%Q); ("spine_angle", 170%Q);
      ("shoulder_hip_distance", 150%Q); ("torso_lean", 0%Q) ].

(** A horizontal frame with bent elbows and a straight spine: the push-up
    rule and the plank rule both hold. *)
Definition push_up_and_plank : features_t :=
  list_to_map
    [ ("right_knee_angle", 175%Q); ("left_knee_angle", 175%Q);
      ("right_hip_angle", 175%Q); ("left_hip_angle", 175%Q);
      ("right_elbow_angle", 90%Q); ("left_elbow_angle", 90%Q);
      ("foot_distance", 10%Q); ("spine_angle", 175%Q);
      ("shoulder_hip_distance", 50%Q); ("torso_lean", 200%Q) ].

(** Two feature vectors on which two of the four predicates hold at once;
    the label is the one that comes first in the priority order. *)
Lemma classification_rules_overlap :
  (averages squat_and_curl = Ok (180 # 2, 180 # 2, 180 # 2)%Q
   /\ squat_rule (180 # 2) (180 # 2) squat_and_curl = true
   /\ bicep_curl_rule (180 # 2) squat_and_curl = true
   /\ detect_exercise_type squat_and_curl = Ok "squat")
  /\ (averages push_up_and_plank = Ok (350 # 2, 350 # 2, 180 # 2)%Q
      /\ push_up_rule (180 # 2) push_up_and_plank = true
      /\ plank_rule push_up_and_plank = true
      /\ detect_exercise_type push_up_and_plank = Ok "push_up").
Proof. repeat split; vm_compute; reflexivity. Qed.

(** A standing frame with bent knees, hips and elbows and a short
    shoulder-hip distance: the squat rule and the push-up rule both hold. *)
Definition squat_and_push_up : features_t :=
  list_to_map
    [ ("right_knee_angle", 90%Q); ("left_knee_angle", 90%Q);
      ("right_hip_angle", 90%Q); ("left_hip_angle", 90%Q);
      ("right_elbow_angle", 90%Q); ("left_elbow_angle", 90%Q);
      ("foot_distance", 50%Q); ("spine_angle", 170%Q);
      ("shoulder_hip_distance", 50%Q); ("torso_lean", 0%Q) ].

(** The same with straight elbows and a straighter spine: the squat rule
    and the plank rule both hold. *)
Definition squat_and_plank : features_t :=
  list_to_map
    [ ("right_knee_angle", 90%Q); ("left_knee_angle", 90%Q);
      ("right_hip_angle", 90%Q); ("left_hip_angle", 90%Q);
      ("right_elbow_angle", 170%Q); ("left_elbow_angle", 170%Q);
      ("foot_distance", 50%Q); ("spine_angle", 175%Q);
      ("shoulder_hip_distance", 50%Q); ("torso_lean", 0%Q) ].

(** Some feature vector satisfies the rules of both labels, and is given
    the first of them. *)
Definition overlap (first second : string) : Prop :=
  exists features avg_knee avg_hip avg_elbow,
    averages features = Ok (avg_knee, avg_hip, avg_elbow)
    /\ rule_holds avg_knee avg_hip avg_elbow features first = true
    /\ rule_holds avg_knee avg_hip avg_elbow features second = true
    /\ detect_exercise_type features = Ok first.

(** C4 (as the code has it): of the four rules only bicep_curl is
    exclusive of push_up and of plank (through the shoulder-hip distance);
    the classifier returns the first label in the order squat, bicep_curl,
    push_up, plank whose predicate holds and "unknown" when none does; so a
    vector satisfying exactly one predicate receives that predicate's
    label.  Every other pair of rules overlaps: squat with bicep_curl, with
    push_up and with plank, and push_up with plank. *)
Theorem classifier_returns_first_matching_rule :
  (forall features avg_knee avg_hip avg_elbow,
     averages features = Ok (avg_knee, avg_hip, avg_elbow) ->
     bicep_curl_rule avg_elbow features && push_up_rule avg_elbow features
     = false
     /\ bicep_curl_rule avg_elbow features && plank_rule features = false
     /\ detect_exercise_type features
        = Ok (first_match avg_knee avg_hip avg_elbow features)
     /\ (forall label,
           In label rule_labels ->
           rule_holds avg_knee avg_hip avg_elbow features label = true ->
           (forall other,
              In other rule_labels -> other <> label ->
              rule_holds avg_knee avg_hip avg_elbow features other = false) ->
           detect_exercise_type features = Ok label))
  /\ overlap "squat" "bicep_curl"
  /\ overlap "squat" "push_up"
  /\ overlap "squat" "plank"
  /\ overlap "push_up" "plank".
Proof.
  split.
  { intros features avg_knee avg_hip avg_elbow Ha.
    assert (Hfirst : detect_exercise_type features
                     = Ok (first_match avg_knee avg_hip avg_elbow features)).
    { unfold detect_exercise_type, first_match. rewrite Ha. simpl.
      unfold rule_holds. simpl. repeat case_match; simplify_eq; reflexivity. }
    repeat split.
    - destruct (bicep_curl_rule avg_elbow features) eqn:Hb; [|reflexivity].
      unfold push_up_rule.
      rewrite (bicep_excludes_low_shoulder_hip avg_elbow features 80);
        [apply andb_false_r | discriminate | exact Hb].
    - destruct (bicep_curl_rule avg_elbow features) eqn:Hb; [|reflexivity].
      unfold plank_rule.
      rewrite (bicep_excludes_low_shoulder_hip avg_elbow features 60);
        [apply andb_false_r | discriminate | exact Hb].
    - exact Hfirst.
    - intros label Hin Hholds Hothers. rewrite Hfirst. f_equal.
      unfold first_match, rule_labels in *. simpl in Hin.
      assert (Hs := Hothers "squat"). assert (Hc := Hothers "bicep_curl").
      assert (Hp := Hothers "push_up"). assert (Hk := Hothers "plank").
      simpl in Hs, Hc, Hp, Hk.
      destruct Hin as [<-|[<-|[<-|[<-|[]]]]]; simpl; rewrite Hholds;
        rewrite ?Hs, ?Hc, ?Hp by (auto 6; discriminate); reflexivity. }
  split_and!.
  - exists squat_and_curl, (180 # 2)%Q, (180 # 2)%Q, (180 # 2)%Q.
    split_and!; vm_compute; reflexivity.
  - exists squat_and_push_up, (180 # 2)%Q, (180 # 2)%Q, (180 # 2)%Q.
    split_and!; vm_compute; reflexivity.
  - exists squat_and_plank, (180 # 2)%Q, (180 # 2)%Q, (340 # 2)%Q.
    split_and!; vm_compute; reflexivity.
  - exists push_up_and_plank, (350 # 2)%Q, (350 # 2)%Q, (180 # 2)%Q.
    split_and!; vm_compute; reflexivity.
Qed.

Lemma classifier_returns_first_matching_rule_witness :
  detect_exercise_type squat_and_curl
  = Ok (first_match (180 # 2) (180 # 2) (180 # 2) squat_and_curl).
Proof.
  exact (proj1 (proj2 (proj2
           (proj1 classifier_returns_first_matching_rule squat_and_curl
              (180 # 2) (180 # 2) (180 # 2) ltac:(vm_compute; reflexivity))))).
Defined.

End FeaturesFacts.

(** ** The batch repetition estimator *)

Module EstimatorFacts.
Import Num Dict Analyzer NumFacts.

(** The count the specification describes: the scores that lie below the
    threshold while the score before them (if any) does not, i.e. the
    entries into a below-threshold period. *)
Fixpoint dips (below : Z -> bool) (prev_below : bool) (scores : list Z) : Z :=
  match scores with
  | [] => 0
  | s :: rest =>
      (if below s && negb prev_below then 1 else 0) + dips below (below s) rest
  end.

(** The entries counted against the threshold the code computes. *)
Definition low_period_entries (form_scores : list Z) : Z :=
  dips (below_threshold (threshold form_scores)) false form_scores.

Lemma dips_nonneg below p scores : 0 <= dips below p scores.
Proof.
  revert p. induction scores as [|s rest IH]; intros p; simpl; [lia|].
  specialize (IH (below s)). destruct (below s && negb p); lia.
Qed.

Lemma at_or_above_not_below t s :
  at_or_above_threshold t s = negb (below_threshold t s).
Proof.
  unfold at_or_above_threshold, below_threshold.
  destruct (Qltb (inject_Z s) t) eqn:E; simpl.
  - apply Qltb_lt in E. apply Qleb_gt. exact E.
  - apply Qltb_ge in E. apply Qleb_le. exact E.
Qed.

(** The loop's counter is the number of entries, and its flag tells
    whether the last score seen was below the threshold. *)
Lemma rep_loop_dips t scores acc p :
  fst (fold_left (rep_step t) scores (acc, p))
  = acc + dips (below_threshold t) p scores.
Proof.
  revert acc p. induction scores as [|s rest IH]; intros acc p;
    cbn [fold_left dips]; [simpl; lia|].
  assert (Hstep : rep_step t (acc, p) s
                  = (acc + (if below_threshold t s && negb p then 1 else 0),
                     below_threshold t s)).
  { unfold rep_step. rewrite at_or_above_not_below.
    destruct (below_threshold t s), p; simpl; f_equal; lia. }
  rewrite Hstep, IH. lia.
Qed.

Lemma estimate_long scores :
  (10 <= length scores)%nat ->
  estimate_rep_count scores = Z.max 0 (low_period_entries scores - 1).
Proof.
  intros Hlen. unfold estimate_rep_count, low_period_entries.
  destruct (length scores <? 10)%nat eqn:E; [apply Nat.ltb_lt in E; lia|].
  pose proof (rep_loop_dips (threshold scores) scores 0 false) as H.
  cbv zeta. destruct (fold_left _ _ _) as [low flag]. simpl in H. rewrite H.
  reflexivity.
Qed.

Lemma estimate_short scores :
  (length scores < 10)%nat -> estimate_rep_count scores = 0.
Proof.
  intros Hlen. unfold estimate_rep_count.
  destruct (length scores <? 10)%nat eqn:E; [reflexivity|].
  apply Nat.ltb_ge in E. lia.
Qed.

Lemma dips_never_below below p scores :
  Forall (fun s => below s = false) scores -> dips below p scores = 0.
Proof.
  intros H. revert p. induction H as [|s rest Hs _ IH]; intros p; simpl;
    [reflexivity|]. rewrite Hs, IH. reflexivity.
Qed.

Lemma dips_always_below below scores :
  Forall (fun s => below s = true) scores -> dips below true scores = 0.
Proof.
  induction 1 as [|s rest Hs _ IH]; simpl; [reflexivity|].
  rewrite Hs, IH. reflexivity.
Qed.

(** Equal scores lie on one side of any threshold: a constant list enters
    a low period at most once. *)
Lemma dips_constant below p n c : dips below p (replicate n c) <= 1.
Proof.
  destruct (below c) eqn:Hc.
  - destruct n as [|n]; simpl; [lia|]. rewrite Hc.
    rewrite dips_always_below by (apply Forall_replicate; exact Hc).
    destruct p; simpl; lia.
  - rewrite dips_never_below by (apply Forall_replicate; exact Hc). lia.
Qed.

(** The splitting of [pairwise_sum] never runs out of fuel: any fuel from
    the length of the array on gives the same sum. *)
Lemma pairwise_sum_fuel fuel1 : forall fuel2 a,
  (length a <= fuel1)%nat -> (length a <= fuel2)%nat ->
  Numpy.pairwise_sum fuel1 a = Numpy.pairwise_sum fuel2 a.
Proof.
  induction fuel1 as [|fuel1 IH]; intros fuel2 a H1 H2.
  - destruct a; [|simpl in H1; lia]. destruct fuel2; reflexivity.
  - destruct fuel2 as [|fuel2].
    { destruct a; [reflexivity | simpl in H2; lia]. }
    cbn [Numpy.pairwise_sum].
    destruct (length a <? 8)%nat; [reflexivity|].
    destruct (length a <=? Numpy.PW_BLOCKSIZE)%nat eqn:E; [reflexivity|].
    apply Nat.leb_gt in E. unfold Numpy.PW_BLOCKSIZE in E.
    set (n2 := (Nat.div (length a) 2
                - Nat.modulo (Nat.div (length a) 2) 8)%nat).
    assert (Hn2 : (0 < n2 < length a)%nat).
    { pose proof (Nat.div_mod_eq (length a) 2) as Hdiv.
      pose proof (Nat.mod_upper_bound (length a) 2 ltac:(lia)) as Hr.
      pose proof (Nat.mod_upper_bound (Nat.div (length a) 2) 8 ltac:(lia))
        as Hm.
      pose proof (Nat.Div0.mod_le (Nat.div (length a) 2) 8) as Hle.
      unfold n2.
      generalize dependent (Nat.modulo (Nat.div (length a) 2) 8).
      generalize dependent (Nat.modulo (length a) 2).
      generalize dependent (Nat.div (length a) 2).
      intros; lia. }
    f_equal; apply IH; rewrite ?length_take, ?length_drop; lia.
Qed.

(** *** The threshold of the specification *)

(** The mean of the scores, exactly. *)
Definition exact_mean (form_scores : list Z) : Q :=
  (inject_Z (sum form_scores) / inject_Z (Z.of_nat (length form_scores)))%Q.

Definition Qsum (xs : list Q) : Q := fold_right Qplus 0%Q xs.

(** The square of their standard deviation, exactly. *)
Definition exact_variance (form_scores : list Z) : Q :=
  let m := exact_mean form_scores in
  (Qsum (map (fun x => (inject_Z x - m) * (inject_Z x - m)) form_scores)
   / inject_Z (Z.of_nat (length form_scores)))%Q.

(** [score < mean - stddev] on the exact values.  The standard deviation
    is a square root, so the comparison is decided on the squares: it
    holds exactly when [score < mean] and [variance < (mean - score)^2]. *)
Definition below_exact (form_scores : list Z) (score : Z) : bool :=
  let d := (exact_mean form_scores - inject_Z score)%Q in
  Qltb 0 d && Qltb (exact_variance form_scores) (d * d).

(** The entries counted against the exact threshold. *)
Definition exact_low_period_entries (form_scores : list Z) : Z :=
  dips (below_exact form_scores) false form_scores.

Lemma Qsum_squares_nonneg (f : Z -> Q) scores :
  (0 <= Qsum (map (fun x => f x * f x) scores))%Q.
Proof.
  induction scores as [|s rest IH]; simpl; [apply Qle_refl|].
  replace 0%Q with (0 + 0)%Q by reflexivity.
  apply Qplus_le_compat; [|exact IH].
  unfold Qle, Qmult. simpl. nia.
Qed.

Lemma exact_variance_nonneg scores : (0 <= exact_variance scores)%Q.
Proof.
  unfold exact_variance, Qdiv. apply Qmult_le_0_compat.
  - apply (Qsum_squares_nonneg (fun x => inject_Z x - exact_mean scores)%Q).
  - apply Qinv_le_0_compat. unfold Qle. simpl. lia.
Qed.

Lemma Q2R_inject_Z z : Q2R (inject_Z z) = IZR z.
Proof. unfold Q2R. simpl. field. Qed.

(** [below_exact] decides [score < mean - sqrt variance] on the reals. *)
Lemma below_exact_real scores s :
  below_exact scores s = true
  <-> (IZR s < Q2R (exact_mean scores)
               - sqrt (Q2R (exact_variance scores)))%R.
Proof.
  unfold below_exact.
  set (m := exact_mean scores). set (v := exact_variance scores).
  assert (Hv : (0 <= Q2R v)%R).
  { replace 0%R with (Q2R 0) by (unfold Q2R; simpl; field).
    apply Qle_Rle, exact_variance_nonneg. }
  assert (Hd : Q2R (m - inject_Z s) = (Q2R m - IZR s)%R)
    by (rewrite Q2R_minus, Q2R_inject_Z; reflexivity).
  assert (H0 : Q2R 0 = 0%R) by (unfold Q2R; simpl; field).
  rewrite andb_true_iff, !Qltb_lt. split.
  - intros [Hpos Hsq]. apply Qlt_Rlt in Hpos, Hsq.
    rewrite H0, Hd in Hpos. rewrite Q2R_mult, Hd in Hsq.
    assert (Hlt : (sqrt (Q2R v) < Q2R m - IZR s)%R).
    { rewrite <- (sqrt_square (Q2R m - IZR s)) by lra.
      apply sqrt_lt_1_alt. lra. }
    lra.
  - intros Hlt. pose proof (sqrt_pos (Q2R v)) as Hs.
    pose proof (sqrt_sqrt (Q2R v) Hv) as Hss.
    split; apply Rlt_Qlt.
    + rewrite H0, Hd. lra.
    + rewrite Q2R_mult, Hd. nra.
Qed.

(** *** Score lists *)

(** The two lists of the repository's test. *)
Definition good_scores : list Z := [85; 87; 89; 86; 88; 90; 87; 89; 88; 90].
Definition poor_scores : list Z := [30; 25; 35; 20; 40; 25; 30; 35; 20; 25].

(** Nine scores of 90 and one of 40: mean 85, standard deviation 15. *)
Definition single_dip_scores : list Z :=
  [90; 90; 90; 40; 90; 90; 90; 90; 90; 90].

(** Eighteen scores with mean 200/3 and standard deviation 20/3, so that
    mean minus standard deviation is 60 exactly: only the two scores of 50
    lie below it, and the two scores of 60 lie on it. *)
Definition scores_on_threshold : list Z :=
  [70; 70; 60; 70; 70; 70; 70; 50; 50; 70; 70; 70; 70; 60; 70; 70; 70; 70].

(** On [scores_on_threshold] the claim's count is one entry into a low
    period, hence no repetition, where the code returns 2: the threshold it
    computes is 60 + 2^-47, and the two scores of 60 lie below it. *)
Lemma computed_threshold_exceeds_exact :
  (10 <= length scores_on_threshold)%nat
  /\ (exact_mean scores_on_threshold == 200 # 3)%Q
  /\ (exact_variance scores_on_threshold == (20 # 3) * (20 # 3))%Q
  /\ map (below_exact scores_on_threshold) [50; 60; 70] = [true; false; false]
  /\ exact_low_period_entries scores_on_threshold = 1
  /\ Z.max 0 (exact_low_period_entries scores_on_threshold - 1) = 0
  /\ estimate_rep_count scores_on_threshold = 2.
Proof. split_and!; vm_compute; try reflexivity. lia. Qed.

(** The order of the additions shows in the last place.  On these
    eighteen scores (mean 80/3, standard deviation 50/3, exact threshold
    10) NumPy's pairwise summation of the squared deviations leads to the
    threshold 10 + 2^-48, and the eight scores of 10 count as low; adding
    the same squares in a straight loop would lead to 10 exactly. *)
Definition order_sensitive_scores : list Z :=
  [10; 50; 30; 50; 50; 10; 30; 10; 10; 30; 10; 30; 50; 10; 30; 10; 10; 50].

(** [np.mean - np.std] with every sum taken in a straight loop. *)
Definition straight_loop_threshold (a : list Z) : Q :=
  let n := Float64.of_int (Z.of_nat (length a)) in
  let mean := Float64.div (Numpy.sum_loop 0 (map Float64.of_int a)) n in
  let x := map (fun v => Float64.sub (Float64.of_int v) mean) a in
  let x := map (fun v => Float64.mul v v) x in
  Float64.sub mean (Float64.sqrt (Float64.div (Numpy.sum_loop 0 x) n)).

Lemma summation_order_shows :
  (threshold order_sensitive_scores == 10 + (1 # 2 ^ 48))%Q
  /\ (straight_loop_threshold order_sensitive_scores == 10)%Q
  /\ estimate_rep_count order_sensitive_scores = 5
  /\ Forall (fun scores =>
               (straight_loop_threshold scores == threshold scores)%Q)
            [single_dip_scores; good_scores; poor_scores;
             scores_on_threshold].
Proof.
  split_and!; [vm_compute; reflexivity ..|].
  repeat constructor; vm_compute; reflexivity.
Qed.

(** C2 (as the code has it): fewer than ten scores give 0; from ten scores
    on the estimate is the number of entries into a below-threshold
    period, less one, floored at 0, where the threshold is the binary64
    value that NumPy computes for mean minus standard deviation; a constant
    list gives 0, and so does a list with exactly one entry into a period
    below that threshold.  The computed threshold is the exact one rounded
    along the way: 70 on nine scores of 90 and one of 40, about 86.322 and
    22.156 on the two lists of the repository's test, and 60 + 2^-47 on
    [scores_on_threshold], where the exact value is 60: there a score of
    60, not below the exact threshold, is below the computed one. *)
Theorem estimate_rep_count_counts_low_periods :
  (forall scores, (length scores < 10)%nat -> estimate_rep_count scores = 0)
  /\ (forall scores,
        (10 <= length scores)%nat ->
        estimate_rep_count scores = Z.max 0 (low_period_entries scores - 1))
  /\ (forall n c, estimate_rep_count (replicate n c) = 0)
  /\ (forall scores,
        low_period_entries scores = 1 -> estimate_rep_count scores = 0)
  /\ (threshold single_dip_scores == 70)%Q
  /\ (threshold good_scores == 3037186303926231 # 2 ^ 45)%Q
  /\ (threshold poor_scores == 6236278302409005 # 2 ^ 48)%Q
  /\ (threshold scores_on_threshold == 60 + (1 # 2 ^ 47))%Q
  /\ below_exact scores_on_threshold 60 = false
  /\ below_threshold (threshold scores_on_threshold) 60 = true
  /\ estimate_rep_count good_scores = 1
  /\ estimate_rep_count poor_scores = 1.
Proof.
  split; [exact estimate_short|]. split; [exact estimate_long|].
  split; [|split].
  - intros n c. destruct (Nat.lt_ge_cases n 10) as [Hlt|Hge].
    + apply estimate_short. rewrite length_replicate. exact Hlt.
    + rewrite estimate_long by (rewrite length_replicate; exact Hge).
      unfold low_period_entries.
      pose proof (dips_constant
                    (below_threshold (threshold (replicate n c))) false n c).
      pose proof (dips_nonneg
                    (below_threshold (threshold (replicate n c))) false
                    (replicate n c)).
      lia.
  - intros scores H1.
    destruct (Nat.lt_ge_cases (length scores) 10) as [Hlt|Hge].
    + apply estimate_short, Hlt.
    + rewrite estimate_long, H1 by exact Hge. reflexivity.
  - split_and!; vm_compute; reflexivity.
Qed.

Lemma estimate_rep_count_counts_low_periods_witness :
  estimate_rep_count [90; 90; 90; 40; 90; 90; 90; 90; 90; 90] = 0.
Proof.
  exact (proj1 (proj2 (proj2 (proj2 estimate_rep_count_counts_low_periods)))
           [90; 90; 90; 40; 90; 90; 90; 90; 90; 90]
           ltac:(vm_compute; reflexivity)).
Defined.

(** Ten scores with a single dip, and twelve with three. *)
Example estimate_one_dip :
  estimate_rep_count [90; 90; 90; 40; 90; 90; 90; 90; 90; 90] = 0.
Proof. vm_compute. reflexivity. Qed.

Example estimate_three_dips :
  estimate_rep_count [90; 40; 90; 90; 40; 90; 90; 40; 90; 90; 90; 90] = 2.
Proof. vm_compute. reflexivity. Qed.

End EstimatorFacts.

(** ** The session aggregation *)

Module AnalyzerFacts.
Import Num Dict Features Analyzer NumFacts FeaturesFacts.

(** The frames the loop analyses: every [FRAME_SKIP]-th, counting from
    [frame_count]. *)
Fixpoint sampled_from (frame_count : Z) (frames : list frame_t)
  : list frame_t :=
  match frames with
  | [] => []
  | f :: rest =>
      if frame_count mod FRAME_SKIP =? 0
      then f :: sampled_from (frame_count + 1) rest
      else sampled_from (frame_count + 1) rest
  end.

(** A sampled frame is classifiable when the pose provider found
    landmarks on it. *)
Definition classifiable (f : frame_t) : bool :=
  match f with Some _ => true | None => false end.

(** The classifiable frames among those sampled from frame [frame_count]
    on. *)
Definition classifiable_from (frame_count : Z) (frames : list frame_t)
  : list frame_t :=
  List.filter classifiable (sampled_from frame_count frames).

Definition classifiable_frames (v : video) : list frame_t :=
  classifiable_from 0 (cap_frames v).

Lemma extract_has_angles a e h :
  has_angles (fst (extract_comprehensive_features a e h)).
Proof.
  unfold extract_comprehensive_features.
  destruct (calculate_temporal_features (angles_items a) h) as [tf h'].
  cbn [fst]. unfold has_angles, merge2.
  repeat (apply Forall_cons; split);
    [ apply lookup_union_is_Some; right; apply lookup_union_is_Some; right;
      vm_compute; eauto .. | apply Forall_nil; exact I ].
Qed.

Lemma incr_nonempty d k : Tally.incr d k <> [].
Proof. destruct d as [|[k' n] d]; simpl; [|case_match]; discriminate. Qed.

Lemma argmax_nonempty d : d <> [] -> exists kv, Tally.argmax d = Some kv.
Proof. destruct d; [done|]. simpl. eauto. Qed.

(** A frame with landmarks is always analysed: no [KeyError] escapes, it
    casts a vote and it is counted. *)
Lemma process_frame_ok frame_count a e st :
  exists st', process_frame frame_count a e st = (Ok st', angle_history st')
              /\ exercise_votes st' <> []
              /\ frames_analyzed (results st')
                 = frames_analyzed (results st) + 1.
Proof.
  unfold process_frame.
  pose proof (extract_has_angles a e (angle_history st)) as Hang.
  destruct (extract_comprehensive_features a e (angle_history st))
    as [features h]. cbn [fst] in Hang.
  destruct (detect_exercise_type_total features Hang) as [l Hl].
  destruct (proj1 (proj2 form_score_range_facts) l features Hang) as [r Hr].
  rewrite Hl. cbn [bind]. rewrite Hr. cbn [bind].
  eexists (LoopState _ _ _). split; [reflexivity|].
  cbn [exercise_votes]. split; [apply incr_nonempty | reflexivity].
Qed.

(** The loop always runs to the end; the votes it leaves are empty exactly
    when they were empty before and no sampled frame had landmarks, and
    [frames_analyzed] has grown by the number of classifiable frames. *)
Lemma frame_loop_ok frames : forall frame_count st,
  exists st',
    frame_loop frames frame_count st = (Ok st', angle_history st')
    /\ (exercise_votes st' = []
        <-> exercise_votes st = [] /\ classifiable_from frame_count frames = [])
    /\ frames_analyzed (results st')
       = frames_analyzed (results st)
         + Z.of_nat (length (classifiable_from frame_count frames)).
Proof.
  unfold classifiable_from.
  induction frames as [|f rest IH]; intros frame_count st.
  - exists st. split; [reflexivity|]. cbn [sampled_from List.filter length].
    split; [tauto | simpl; lia].
  - cbn [frame_loop sampled_from].
    destruct (frame_count mod FRAME_SKIP =? 0); cbn [negb].
    + destruct f as [[a e]|]; cbn [List.filter classifiable].
      * destruct (process_frame_ok frame_count a e st) as (st1 & Hp & Hne & Hn).
        rewrite Hp.
        destruct (IH (frame_count + 1) st1) as (st' & Hl & Hv & Hc).
        exists st'. split; [exact Hl|]. split.
        -- rewrite Hv. split; [intros [H _]; contradiction|].
           intros [_ H]. discriminate.
        -- rewrite Hc, Hn. cbn [length]. lia.
      * apply IH.
    + apply IH.
Qed.

(** C7: a run in which no sampled frame yields a pose returns the error
    record "No pose landmarks detected in video" (and a capture that cannot
    be opened, which has no frames at all, returns an error record too); a
    run with at least one classifiable frame returns a result record, which
    counts those frames in [frames_analyzed]. *)
Theorem empty_session_is_an_error :
  (forall h, fst (analyze_video None h) = Error "Could not open video file")
  /\ (forall v h,
        classifiable_frames v = [] ->
        fst (analyze_video (Some v) h)
        = Error "No pose landmarks detected in video")
  /\ (forall v h,
        classifiable_frames v <> [] ->
        exists r,
          fst (analyze_video (Some v) h) = Results r
          /\ frames_analyzed r
             = Z.of_nat (length (classifiable_frames v))
          /\ 0 < frames_analyzed r).
Proof.
  split; [reflexivity|].
  assert (Hrun : forall v h,
    exists st h',
      frame_loop (cap_frames v) 0
        (LoopState
           (AnalysisResults 0 "unknown" 0 [] [] [] 0 [] 0
              (if Qltb 0 (cap_fps v)
               then (inject_Z (cap_frame_count v) / cap_fps v)%Q else 0%Q)
              (cap_fps v)) [] h) = (Ok st, h')
      /\ (exercise_votes st = [] <-> classifiable_frames v = [])
      /\ frames_analyzed (results st)
         = Z.of_nat (length (classifiable_frames v))).
  { intros v h.
    destruct (frame_loop_ok (cap_frames v) 0
                (LoopState
                   (AnalysisResults 0 "unknown" 0 [] [] [] 0 [] 0
                      (if Qltb 0 (cap_fps v)
                       then (inject_Z (cap_frame_count v) / cap_fps v)%Q
                       else 0%Q)
                      (cap_fps v)) [] h)) as (st & Hl & Hv & Hc).
    exists st, (angle_history st). split; [exact Hl|].
    cbn [exercise_votes results frames_analyzed] in Hv, Hc.
    unfold classifiable_frames. split; [tauto | lia]. }
  split; intros v h Hcls; destruct (Hrun v h) as (st & h' & Hl & Hv & Hc);
    unfold analyze_video; rewrite Hl.
  - apply Hv in Hcls. rewrite Hcls. reflexivity.
  - assert (Hne : exercise_votes st <> []) by tauto.
    destruct (argmax_nonempty _ Hne) as [[l n] Hmax]. rewrite Hmax.
    eexists. split; [reflexivity|]. cbn [frames_analyzed finalize].
    split; [exact Hc|]. rewrite Hc.
    destruct (classifiable_frames v); [done | simpl; lia].
Qed.

(** *** Two runs in succession *)

(** Two calls of [analyze_video] on the same video, one after the other in
    a process whose angle history starts out as [angle_history]: the two
    responses. *)
Definition analyze_twice (v : option video) (angle_history : list features_t)
  : response * response :=
  let '(first, angle_history) := analyze_video v angle_history in
  let '(second, _) := analyze_video v angle_history in
  (first, second).

Definition scores_of (r : response) : option (list Z * Z) :=
  match r with
  | Results r => Some (form_scores r, overall_score r)
  | Error _ => None
  end.

(** A four-frame clip of a squat: frames 0 and 3 are sampled, the knees
    open from 90 to 100 degrees between them. *)
Definition squat_pose (knee : Q) : frame_t :=
  Some (Angles knee knee 90 90 170 170,
        Enhanced 170 0 0 0 50 0 150 (9 # 10) (9 # 10)).

Definition squat_clip : video :=
  Video 30 4 [squat_pose 90; None; None; squat_pose 100].

Lemma empty_session_is_an_error_witness :
  exists r,
    fst (analyze_video (Some squat_clip) []) = Results r
    /\ frames_analyzed r = Z.of_nat (length (classifiable_frames squat_clip))
    /\ 0 < frames_analyzed r.
Proof.
  exact (proj2 (proj2 empty_session_is_an_error) squat_clip []
           ltac:(vm_compute; discriminate)).
Defined.

(** A clip on which the pose provider never finds landmarks. *)
Example no_pose_clip_is_an_error :
  fst (analyze_video (Some (Video 30 4 [None; None; None; None])) [])
  = Error "No pose landmarks detected in video".
Proof. vm_compute. reflexivity. Qed.

(** Landmarks on skipped frames only are never looked at. *)
Example skipped_frames_are_not_analysed :
  fst (analyze_video
         (Some (Video 30 3 [None; squat_pose 90; squat_pose 100])) [])
  = Error "No pose landmarks detected in video".
Proof. vm_compute. reflexivity. Qed.

(** C8 (the code at the failing input): in a fresh process the first run
    scores the clip [100, 90], overall 95; the second run on the same clip
    scores it [90, 90], overall 90, because its first frame is compared
    with the last frame of the first run, left in the shared angle
    history. *)
Theorem second_run_sees_first_runs_history :
  scores_of (fst (analyze_twice (Some squat_clip) [])) = Some ([100; 90], 95)
  /\ scores_of (snd (analyze_twice (Some squat_clip) []))
     = Some ([90; 90], 90)
  /\ length (snd (analyze_video (Some squat_clip) [])) = 2%nat.
Proof. repeat split; vm_compute; reflexivity. Qed.

End AnalyzerFacts.

(** ** Joint geometry *)

Module GeometryFacts.
Import Geometry.

Local Open Scope R_scope.

(** Rounding to nearest stays between integer bounds. *)
Lemma rint_range (lo hi : Z) (x : R) :
  IZR lo <= x <= IZR hi -> (lo <= rint x <= hi)%Z.
Proof.
  intros [Hlo Hhi]. unfold rint.
  pose proof (Zfloor_bound x) as [Hf1 Hf2].
  assert (Hflo : (lo <= Zfloor x)%Z) by (apply Zfloor_lub; exact Hlo).
  assert (Hfhi : (Zfloor x <= hi)%Z).
  { rewrite <- (ZfloorZ hi). apply Zfloor_le. exact Hhi. }
  assert (Hup : 1 / 2 <= x - IZR (Zfloor x) -> (Zfloor x + 1 <= hi)%Z).
  { intros Hr. assert (Hlt : (Zfloor x < hi)%Z) by (apply lt_IZR; lra).
    lia. }
  destruct (Rlt_dec (x - IZR (Zfloor x)) (1 / 2)) as [Hr|Hr]; [lia|].
  destruct (Rlt_dec (1 / 2) (x - IZR (Zfloor x))) as [Hr'|Hr'].
  - assert (Hb := Hup ltac:(lra)). lia.
  - destruct (Z.even (Zfloor x)); [lia|].
    assert (Hb := Hup ltac:(lra)). lia.
Qed.

Lemma rint_IZR z : rint (IZR z) = z.
Proof.
  unfold rint. rewrite ZfloorZ.
  destruct (Rlt_dec (IZR z - IZR z) (1 / 2)) as [_|Hr]; [reflexivity|].
  exfalso. apply Hr. lra.
Qed.

Lemma round2_range x : 0 <= x <= 180 -> 0 <= round2 x <= 180.
Proof.
  intros Hx. unfold round2.
  destruct (rint_range 0 18000 (x * 100) ltac:(lra)) as [Hlo Hhi].
  apply IZR_le in Hlo, Hhi. lra.
Qed.

Lemma degrees_acos_range y : 0 <= degrees (acos y) <= 180.
Proof.
  unfold degrees. pose proof (acos_bound y) as [Hlo Hhi].
  pose proof PI_RGT_0 as Hpi.
  replace (acos y * 180 / PI) with (180 * (acos y / PI)) by (field; lra).
  assert (0 <= acos y / PI <= 1); [|lra].
  split.
  - apply Rmult_le_pos; [exact Hlo|]. left. apply Rinv_0_lt_compat, Hpi.
  - apply (Rmult_le_reg_r PI); [exact Hpi|].
    replace (acos y / PI * PI) with (acos y) by (field; lra). lra.
Qed.

Lemma calculate_angle_range a b c : 0 <= calculate_angle a b c <= 180.
Proof.
  unfold calculate_angle.
  destruct (Req_dec_T (norm (sub a b)) 0); [lra|].
  destruct (Req_dec_T (norm (sub c b)) 0); [lra|].
  apply round2_range, degrees_acos_range.
Qed.

Lemma calculate_angle_degenerate a b c :
  norm (sub a b) = 0 \/ norm (sub c b) = 0 -> calculate_angle a b c = 0.
Proof.
  intros H. unfold calculate_angle.
  destruct (Req_dec_T (norm (sub a b)) 0); [reflexivity|].
  destruct (Req_dec_T (norm (sub c b)) 0); [reflexivity|].
  tauto.
Qed.

Lemma norm_sub_self a : norm (sub a a) = 0.
Proof.
  unfold norm, sub, dot. simpl.
  replace ((fst a - fst a) * (fst a - fst a)
           + (snd a - snd a) * (snd a - snd a)) with 0 by ring.
  apply sqrt_0.
Qed.

(** The test vectors: the rays from [(1,0)] to [(0,0)] and to [(1,1)] are
    perpendicular. *)
Lemma calculate_angle_test_vectors :
  calculate_angle (0, 0) (1, 0) (1, 1) = 90.
Proof.
  unfold calculate_angle, norm, sub, dot. simpl.
  replace ((0 - 1) * (0 - 1) + (0 - 0) * (0 - 0)) with 1 by ring.
  replace ((1 - 1) * (1 - 1) + (1 - 0) * (1 - 0)) with 1 by ring.
  replace ((0 - 1) * (1 - 1) + (0 - 0) * (1 - 0)) with 0 by ring.
  rewrite sqrt_1.
  destruct (Req_dec_T 1 0) as [H|_]; [lra|].
  replace (0 / (1 * 1)) with 0 by field.
  assert (Hclip : clip 0 (-1) 1 = 0).
  { unfold clip. rewrite Rmax_left by lra. apply Rmin_left. lra. }
  rewrite Hclip, acos_0. unfold degrees, round2.
  replace (PI / 2 * 180 / PI * 100) with (IZR 9000)
    by (field; pose proof PI_RGT_0; lra).
  rewrite rint_IZR. lra.
Qed.

Lemma clip_id x : -1 <= x <= 1 -> clip x (-1) 1 = x.
Proof.
  intros [Hlo Hhi]. unfold clip. rewrite Rmax_left by lra.
  apply Rmin_left. lra.
Qed.

Lemma round2_IZR z : round2 (IZR z) = IZR z.
Proof.
  unfold round2. rewrite <- mult_IZR, rint_IZR, mult_IZR. field.
Qed.

Lemma degrees_PI : degrees PI = 180.
Proof. unfold degrees. field. pose proof PI_RGT_0. lra. Qed.

Lemma acos_m1 : acos (-1) = PI.
Proof.
  replace (-1) with (Ropp 1) by lra. rewrite acos_opp, acos_1. ring.
Qed.

(** The angle of two non-degenerate rays whose cosine is [k], for the three
    cosines with an exact arccosine. *)
Lemma angle_of_cosine a b c :
  norm (sub a b) <> 0 ->
  norm (sub c b) <> 0 ->
  (dot (sub a b) (sub c b) = norm (sub a b) * norm (sub c b) ->
   calculate_angle a b c = 0)
  /\ (dot (sub a b) (sub c b) = 0 -> calculate_angle a b c = 90)
  /\ (dot (sub a b) (sub c b) = - (norm (sub a b) * norm (sub c b)) ->
      calculate_angle a b c = 180).
Proof.
  intros Ha Hc. unfold calculate_angle.
  destruct (Req_dec_T (norm (sub a b)) 0); [contradiction|].
  destruct (Req_dec_T (norm (sub c b)) 0); [contradiction|].
  assert (Hprod : norm (sub a b) * norm (sub c b) <> 0)
    by (apply Rmult_integral_contrapositive; split; assumption).
  split_and!; intros ->.
  - replace (norm (sub a b) * norm (sub c b)
             / (norm (sub a b) * norm (sub c b))) with 1 by (field; tauto).
    rewrite clip_id by lra. rewrite acos_1. unfold degrees.
    replace (0 * 180 / PI) with (IZR 0)
      by (field; pose proof PI_RGT_0; lra).
    apply round2_IZR.
  - replace (0 / (norm (sub a b) * norm (sub c b))) with 0
      by (field; tauto).
    rewrite clip_id by lra. rewrite acos_0. unfold degrees.
    replace (PI / 2 * 180 / PI) with (IZR 90)
      by (field; pose proof PI_RGT_0; lra).
    apply round2_IZR.
  - replace (- (norm (sub a b) * norm (sub c b))
             / (norm (sub a b) * norm (sub c b))) with (-1)
      by (field; tauto).
    rewrite clip_id by lra. rewrite acos_m1, degrees_PI.
    apply (round2_IZR 180).
Qed.

(** C6: on the vectors of the repository's test, a = (0,0), b = (1,0),
    c = (1,1), the rays from [b] are perpendicular and [calculate_angle]
    returns 90, further than the test's one decimal place from the 45 that
    the claim and the test expect.  The other parts of the claim hold: the
    result lies in [0, 180]; it is the angle between the rays from [b] to
    [a] and from [b] to [c] (0 for rays in the same direction, 90 for
    perpendicular rays, 180 for opposite rays); and it is 0 whenever either
    ray has zero length, in particular when [a = b] or [c = b]. *)
Theorem calculate_angle_at_vertex :
  (sub (0, 0) (1, 0) = (-1, 0)
   /\ sub (1, 1) (1, 0) = (0, 1)
   /\ dot (sub (0, 0) (1, 0)) (sub (1, 1) (1, 0)) = 0
   /\ calculate_angle (0, 0) (1, 0) (1, 1) = 90
   /\ 5 / 100 < Rabs (calculate_angle (0, 0) (1, 0) (1, 1) - 45))
  /\ (forall a b c, 0 <= calculate_angle a b c <= 180)
  /\ (forall a b c,
        norm (sub a b) <> 0 ->
        norm (sub c b) <> 0 ->
        (dot (sub a b) (sub c b) = norm (sub a b) * norm (sub c b) ->
         calculate_angle a b c = 0)
        /\ (dot (sub a b) (sub c b) = 0 -> calculate_angle a b c = 90)
        /\ (dot (sub a b) (sub c b) = - (norm (sub a b) * norm (sub c b)) ->
            calculate_angle a b c = 180))
  /\ (forall a b c,
        norm (sub a b) = 0 \/ norm (sub c b) = 0 ->
        calculate_angle a b c = 0)
  /\ (forall b c, calculate_angle b b c = 0)
  /\ (forall a b, calculate_angle a b b = 0).
Proof.
  split.
  { rewrite calculate_angle_test_vectors. split_and!.
    - unfold sub. simpl. f_equal; ring.
    - unfold sub. simpl. f_equal; ring.
    - unfold dot, sub. simpl. ring.
    - reflexivity.
    - replace (90 - 45) with 45 by ring.
      rewrite Rabs_right by lra. lra. }
  split; [exact calculate_angle_range|].
  split; [exact angle_of_cosine|].
  split; [exact calculate_angle_degenerate|].
  split; intros; apply calculate_angle_degenerate;
    [left | right]; apply norm_sub_self.
Qed.

End GeometryFacts.

(** ** Tallies: counting and the arg-max *)

Module TallyFacts.

(** [d.get(k, 0)] on an insertion-ordered tally. *)
Fixpoint assoc (d : list (string * Z)) (k : string) : Z :=
  match d with
  | [] => 0
  | (k', n) :: rest => if String.eqb k' k then n else assoc rest k
  end.

(** How often [k] occurs in [xs]. *)
Fixpoint occurrences (xs : list string) (k : string) : Z :=
  match xs with
  | [] => 0
  | x :: rest => (if String.eqb x k then 1 else 0) + occurrences rest k
  end.

Definition keys (d : list (string * Z)) : list string := map fst d.

Lemma assoc_incr d k k' :
  assoc (Tally.incr d k) k'
  = assoc d k' + (if String.eqb k k' then 1 else 0).
Proof.
  induction d as [|[k0 n] rest IH]; simpl.
  - destruct (String.eqb k k'); lia.
  - destruct (String.eqb_spec k0 k) as [->|Hne]; simpl.
    + destruct (String.eqb k k'); lia.
    + destruct (String.eqb_spec k0 k') as [->|Hne'].
      * destruct (String.eqb_spec k k'); [congruence|lia].
      * exact IH.
Qed.

Lemma assoc_fold xs : forall d k,
  assoc (fold_left Tally.incr xs d) k = assoc d k + occurrences xs k.
Proof.
  induction xs as [|x rest IH]; intros d k; simpl; [lia|].
  rewrite IH, assoc_incr. lia.
Qed.

(** The tally of a list holds, for every label, its number of
    occurrences. *)
Lemma assoc_count_all xs k :
  assoc (Tally.count_all xs) k = occurrences xs k.
Proof. unfold Tally.count_all. rewrite assoc_fold. reflexivity. Qed.

Lemma occurrences_nonneg xs k : 0 <= occurrences xs k.
Proof.
  induction xs as [|x rest IH]; simpl; [lia|].
  destruct (String.eqb x k); lia.
Qed.

Lemma occurrences_le_length xs k : occurrences xs k <= Z.of_nat (length xs).
Proof.
  induction xs as [|x rest IH]; simpl length; simpl occurrences; [lia|].
  destruct (String.eqb x k); lia.
Qed.

Lemma occurrences_pos xs k : k ∈ xs <-> 0 < occurrences xs k.
Proof.
  induction xs as [|x rest IH]; simpl.
  - split; [intros H; inversion H | lia].
  - pose proof (occurrences_nonneg rest k).
    rewrite elem_of_cons. destruct (String.eqb_spec x k) as [->|Hne].
    + split; [lia | auto].
    + rewrite <- IH. split; [intros [?|?]; [congruence|assumption] | auto].
Qed.

Lemma occurrences_app xs ys k :
  occurrences (xs ++ ys) k = occurrences xs k + occurrences ys k.
Proof. induction xs as [|x rest IH]; simpl; [reflexivity|]. rewrite IH. lia. Qed.

(** A new key goes last; a known key keeps the key order. *)
Lemma keys_incr d k :
  keys (Tally.incr d k) = if bool_decide (k ∈ keys d) then keys d
                          else keys d ++ [k].
Proof.
  unfold keys. induction d as [|[k0 n] rest IH]; cbn [Tally.incr map fst].
  - rewrite bool_decide_eq_false_2 by (intros H; inversion H). reflexivity.
  - destruct (String.eqb_spec k0 k) as [->|Hne]; cbn [map fst].
    + rewrite bool_decide_eq_true_2 by apply list_elem_of_here. reflexivity.
    + rewrite IH.
      destruct (bool_decide (k ∈ map fst rest)) eqn:E.
      * apply bool_decide_eq_true_1 in E.
        rewrite bool_decide_eq_true_2 by (apply list_elem_of_further, E).
        reflexivity.
      * apply bool_decide_eq_false_1 in E.
        rewrite bool_decide_eq_false_2; [reflexivity|].
        rewrite elem_of_cons. intros [?|?]; [congruence|contradiction].
Qed.

Lemma keys_incr_nodup d k : NoDup (keys d) -> NoDup (keys (Tally.incr d k)).
Proof.
  intros H. rewrite keys_incr. case_bool_decide as Hin; [exact H|].
  apply NoDup_app. split; [exact H|]. split; [|apply NoDup_singleton].
  intros x Hx Hk. apply list_elem_of_singleton in Hk as ->. contradiction.
Qed.

Lemma keys_fold_nodup xs : forall d,
  NoDup (keys d) -> NoDup (keys (fold_left Tally.incr xs d)).
Proof.
  induction xs as [|x rest IH]; intros d H; simpl; [exact H|].
  apply IH, keys_incr_nodup, H.
Qed.

Lemma keys_count_all_nodup xs : NoDup (keys (Tally.count_all xs)).
Proof. apply keys_fold_nodup. constructor. Qed.

Lemma assoc_in d k n :
  NoDup (keys d) -> (k, n) ∈ d -> assoc d k = n.
Proof.
  induction d as [|[k0 n0] rest IH]; intros Hnd Hin; [inversion Hin|].
  simpl in *. apply NoDup_cons in Hnd as [Hk0 Hnd].
  apply elem_of_cons in Hin as [[= -> ->]|Hin].
  - rewrite String.eqb_refl. reflexivity.
  - destruct (String.eqb_spec k0 k) as [->|Hne]; [|auto].
    exfalso. apply Hk0. apply (list_elem_of_fmap_2 fst) in Hin. exact Hin.
Qed.

Lemma in_keys_assoc d k : k ∈ keys d -> (k, assoc d k) ∈ d.
Proof.
  induction d as [|[k0 n0] rest IH]; intros Hin; [inversion Hin|].
  simpl in *. destruct (String.eqb_spec k0 k) as [->|Hne];
    [apply list_elem_of_here|].
  apply list_elem_of_further, IH.
  apply elem_of_cons in Hin as [?|?]; [congruence|assumption].
Qed.

Lemma keys_fold_in xs : forall d k,
  k ∈ keys (fold_left Tally.incr xs d) <-> k ∈ keys d \/ k ∈ xs.
Proof.
  induction xs as [|x rest IH]; intros d k; simpl.
  - split; [auto | intros [?|H]; [assumption|inversion H]].
  - rewrite IH, keys_incr, elem_of_cons. case_bool_decide as Hin.
    + split; [tauto|]. intros [?|[->|?]]; auto.
    + rewrite elem_of_app, list_elem_of_singleton. tauto.
Qed.

Lemma keys_count_all_in xs k : k ∈ keys (Tally.count_all xs) <-> k ∈ xs.
Proof.
  unfold Tally.count_all. rewrite keys_fold_in. simpl.
  split; [intros [H|?]; [inversion H|assumption] | auto].
Qed.

Lemma keys_fold_prefix xs : forall d,
  exists suffix, keys (fold_left Tally.incr xs d) = keys d ++ suffix.
Proof.
  induction xs as [|x rest IH]; intros d; simpl.
  - exists []. rewrite app_nil_r. reflexivity.
  - destruct (IH (Tally.incr d x)) as [suffix Hs]. rewrite Hs, keys_incr.
    case_bool_decide; [eauto|]. exists (x :: suffix).
    rewrite <- app_assoc. reflexivity.
Qed.

Lemma total_incr d k : Tally.total (Tally.incr d k) = Tally.total d + 1.
Proof.
  unfold Tally.total. induction d as [|[k0 n] rest IH]; simpl; [lia|].
  destruct (String.eqb k0 k); simpl; lia.
Qed.

Lemma total_fold xs : forall d,
  Tally.total (fold_left Tally.incr xs d)
  = Tally.total d + Z.of_nat (length xs).
Proof.
  induction xs as [|x rest IH]; intros d; simpl length; simpl fold_left;
    [lia|]. rewrite IH, total_incr. lia.
Qed.

(** [sum(d.values())] of a tally is the number of items tallied. *)
Lemma total_count_all xs : Tally.total (Tally.count_all xs) = Z.of_nat (length xs).
Proof. unfold Tally.count_all. rewrite total_fold. reflexivity. Qed.

(** [max] returns the first item that no other item exceeds. *)
Lemma max_from_spec rest : forall best k n,
  Tally.max_from best rest = (k, n) ->
  exists l1 l2,
    best :: rest = l1 ++ (k, n) :: l2
    /\ (forall kv, kv ∈ l1 -> snd kv < n)
    /\ (forall kv, kv ∈ l2 -> snd kv <= n)
    /\ snd best <= n.
Proof.
  induction rest as [|kv rest IH]; intros best k n H; simpl in H.
  - subst best. exists [], []. simpl.
    split; [reflexivity|]. split; [intros ? Hin; inversion Hin|].
    split; [intros ? Hin; inversion Hin | lia].
  - destruct (snd best <? snd kv) eqn:E.
    + apply Z.ltb_lt in E.
      destruct (IH _ _ _ H) as (l1 & l2 & Heq & H1 & H2 & Hb).
      exists (best :: l1), l2. rewrite Heq. split; [reflexivity|].
      split; [|split; [exact H2 | lia]].
      intros x Hx. apply elem_of_cons in Hx as [->|Hx]; [lia | auto].
    + apply Z.ltb_ge in E.
      destruct (IH _ _ _ H) as (l1 & l2 & Heq & H1 & H2 & Hb).
      destruct l1 as [|b l1]; simpl in Heq; injection Heq as Hbest Hrest.
      * exists [], (kv :: l2). subst best rest. simpl in *.
        split; [reflexivity|]. split; [intros ? Hin; inversion Hin|].
        split; [|lia].
        intros x Hx. apply elem_of_cons in Hx as [->|Hx]; [lia | auto].
      * subst b rest. exists (best :: kv :: l1), l2.
        split; [reflexivity|]. split; [|split; [exact H2 | exact Hb]].
        assert (Hlt : snd best < n) by (apply H1, list_elem_of_here).
        intros x Hx. apply elem_of_cons in Hx as [->|Hx]; [lia|].
        apply elem_of_cons in Hx as [->|Hx]; [lia|].
        apply H1, list_elem_of_further, Hx.
Qed.

Lemma split_at_unique {A} (x : A) a a' b b' :
  x ∉ a -> x ∉ a' -> a ++ x :: b = a' ++ x :: b' -> a = a'.
Proof.
  revert a'. induction a as [|y a IH]; intros [|y' a'] Ha Ha' H;
    simpl in H.
  - reflexivity.
  - injection H as Hhd Htl. subst y'. exfalso. apply Ha', list_elem_of_here.
  - injection H as Hhd Htl. subst y. exfalso. apply Ha, list_elem_of_here.
  - injection H as Hhd Htl. subst y'. f_equal. apply (IH a'); [| |exact Htl].
    + intros Hin. apply Ha, list_elem_of_further, Hin.
    + intros Hin. apply Ha', list_elem_of_further, Hin.
Qed.

(** What [max(counts, key=counts.get)] finds in the tally of a non-empty
    list: a label of the list with the largest number of occurrences, and
    among those the one that occurs first. *)
Lemma argmax_count_all xs :
  xs <> [] ->
  exists m n pre post,
    Tally.argmax (Tally.count_all xs) = Some (m, n)
    /\ n = occurrences xs m
    /\ (forall l, occurrences xs l <= n)
    /\ xs = pre ++ m :: post
    /\ (m ∉ pre)
    /\ (forall l, l ∈ pre -> occurrences xs l < n).
Proof.
  intros Hne. set (d := Tally.count_all xs).
  assert (Hnd : NoDup (keys d)) by apply keys_count_all_nodup.
  destruct d as [|best rest] eqn:Hd.
  { exfalso. destruct xs as [|x xs]; [done|].
    assert (Hx : x ∈ keys d).
    { apply keys_count_all_in, list_elem_of_here. }
    subst d. rewrite Hd in Hx. inversion Hx. }
  simpl. destruct (Tally.max_from best rest) as [m n] eqn:Hmax.
  destruct (max_from_spec _ _ _ _ Hmax) as (l1 & l2 & Heq & H1 & H2 & _).
  assert (Hin : (m, n) ∈ best :: rest).
  { rewrite Heq. apply elem_of_app. right. apply list_elem_of_here. }
  assert (Hn : n = occurrences xs m).
  { rewrite <- assoc_count_all. fold d. rewrite Hd.
    symmetry. apply (assoc_in (best :: rest)); assumption. }
  assert (Hm : m ∈ xs).
  { apply keys_count_all_in. fold d. rewrite Hd.
    apply (list_elem_of_fmap_2 fst) in Hin. exact Hin. }
  assert (Hall : forall l, l ∈ keys (best :: rest) ->
                   occurrences xs l <= n
                   /\ (l ∈ keys l1 -> occurrences xs l < n)).
  { intros l Hl. apply in_keys_assoc in Hl.
    rewrite <- Hd in Hl at 1. unfold d in Hl at 1.
    rewrite assoc_count_all in Hl.
    split.
    - rewrite Heq in Hl. apply elem_of_app in Hl as [Hl|Hl].
      + specialize (H1 _ Hl). simpl in H1. lia.
      + apply elem_of_cons in Hl as [[= _ ->]|Hl]; [lia|].
        specialize (H2 _ Hl). simpl in H2. lia.
    - intros Hl1. apply list_elem_of_fmap in Hl1 as ([l' v] & -> & Hv).
      simpl in *. specialize (H1 _ Hv). simpl in H1.
      assert (Hv' : (l', v) ∈ best :: rest).
      { rewrite Heq. apply elem_of_app. left. exact Hv. }
      rewrite <- (assoc_in (best :: rest) _ _ Hnd Hl),
        (assoc_in (best :: rest) _ _ Hnd Hv'). exact H1. }
  apply list_elem_of_split_l in Hm as (pre & post & Hxs & Hpre).
  exists m, n, pre, post. split; [reflexivity|]. split; [exact Hn|].
  split; [|split; [exact Hxs|split; [exact Hpre|]]].
  - intros l. destruct (decide (l ∈ xs)) as [Hl|Hl].
    + apply Hall. rewrite <- Hd. apply keys_count_all_in, Hl.
    + assert (occurrences xs l <= 0).
      { destruct (Z_lt_le_dec 0 (occurrences xs l)) as [Hp|Hp]; [|exact Hp].
        apply occurrences_pos in Hp. contradiction. }
      pose proof (occurrences_nonneg xs m). lia.
  - intros l Hl.
    assert (Hkeys : keys (best :: rest) = keys l1 ++ m :: keys l2).
    { rewrite Heq. unfold keys. rewrite map_app. reflexivity. }
    destruct (keys_fold_prefix (m :: post) (Tally.count_all pre))
      as [suffix Hsuf].
    assert (Hd' : keys (best :: rest)
                  = keys (Tally.count_all pre) ++ suffix).
    { rewrite <- Hd. unfold d, Tally.count_all. rewrite Hxs, fold_left_app.
      exact Hsuf. }
    assert (Hmsuf : m ∈ suffix).
    { assert (Hmk : m ∈ keys (best :: rest)).
      { rewrite Hkeys. apply elem_of_app. right. apply list_elem_of_here. }
      rewrite Hd' in Hmk. apply elem_of_app in Hmk as [Hmk|Hmk]; [|exact Hmk].
      apply (proj1 (keys_count_all_in _ _)) in Hmk. contradiction. }
    apply list_elem_of_split_l in Hmsuf as (s1 & s2 & -> & Hs1).
    rewrite Hd' in Hnd, Hkeys.
    assert (Hl1 : keys (Tally.count_all pre) ++ s1 = keys l1).
    { apply (split_at_unique m _ _ s2 (keys l2)).
      - intros Hin'. apply elem_of_app in Hin' as [Hin'|Hin'];
          [apply (proj1 (keys_count_all_in _ _)) in Hin'|]; contradiction.
      - intros Hin'. rewrite Hkeys in Hnd.
        apply NoDup_app in Hnd as (_ & Hdis & _).
        apply (Hdis m Hin'), list_elem_of_here.
      - rewrite <- app_assoc. exact Hkeys. }
    apply Hall.
    + rewrite Hd'. apply elem_of_app. left. apply keys_count_all_in, Hl.
    + rewrite <- Hl1. apply elem_of_app. left. apply keys_count_all_in, Hl.
Qed.

End TallyFacts.

(** ** The live counters as one hysteresis machine *)

Module CoachExtra.
Import Num Dict Coach NumFacts CoachFacts.

(** The shape the three counters share: [opened] is the phase left when
    the angle drops below the low threshold, [closed] the phase left, with
    a counted repetition, when it rises above the high one. *)
Definition count_reps (opened closed praise : string) (angle : Q)
    (ex : string) (c : coach_t) : coach_t :=
  match rep_states c !! ex with
  | None => c
  | Some state =>
      if String.eqb (current_phase state) opened
         && Qltb angle (threshold_low state) then
        set_phase ex closed c
      else if String.eqb (current_phase state) closed
              && Qltb (threshold_high state) angle then
        let c := set_phase ex opened c in
        let c := with_rep_count (rep_count c + 1) c in
        say_coaching (praise +:+ pretty (rep_count c)) c
      else c
  end.

Lemma squat_count_reps :
  _count_reps_squat = count_reps "up" "down" "Great squat! Rep ".
Proof. reflexivity. Qed.

Lemma bicep_count_reps :
  _count_reps_bicep = count_reps "down" "up" "Nice curl! Rep ".
Proof. reflexivity. Qed.

Lemma pushup_count_reps :
  _count_reps_pushup = count_reps "up" "down" "Strong push-up! Rep ".
Proof. reflexivity. Qed.

(** One of the three counters. *)
Inductive counter (f : Q -> string -> coach_t -> coach_t) : Prop :=
| Counter opened closed praise :
    opened <> closed -> f = count_reps opened closed praise -> counter f.

Lemma counter_squat : counter _count_reps_squat.
Proof. eapply Counter; [|exact squat_count_reps]. discriminate. Qed.

Lemma counter_bicep : counter _count_reps_bicep.
Proof. eapply Counter; [|exact bicep_count_reps]. discriminate. Qed.

Lemma counter_pushup : counter _count_reps_pushup.
Proof. eapply Counter; [|exact pushup_count_reps]. discriminate. Qed.

Section Hysteresis.
Variables opened closed praise : string.
Hypothesis Hphases : opened <> closed.

Let step := count_reps opened closed praise.

Lemma rep_states_set_phase ex phase c state :
  rep_states c !! ex = Some state ->
  rep_states (set_phase ex phase c) !! ex
  = Some (RepState (threshold_low state) (threshold_high state) phase
                   (last_angle state)).
Proof. intros H. simpl. rewrite lookup_alter_eq, H. reflexivity. Qed.

(** An angle between the thresholds changes nothing. *)
Lemma dead_band angle ex c state :
  rep_states c !! ex = Some state ->
  (threshold_low state <= angle <= threshold_high state)%Q ->
  step angle ex c = c.
Proof.
  intros Hst [Hlo Hhi]. unfold step, count_reps. rewrite Hst.
  apply Qltb_ge in Hlo, Hhi. rewrite Hlo, Hhi, !andb_false_r. reflexivity.
Qed.

(** A step counts at most one repetition, and after a counted one the
    machine is in its [opened] phase. *)
Lemma step_counts angle ex c :
  rep_count (step angle ex c) = rep_count c
  \/ (rep_count (step angle ex c) = rep_count c + 1
      /\ phase_of ex (step angle ex c) = Some opened).
Proof.
  unfold step, count_reps. destruct (rep_states c !! ex) as [state|] eqn:Hst;
    [|left; reflexivity].
  destruct (_ && _); [left; reflexivity|].
  destruct (_ && _); [|left; reflexivity].
  right. rewrite rep_count_say. unfold phase_of. rewrite rep_states_say.
  split; [reflexivity|]. cbn [with_rep_count rep_states].
  rewrite (rep_states_set_phase _ _ _ _ Hst). reflexivity.
Qed.

(** In the [opened] phase a step counts nothing. *)
Lemma step_opened angle ex c :
  phase_of ex c = Some opened ->
  rep_count (step angle ex c) = rep_count c.
Proof.
  unfold phase_of, step, count_reps.
  destruct (rep_states c !! ex) as [state|]; [|reflexivity].
  simpl. intros [= ->]. destruct (_ && _); [reflexivity|].
  destruct (String.eqb_spec opened closed) as [Heq|_]; [contradiction|].
  reflexivity.
Qed.

Definition feed (angles : list Q) (ex : string) (c : coach_t) : coach_t :=
  fold_left (fun c angle => step angle ex c) angles c.

(** Over [n] angles at most every second one can complete a repetition:
    twice the number counted is at most [n + 1], and at most [n] when the
    machine starts in its [opened] phase. *)
Lemma feed_bound angles : forall ex c,
  rep_count c <= rep_count (feed angles ex c)
  /\ 2 * (rep_count (feed angles ex c) - rep_count c)
     <= Z.of_nat (length angles) + 1
  /\ (phase_of ex c = Some opened ->
      2 * (rep_count (feed angles ex c) - rep_count c)
      <= Z.of_nat (length angles)).
Proof.
  induction angles as [|a rest IH]; intros ex c.
  - simpl. split; [lia|]. split; [lia|]. intros _. lia.
  - cbn [feed fold_left length]. fold (feed rest ex (step a ex c)).
    destruct (IH ex (step a ex c)) as (Hmono & Hany & Hopen).
    rewrite Nat2Z.inj_succ.
    destruct (step_counts a ex c) as [Hsame|[Hinc Hph]].
    + split; [lia|]. split; [lia|]. intros _. lia.
    + specialize (Hopen Hph). split; [lia|]. split; [lia|].
      intros Hc. pose proof (step_opened a ex c Hc). lia.
Qed.

End Hysteresis.

(** The part of a counter state a step never touches. *)
Definition thresholds (state : rep_state) : Q * Q * option Q :=
  (threshold_low state, threshold_high state, last_angle state).

(** Everything but the count, the messages and the phase stored for [ex]
    is left alone by a counter step. *)
Lemma count_reps_frame opened closed praise angle ex c :
  let c' := count_reps opened closed praise angle ex c in
  coach c' = coach c
  /\ current_exercise c' = current_exercise c
  /\ exercise_confidence c' = exercise_confidence c
  /\ exercise_history c' = exercise_history c
  /\ (forall k, k <> ex -> rep_states c' !! k = rep_states c !! k)
  /\ (forall k, thresholds <$> rep_states c' !! k
                = thresholds <$> rep_states c !! k).
Proof.
  assert (Halter : forall phase k,
    thresholds <$> rep_states (set_phase ex phase c) !! k
    = thresholds <$> rep_states c !! k).
  { intros phase k. simpl. destruct (decide (ex = k)) as [->|Hne].
    - rewrite lookup_alter_eq. destruct (rep_states c !! k); reflexivity.
    - rewrite lookup_alter_ne by exact Hne. reflexivity. }
  assert (Hother : forall phase k,
    k <> ex ->
    rep_states (set_phase ex phase c) !! k = rep_states c !! k).
  { intros phase k Hk. simpl. apply lookup_alter_ne. congruence. }
  unfold count_reps. destruct (rep_states c !! ex) as [state|] eqn:Hst;
    [|cbn zeta; split_and!; reflexivity].
  destruct (_ && _).
  { cbn zeta. split_and!; try reflexivity; [apply Hother | apply Halter]. }
  destruct (_ && _); [|cbn zeta; split_and!; reflexivity].
  cbn zeta. unfold say_coaching.
  cbn [coach with_rep_count set_phase with_rep_states].
  destruct (coach c) eqn:Hc;
    (split_and!; try reflexivity; try (simpl; exact Hc);
     [apply (Hother opened) | apply (Halter opened)]).
Qed.

(** The messages a counter step hands to the coach: one praise carrying
    the new count for a counted repetition when a coach is attached, none
    otherwise. *)
Lemma count_reps_said opened closed praise angle ex c :
  let c' := count_reps opened closed praise angle ex c in
  said c' = if coach c && (rep_count c <? rep_count c')
            then said c ++ [praise +:+ pretty (rep_count c')]
            else said c.
Proof.
  unfold count_reps. destruct (rep_states c !! ex) as [state|];
    [|cbn zeta; rewrite Z.ltb_irrefl, andb_false_r; reflexivity].
  destruct (_ && _);
    [cbn zeta; simpl; rewrite Z.ltb_irrefl, andb_false_r; reflexivity|].
  destruct (_ && _);
    [|cbn zeta; rewrite Z.ltb_irrefl, andb_false_r; reflexivity].
  cbn zeta. unfold say_coaching.
  cbn [coach with_rep_count set_phase with_rep_states rep_count].
  destruct (coach c); cbn [said rep_count with_rep_count andb];
    [|reflexivity].
  replace (rep_count c <? rep_count c + 1) with true
    by (symmetry; apply Z.ltb_lt; lia).
  reflexivity.
Qed.

(** The angles a counter reads, its two phases and its praise, by
    exercise. *)
Definition counted_angles (exercise : string) : string * string :=
  if String.eqb exercise "squat"
  then ("right_knee_angle", "left_knee_angle")
  else ("right_elbow_angle", "left_elbow_angle").

Definition opened_of (exercise : string) : string :=
  if String.eqb exercise "bicep_curl" then "down" else "up".

Definition closed_of (exercise : string) : string :=
  if String.eqb exercise "bicep_curl" then "up" else "down".

Definition praise_of (exercise : string) : string :=
  if String.eqb exercise "squat" then "Great squat! Rep "
  else if String.eqb exercise "bicep_curl" then "Nice curl! Rep "
  else "Strong push-up! Rep ".

Lemma opened_closed exercise : opened_of exercise <> closed_of exercise.
Proof.
  unfold opened_of, closed_of.
  destruct (String.eqb exercise "bicep_curl"); discriminate.
Qed.

(** The average [update_rep_count] feeds the current exercise's counter. *)
Definition counted_average (features : gmap string Q) (c : coach_t)
  : result Q :=
  average_of features (fst (counted_angles (current_exercise c)))
             (snd (counted_angles (current_exercise c))).

(** [update_rep_count] is either the identity or one step of the current
    exercise's counter on that exercise's own state. *)
Lemma update_rep_count_cases features c :
  update_rep_count features c = c
  \/ exists angle,
       counted_average features c = Ok angle
       /\ update_rep_count features c
          = count_reps (opened_of (current_exercise c))
                       (closed_of (current_exercise c))
                       (praise_of (current_exercise c))
                       angle (current_exercise c) c.
Proof.
  unfold update_rep_count, counted_average, counted_angles, opened_of,
    closed_of, praise_of.
  destruct (negb _); [left; reflexivity|].
  destruct (String.eqb_spec (current_exercise c) "squat") as [Hs|Hs].
  { destruct (_ && _); [|left; reflexivity].
    destruct (average_of _ _ _) as [angle|] eqn:Ha; [|left; reflexivity].
    right. exists angle. split; [reflexivity|]. rewrite Hs. reflexivity. }
  destruct (String.eqb_spec (current_exercise c) "bicep_curl") as [Hb|Hb].
  { destruct (_ && _); [|left; reflexivity].
    destruct (average_of _ _ _) as [angle|] eqn:Ha; [|left; reflexivity].
    right. exists angle. split; [reflexivity|]. reflexivity. }
  destruct (String.eqb_spec (current_exercise c) "push_up") as [Hp|Hp];
    [|left; reflexivity].
  destruct (_ && _); [|left; reflexivity].
  destruct (average_of _ _ _) as [angle|] eqn:Ha; [|left; reflexivity].
  right. exists angle. split; [reflexivity|]. reflexivity.
Qed.

(** X1: an angle between the low and the high threshold (both included)
    changes nothing, in either phase and for each of the three counters. *)
Theorem counters_ignore_angles_between_thresholds angle ex c state :
  rep_states c !! ex = Some state ->
  (threshold_low state <= angle <= threshold_high state)%Q ->
  _count_reps_squat angle ex c = c
  /\ _count_reps_bicep angle ex c = c
  /\ _count_reps_pushup angle ex c = c.
Proof.
  intros Hst Hband. split_and!.
  - exact (dead_band "up" "down" "Great squat! Rep " _ _ _ _ Hst Hband).
  - exact (dead_band "down" "up" "Nice curl! Rep " _ _ _ _ Hst Hband).
  - exact (dead_band "up" "down" "Strong push-up! Rep " _ _ _ _ Hst Hband).
Qed.

Lemma counters_ignore_angles_between_thresholds_witness :
  _count_reps_squat 140 "squat" (init true) = init true
  /\ _count_reps_bicep 140 "squat" (init true) = init true
  /\ _count_reps_pushup 140 "squat" (init true) = init true.
Proof.
  apply (counters_ignore_angles_between_thresholds 140 "squat" (init true)
           (RepState 120 160 "up" None)).
  - vm_compute. reflexivity.
  - split; vm_compute; discriminate.
Defined.

(** A counter fed a list of angles, all for the state stored under [ex]. *)
Definition run_counter (f : Q -> string -> coach_t -> coach_t)
    (angles : list Q) (ex : string) (c : coach_t) : coach_t :=
  fold_left (fun c angle => f angle ex c) angles c.

(** Over any [n] angles a counter completes at most every second one. *)
Definition every_second (f : Q -> string -> coach_t -> coach_t) : Prop :=
  forall angles ex c,
    rep_count c <= rep_count (run_counter f angles ex c)
    /\ 2 * (rep_count (run_counter f angles ex c) - rep_count c)
       <= Z.of_nat (length angles) + 1.

(** X2: each counter counts at most one repetition per two angles fed,
    whatever the angles (a repetition needs a step below the low threshold
    and a later one above the high threshold); from the initial state the
    count after [n] angles is at most [n / 2]. *)
Theorem counters_count_at_most_every_second_angle :
  every_second _count_reps_squat
  /\ every_second _count_reps_bicep
  /\ every_second _count_reps_pushup
  /\ (forall coach angles,
        2 * rep_count (run_counter _count_reps_squat angles "squat"
                                   (init coach))
        <= Z.of_nat (length angles)
        /\ 2 * rep_count (run_counter _count_reps_bicep angles "bicep_curl"
                                      (init coach))
           <= Z.of_nat (length angles)
        /\ 2 * rep_count (run_counter _count_reps_pushup angles "push_up"
                                      (init coach))
           <= Z.of_nat (length angles)).
Proof.
  split_and!.
  - intros angles ex c.
    destruct (feed_bound "up" "down" "Great squat! Rep "
                ltac:(discriminate) angles ex c) as (H1 & H2 & _).
    split; [exact H1 | exact H2].
  - intros angles ex c.
    destruct (feed_bound "down" "up" "Nice curl! Rep "
                ltac:(discriminate) angles ex c) as (H1 & H2 & _).
    split; [exact H1 | exact H2].
  - intros angles ex c.
    destruct (feed_bound "up" "down" "Strong push-up! Rep "
                ltac:(discriminate) angles ex c) as (H1 & H2 & _).
    split; [exact H1 | exact H2].
  - intros coach angles. split_and!.
    + destruct (feed_bound "up" "down" "Great squat! Rep "
                  ltac:(discriminate) angles "squat" (init coach))
        as (_ & _ & H).
      specialize (H ltac:(reflexivity)).
      change (feed _ _ _ angles _ (init coach))
        with (run_counter _count_reps_squat angles "squat" (init coach)) in H.
      change (rep_count (init coach)) with 0 in H. lia.
    + destruct (feed_bound "down" "up" "Nice curl! Rep "
                  ltac:(discriminate) angles "bicep_curl" (init coach))
        as (_ & _ & H).
      specialize (H ltac:(reflexivity)).
      change (feed _ _ _ angles _ (init coach))
        with (run_counter _count_reps_bicep angles "bicep_curl" (init coach)) in H.
      change (rep_count (init coach)) with 0 in H. lia.
    + destruct (feed_bound "up" "down" "Strong push-up! Rep "
                  ltac:(discriminate) angles "push_up" (init coach))
        as (_ & _ & H).
      specialize (H ltac:(reflexivity)).
      change (feed _ _ _ angles _ (init coach))
        with (run_counter _count_reps_pushup angles "push_up" (init coach)) in H.
      change (rep_count (init coach)) with 0 in H. lia.
Qed.

(** X3: [update_rep_count] changes nothing but the count, the coach's
    messages and the phase of the current exercise's own state: the label,
    its confidence, the label window, the states of the other exercises and
    every threshold stay as they were. *)
Theorem update_rep_count_touches_only_current_phase features c :
  coach (update_rep_count features c) = coach c
  /\ current_exercise (update_rep_count features c) = current_exercise c
  /\ exercise_confidence (update_rep_count features c)
     = exercise_confidence c
  /\ exercise_history (update_rep_count features c) = exercise_history c
  /\ (forall k,
        k <> current_exercise c ->
        rep_states (update_rep_count features c) !! k = rep_states c !! k)
  /\ (forall k,
        thresholds <$> rep_states (update_rep_count features c) !! k
        = thresholds <$> rep_states c !! k).
Proof.
  destruct (update_rep_count_cases features c) as [->|(angle & _ & ->)].
  - split_and!; reflexivity.
  - apply count_reps_frame.
Qed.

(** X4: the coach is told about counted repetitions and nothing else: an
    update that counts a repetition with a coach attached appends one
    message, the exercise's praise followed by the new count; any other
    update appends none. *)
Theorem update_rep_count_praises_counted_reps features c :
  said (update_rep_count features c)
  = if coach c && (rep_count c <? rep_count (update_rep_count features c))
    then said c ++ [praise_of (current_exercise c)
                    +:+ pretty (rep_count (update_rep_count features c))]
    else said c.
Proof.
  destruct (update_rep_count_cases features c) as [->|(angle & _ & ->)].
  - rewrite Z.ltb_irrefl, andb_false_r. reflexivity.
  - apply count_reps_said.
Qed.

(** X5: a feature vector that lacks one of the two angles the current
    exercise's counter reads (knees for squat, elbows otherwise) leaves the
    whole state unchanged. *)
Theorem update_rep_count_missing_angle_noop features c :
  features !! fst (counted_angles (current_exercise c)) = None
  \/ features !! snd (counted_angles (current_exercise c)) = None ->
  update_rep_count features c = c.
Proof.
  intros Hmiss.
  destruct (update_rep_count_cases features c) as [H|(angle & Ha & _)];
    [exact H|].
  exfalso. unfold counted_average, average_of, getitem, bind in Ha.
  destruct Hmiss as [Hm|Hm]; rewrite Hm in Ha.
  - discriminate.
  - destruct (features !! fst (counted_angles (current_exercise c)));
      discriminate.
Qed.

Lemma update_rep_count_missing_angle_noop_witness :
  update_rep_count {["right_knee_angle" := 170%Q]}
                   (with_exercise "squat" 1 (init true))
  = with_exercise "squat" 1 (init true).
Proof.
  apply update_rep_count_missing_angle_noop. right. vm_compute. reflexivity.
Defined.

(** *** Resetting a session *)

(** What the live loop does to the state. *)
Inductive live_event : Type :=
| Detect (detected_exercise : option string)
| Update (features : gmap string Q)
| Reset.

Definition apply_event (c : coach_t) (e : live_event) : coach_t :=
  match e with
  | Detect d => fst (smooth_exercise_detection d c)
  | Update features => update_rep_count features c
  | Reset => reset_session c
  end.

Lemma init_lookup coach k :
  rep_states (init coach) !! k
  = if String.eqb k "squat" then Some (RepState 120 160 "up" None)
    else if String.eqb k "bicep_curl" then Some (RepState 90 150 "down" None)
    else if String.eqb k "push_up" then Some (RepState 110 160 "up" None)
    else None.
Proof.
  unfold init. cbn [rep_states]. rewrite !lookup_insert.
  destruct (String.eqb_spec k "squat") as [->|H1];
    [rewrite decide_True by reflexivity; reflexivity|].
  rewrite decide_False by congruence.
  destruct (String.eqb_spec k "bicep_curl") as [->|H2];
    [rewrite decide_True by reflexivity; reflexivity|].
  rewrite decide_False by congruence.
  destruct (String.eqb_spec k "push_up") as [->|H3];
    [rewrite decide_True by reflexivity; reflexivity|].
  rewrite decide_False by congruence. apply lookup_empty.
Qed.

(** The keys and thresholds of [rep_states] are those set up by
    [__init__]. *)
Definition initial_thresholds (coach0 : bool) (c : coach_t) : Prop :=
  coach c = coach0
  /\ forall k, thresholds <$> rep_states c !! k
              = thresholds <$> rep_states (init coach0) !! k.

Lemma smooth_keeps_counters d c :
  coach (fst (smooth_exercise_detection d c)) = coach c
  /\ rep_states (fst (smooth_exercise_detection d c)) = rep_states c
  /\ rep_count (fst (smooth_exercise_detection d c)) = rep_count c
  /\ said (fst (smooth_exercise_detection d c)) = said c.
Proof.
  unfold smooth_exercise_detection. cbn [fst].
  repeat case_match; split_and!; reflexivity.
Qed.

(** The fields of a reset state. *)
Lemma reset_session_fields c :
  coach (reset_session c) = coach c
  /\ rep_states (reset_session c)
     = map_imap
         (fun exercise state =>
            Some (RepState (threshold_low state) (threshold_high state)
                    (if String.eqb exercise "squat"
                        || String.eqb exercise "push_up"
                     then "up" else "down")
                    None))
         (rep_states c)
  /\ said (reset_session c)
     = (if coach c
        then said c ++ ["New session started! Let's make it count!"]
        else said c)
  /\ current_exercise (reset_session c) = "unknown"
  /\ exercise_confidence (reset_session c) = 0%Q
  /\ exercise_history (reset_session c) = []
  /\ rep_count (reset_session c) = 0.
Proof.
  unfold reset_session, coach_reset_session. cbn [coach].
  destruct (coach c) eqn:Hc; cbn; rewrite ?Hc; split_and!; reflexivity.
Qed.

Lemma reset_rep_states coach0 c :
  initial_thresholds coach0 c ->
  rep_states (reset_session c) = rep_states (init coach0).
Proof.
  intros [_ Hth]. apply map_eq. intros k. specialize (Hth k).
  rewrite (proj1 (proj2 (reset_session_fields c))), map_lookup_imap.
  rewrite init_lookup in *.
  assert (Hcase : k = "squat" \/ k = "bicep_curl" \/ k = "push_up"
                  \/ (String.eqb k "squat" = false
                      /\ String.eqb k "bicep_curl" = false
                      /\ String.eqb k "push_up" = false)).
  { destruct (String.eqb k "squat") eqn:E1;
      [apply String.eqb_eq in E1; auto|].
    destruct (String.eqb k "bicep_curl") eqn:E2;
      [apply String.eqb_eq in E2; auto|].
    destruct (String.eqb k "push_up") eqn:E3;
      [apply String.eqb_eq in E3; auto|].
    right. right. right. auto. }
  destruct Hcase as [->|[->|[->|(E1 & E2 & E3)]]];
    [| | | rewrite E1, E2, E3 in *];
    simpl in *; destruct (rep_states c !! _) as [[lo hi ph la]|];
    simpl in *; try discriminate; try reflexivity;
    injection Hth as -> -> ->; reflexivity.
Qed.

Lemma apply_event_thresholds coach0 c e :
  initial_thresholds coach0 c -> initial_thresholds coach0 (apply_event c e).
Proof.
  intros [Hc Hth]. destruct e as [d|features|]; cbn [apply_event].
  - destruct (smooth_keeps_counters d c) as (H1 & H2 & _).
    split; [congruence|]. intros k. rewrite H2. apply Hth.
  - destruct (update_rep_count_cases features c) as [->|(angle & _ & ->)];
      [split; assumption|].
    destruct (count_reps_frame
                (opened_of (current_exercise c))
                (closed_of (current_exercise c))
                (praise_of (current_exercise c)) angle (current_exercise c) c)
      as (H1 & _ & _ & _ & _ & H6).
    split; [congruence|]. intros k. rewrite H6. apply Hth.
  - split; [rewrite (proj1 (reset_session_fields c)); exact Hc|]. intros k.
    rewrite (reset_rep_states coach0 c (conj Hc Hth)). reflexivity.
Qed.

Lemma events_thresholds coach0 events : forall c,
  initial_thresholds coach0 c ->
  initial_thresholds coach0 (fold_left apply_event events c).
Proof.
  induction events as [|e rest IH]; intros c H; [exact H|].
  simpl. apply IH, apply_event_thresholds, H.
Qed.

(** X6: after any sequence of detections, updates and resets of a live
    session, [reset_session] restores the state [__init__] set up (label
    "unknown", confidence 0, empty window, count 0, every exercise in its
    initial phase); of the session only the messages already handed to the
    coach remain, and with a coach attached the reset itself hands it one
    more, the greeting of [SmartCoach.reset_session]. *)
Theorem reset_session_restores_initial_state coach0 events :
  reset_session (fold_left apply_event events (init coach0))
  = CoachState coach0
               (if coach0
                then said (fold_left apply_event events (init coach0))
                     ++ ["New session started! Let's make it count!"]
                else said (fold_left apply_event events (init coach0)))
               (current_exercise (init coach0))
               (exercise_confidence (init coach0))
               (exercise_history (init coach0))
               (rep_count (init coach0))
               (rep_states (init coach0)).
Proof.
  assert (Hinv : initial_thresholds coach0
                   (fold_left apply_event events (init coach0))).
  { apply events_thresholds. split; reflexivity. }
  pose proof (reset_rep_states coach0 _ Hinv) as Hrs.
  destruct Hinv as [Hc _].
  set (c := fold_left apply_event events (init coach0)) in *. clearbody c.
  destruct (reset_session_fields c) as (H1 & _ & H3 & H4 & H5 & H6 & H7).
  rewrite Hc in H1, H3.
  destruct (reset_session c) as [co sa ex conf hist n rs].
  cbn [coach said current_exercise exercise_confidence exercise_history
       rep_count rep_states] in *.
  subst. reflexivity.
Qed.

End CoachExtra.

(** ** Smoothing: what gets published, and when *)

Module SmoothingExtra.
Import Num Dict Coach NumFacts TallyFacts.

(** The label a detection stands for: no detection counts as "unknown". *)
Definition label_of (detected_exercise : option string) : string :=
  match detected_exercise with Some ex => ex | None => "unknown" end.

(** The window after a detection has been appended. *)
Definition window (d : option string) (c : coach_t) : list string :=
  Deque.append 10 (exercise_history c) (label_of d).

Lemma deque_append_length {A} maxlen (dq : list A) x :
  length (Deque.append maxlen dq x) = Nat.min (length dq + 1) maxlen.
Proof.
  unfold Deque.append. rewrite length_drop, length_app. simpl. lia.
Qed.

Lemma deque_append_elem {A} maxlen (dq : list A) x y :
  y ∈ Deque.append maxlen dq x -> y ∈ dq \/ y = x.
Proof.
  unfold Deque.append. intros H.
  apply list_elem_of_lookup in H as [i H]. rewrite lookup_drop in H.
  apply list_elem_of_lookup_2 in H. apply elem_of_app in H as [H|H]; [auto|].
  apply list_elem_of_singleton in H. auto.
Qed.

Lemma smooth_history d c :
  exercise_history (fst (smooth_exercise_detection d c)) = window d c.
Proof.
  unfold smooth_exercise_detection, window, label_of. cbn [fst].
  repeat case_match; reflexivity.
Qed.

(** With fewer than five labels in the window nothing is published. *)
Lemma smooth_short_window d c :
  (length (window d c) < 5)%nat ->
  current_exercise (fst (smooth_exercise_detection d c)) = current_exercise c
  /\ exercise_confidence (fst (smooth_exercise_detection d c))
     = exercise_confidence c.
Proof.
  unfold smooth_exercise_detection, window, label_of. cbn [fst]. intros H.
  cbn [with_history exercise_history].
  destruct (5 <=? _)%nat eqn:E; [apply Nat.leb_le in E; destruct d; lia|].
  split; reflexivity.
Qed.

(** The share of the window a label with [n] occurrences holds. *)
Definition share (n : Z) (history : list string) : Q :=
  (inject_Z n / inject_Z (Z.of_nat (length history)))%Q.

Lemma share_threshold n history :
  history <> [] ->
  Qleb (6 # 10) (share n history)
  = (6 * Z.of_nat (length history) <=? 10 * n).
Proof.
  intros Hne. unfold share.
  destruct (Z.of_nat (length history)) as [|p|p] eqn:E;
    [destruct history; [done|discriminate] | | lia].
  destruct (6 * Z.pos p <=? 10 * n) eqn:Hle.
  - apply Z.leb_le in Hle. apply Qleb_le.
    unfold Qle, Qdiv, Qmult, Qinv. simpl. lia.
  - apply Z.leb_gt in Hle. apply Qleb_gt.
    unfold Qlt, Qdiv, Qmult, Qinv. simpl. lia.
Qed.

Lemma share_bounds n history :
  history <> [] ->
  0 <= n <= Z.of_nat (length history) ->
  (0 <= share n history <= 1)%Q.
Proof.
  intros Hne Hn. unfold share.
  destruct (Z.of_nat (length history)) as [|p|p] eqn:E;
    [destruct history; [done|discriminate] | | lia].
  split; unfold Qle, Qdiv, Qmult, Qinv; simpl; lia.
Qed.

(** With five or more labels in the window, the most frequent label of the
    window (the earliest one among equally frequent labels) is published,
    with its share of the window as confidence, exactly when it holds at
    least 60% of the window. *)
Lemma smooth_long_window d c :
  (5 <= length (window d c))%nat ->
  exists m pre post,
    window d c = pre ++ m :: post
    /\ (m ∉ pre)
    /\ (forall l, occurrences (window d c) l <= occurrences (window d c) m)
    /\ (forall l, l ∈ pre ->
                  occurrences (window d c) l < occurrences (window d c) m)
    /\ (if 6 * Z.of_nat (length (window d c))
           <=? 10 * occurrences (window d c) m
        then current_exercise (fst (smooth_exercise_detection d c)) = m
             /\ exercise_confidence (fst (smooth_exercise_detection d c))
                = share (occurrences (window d c) m) (window d c)
        else current_exercise (fst (smooth_exercise_detection d c))
             = current_exercise c
             /\ exercise_confidence (fst (smooth_exercise_detection d c))
                = exercise_confidence c).
Proof.
  intros Hlen.
  assert (Hne : window d c <> []) by (destruct (window d c); [simpl in Hlen; lia|done]).
  destruct (argmax_count_all (window d c) Hne)
    as (m & n & pre & post & Hmax & Hn & Hall & Hsplit & Hpre & Hbefore).
  exists m, pre, post. subst n.
  split; [exact Hsplit|]. split; [exact Hpre|]. split; [exact Hall|].
  split; [exact Hbefore|].
  rewrite <- (share_threshold _ _ Hne).
  unfold smooth_exercise_detection. cbn [fst].
  fold (label_of d). fold (window d c).
  cbn [with_history exercise_history].
  destruct (5 <=? length (window d c))%nat eqn:E;
    [|apply Nat.leb_gt in E; lia].
  unfold majority. rewrite Hmax. fold (share (occurrences (window d c) m) (window d c)).
  destruct (Qleb _ _); split; reflexivity.
Qed.

(** X7: what one call of [smooth_exercise_detection] does, for any state
    and any detection ([None] counting as "unknown"): the detection enters
    the window of at most ten labels; with fewer than five labels in the
    window the published label and confidence stay; from five on, the most
    frequent label of the window, the earliest in the window among equally
    frequent ones, is published with its share of the window as confidence
    exactly when that share is at least 60%, and otherwise the published
    label and confidence stay. *)
Theorem smoothing_publishes_most_frequent_label d c :
  exercise_history (fst (smooth_exercise_detection d c)) = window d c
  /\ length (window d c) = Nat.min (length (exercise_history c) + 1) 10
  /\ ((length (window d c) < 5)%nat ->
      current_exercise (fst (smooth_exercise_detection d c))
      = current_exercise c
      /\ exercise_confidence (fst (smooth_exercise_detection d c))
         = exercise_confidence c)
  /\ ((5 <= length (window d c))%nat ->
      exists m pre post,
        window d c = pre ++ m :: post
        /\ (m ∉ pre)
        /\ (forall l,
              occurrences (window d c) l <= occurrences (window d c) m)
        /\ (forall l, l ∈ pre ->
              occurrences (window d c) l < occurrences (window d c) m)
        /\ (if 6 * Z.of_nat (length (window d c))
               <=? 10 * occurrences (window d c) m
            then current_exercise (fst (smooth_exercise_detection d c)) = m
                 /\ exercise_confidence (fst (smooth_exercise_detection d c))
                    = share (occurrences (window d c) m) (window d c)
            else current_exercise (fst (smooth_exercise_detection d c))
                 = current_exercise c
                 /\ exercise_confidence
                      (fst (smooth_exercise_detection d c))
                    = exercise_confidence c)).
Proof.
  split; [apply smooth_history|].
  split; [apply deque_append_length|].
  split; [apply smooth_short_window | apply smooth_long_window].
Qed.

(** What holds of a smoothing state after [n] detections whose labels are
    [seen]. *)
Definition smoothed (n : nat) (seen : list string) (c : coach_t) : Prop :=
  length (exercise_history c) = Nat.min n 10
  /\ ((current_exercise c = "unknown" /\ exercise_confidence c = 0%Q)
      \/ ((6 # 10 <= exercise_confidence c <= 1)%Q
          /\ current_exercise c ∈ seen))
  /\ (forall l, l ∈ exercise_history c -> l ∈ seen).

Lemma smoothed_step n seen c d :
  smoothed n seen c ->
  smoothed (S n) (seen ++ [label_of d]) (fst (smooth_exercise_detection d c)).
Proof.
  intros (Hlen & Hpub & Hhist).
  assert (Hwin : forall l, l ∈ window d c -> l ∈ seen ++ [label_of d]).
  { intros l Hl. apply deque_append_elem in Hl as [Hl| ->]; apply elem_of_app;
      [left; auto | right; apply list_elem_of_here]. }
  assert (Hkeep : (current_exercise c = "unknown"
                   /\ exercise_confidence c = 0%Q)
                  \/ ((6 # 10 <= exercise_confidence c <= 1)%Q
                      /\ current_exercise c ∈ seen ++ [label_of d])).
  { destruct Hpub as [?|[? ?]]; [left; assumption|].
    right. split; [assumption|]. apply elem_of_app. left. assumption. }
  split; [|split].
  - rewrite smooth_history. unfold window. rewrite deque_append_length. lia.
  - destruct (Nat.lt_ge_cases (length (window d c)) 5) as [Hshort|Hlong].
    + destruct (smooth_short_window d c Hshort) as [-> ->]. exact Hkeep.
    + destruct (smooth_long_window d c Hlong)
        as (m & pre & post & Hsplit & _ & _ & _ & Hif).
      assert (Hne : window d c <> [])
        by (destruct (window d c); [simpl in Hlong; lia|done]).
      destruct (6 * Z.of_nat (length (window d c))
                <=? 10 * occurrences (window d c) m) eqn:E.
      * destruct Hif as [-> ->]. right. split.
        -- split.
           ++ apply Qleb_le. rewrite share_threshold by exact Hne. exact E.
           ++ apply share_bounds; [exact Hne|].
              split; [apply occurrences_nonneg|apply occurrences_le_length].
        -- apply Hwin. rewrite Hsplit. apply elem_of_app. right.
           apply list_elem_of_here.
      * destruct Hif as [-> ->]. exact Hkeep.
  - rewrite smooth_history. exact Hwin.
Qed.

Lemma smoothed_fold ds : forall n seen c,
  smoothed n seen c ->
  smoothed (n + length ds) (seen ++ map label_of ds)
           (fold_left (fun c d => fst (smooth_exercise_detection d c)) ds c).
Proof.
  induction ds as [|d rest IH]; intros n seen c H; simpl.
  - rewrite Nat.add_0_r, app_nil_r. exact H.
  - replace (n + S (length rest))%nat with (S n + length rest)%nat by lia.
    replace (seen ++ label_of d :: map label_of rest)
      with ((seen ++ [label_of d]) ++ map label_of rest)
      by (rewrite <- app_assoc; reflexivity).
    apply IH, smoothed_step, H.
Qed.

(** X8: after any sequence of detections fed to a fresh coach, the window
    holds the last ten labels at most ([min n 10] of them), every label in
    it was fed, and either nothing has been published yet (label "unknown",
    confidence 0) or the published label is one of the labels fed and its
    confidence lies between 0.6 and 1. *)
Theorem smoothing_keeps_confidence_and_window_bounded coach ds :
  smoothed (length ds) (map label_of ds)
    (fold_left (fun c d => fst (smooth_exercise_detection d c)) ds
               (init coach)).
Proof.
  apply (smoothed_fold ds 0 [] (init coach)).
  split; [reflexivity|]. split; [left; split; reflexivity|].
  intros l Hl. inversion Hl.
Qed.

End SmoothingExtra.

(** ** More on the classifier and the scorer *)

Module FeaturesExtra.
Import Num Dict Features NumFacts FeaturesFacts.

(** The angle names in the order [detect_exercise_type] reads them. *)
Definition angle_names : list string :=
  ["right_knee_angle"; "left_knee_angle"; "right_hip_angle";
   "left_hip_angle"; "right_elbow_angle"; "left_elbow_angle"].

Definition exercise_labels : list string :=
  ["squat"; "bicep_curl"; "push_up"; "plank"; "unknown"].

(** The first of [names] that [features] lacks. *)
Definition first_missing (features : features_t) (names : list string)
  : option string :=
  find (fun k => negb (contains features k)) names.

(** X9: [detect_exercise_type] fails exactly when one of the six angles is
    missing, with a [KeyError] naming the first missing one in reading
    order (right knee, left knee, right hip, left hip, right elbow, left
    elbow); otherwise it returns one of the five labels. *)
Theorem detect_exercise_type_fails_on_first_missing_angle features :
  match first_missing features angle_names with
  | Some k => detect_exercise_type features = KeyError k
  | None => exists label, detect_exercise_type features = Ok label
                          /\ label ∈ exercise_labels
  end.
Proof.
  unfold first_missing, angle_names, detect_exercise_type, averages.
  cbn [find]. unfold contains, getitem.
  destruct (features !! "right_knee_angle"); cbn [negb bind]; [|reflexivity].
  destruct (features !! "left_knee_angle"); cbn [negb bind]; [|reflexivity].
  destruct (features !! "right_hip_angle"); cbn [negb bind]; [|reflexivity].
  destruct (features !! "left_hip_angle"); cbn [negb bind]; [|reflexivity].
  destruct (features !! "right_elbow_angle"); cbn [negb bind]; [|reflexivity].
  destruct (features !! "left_elbow_angle"); cbn [negb bind]; [|reflexivity].
  unfold exercise_labels.
  repeat case_match; eexists; (split; [reflexivity|]); set_solver.
Qed.

Lemma get_above (features : features_t) k bound :
  (0 <= bound)%Q ->
  Qltb bound (get features k 0%Q) = true ->
  exists v, features !! k = Some v /\ (bound < v)%Q.
Proof.
  intros Hb H. unfold get in H. destruct (features !! k) as [v|].
  - exists v. split; [reflexivity|]. apply Qltb_lt, H.
  - apply Qltb_lt in H. exfalso. exact (Qlt_not_le _ _ H Hb).
Qed.

Lemma squat_rule_needs k h features :
  squat_rule k h features = true ->
  exists v, features !! "foot_distance" = Some v /\ (40 < v)%Q.
Proof.
  unfold squat_rule. intros H.
  apply andb_prop in H as [H _]. apply andb_prop in H as [_ H].
  apply get_above; [discriminate | exact H].
Qed.

Lemma bicep_curl_rule_needs e features :
  bicep_curl_rule e features = true ->
  exists v, features !! "shoulder_hip_distance" = Some v /\ (100 < v)%Q.
Proof.
  unfold bicep_curl_rule. intros H.
  apply andb_prop in H as [H _]. apply andb_prop in H as [_ H].
  apply get_above; [discriminate | exact H].
Qed.

Lemma push_up_rule_needs e features :
  push_up_rule e features = true ->
  exists v, features !! "spine_angle" = Some v /\ (160 < v)%Q.
Proof.
  unfold push_up_rule. intros H.
  apply andb_prop in H as [H _]. apply andb_prop in H as [_ H].
  apply get_above; [discriminate | exact H].
Qed.

Lemma plank_rule_needs features :
  plank_rule features = true ->
  exists v, features !! "spine_angle" = Some v /\ (160 < v)%Q.
Proof.
  unfold plank_rule. intros H. apply andb_prop in H as [H _].
  destruct (get_above features "spine_angle" 170 ltac:(discriminate) H)
    as (v & Hv & Hlt).
  exists v. split; [exact Hv|]. eapply Qlt_trans; [|exact Hlt]. reflexivity.
Qed.

Lemma detect_label_in features label :
  detect_exercise_type features = Ok label -> label ∈ exercise_labels.
Proof.
  unfold detect_exercise_type, exercise_labels.
  destruct (averages features) as [[[k h] e]|]; cbn [bind]; [|discriminate].
  repeat case_match; intros [= <-]; set_solver.
Qed.

(** X10: what a label presupposes.  A vector is classified squat only if
    it holds a foot distance above 40, bicep_curl only if it holds a
    shoulder-hip distance above 100, push_up or plank only if it holds a
    spine angle above 160; so a vector without these three features (the
    six angles alone, say) is always classified unknown. *)
Theorem classification_needs_alignment_features features label :
  detect_exercise_type features = Ok label ->
  (label = "squat" ->
   exists v, features !! "foot_distance" = Some v /\ (40 < v)%Q)
  /\ (label = "bicep_curl" ->
      exists v, features !! "shoulder_hip_distance" = Some v /\ (100 < v)%Q)
  /\ (label = "push_up" \/ label = "plank" ->
      exists v, features !! "spine_angle" = Some v /\ (160 < v)%Q)
  /\ (features !! "foot_distance" = None ->
      features !! "shoulder_hip_distance" = None ->
      features !! "spine_angle" = None ->
      label = "unknown").
Proof.
  unfold detect_exercise_type.
  destruct (averages features) as [[[k h] e]|]; cbn [bind]; [|discriminate].
  destruct (squat_rule k h features) eqn:Hs.
  { intros [= <-]. apply squat_rule_needs in Hs as (v & Hv & Hlt).
    split_and!; try (intros; discriminate).
    - eauto.
    - intros [?|?]; discriminate.
    - intros Hn. rewrite Hn in Hv. discriminate. }
  destruct (bicep_curl_rule e features) eqn:Hb.
  { intros [= <-]. apply bicep_curl_rule_needs in Hb as (v & Hv & Hlt).
    split_and!; try (intros; discriminate).
    - eauto.
    - intros [?|?]; discriminate.
    - intros _ Hn. rewrite Hn in Hv. discriminate. }
  destruct (push_up_rule e features) eqn:Hp.
  { intros [= <-]. apply push_up_rule_needs in Hp as (v & Hv & Hlt).
    split_and!; try (intros; discriminate).
    - eauto.
    - intros _ _ Hn. rewrite Hn in Hv. discriminate. }
  destruct (plank_rule features) eqn:Hk.
  { intros [= <-]. apply plank_rule_needs in Hk as (v & Hv & Hlt).
    split_and!; try (intros; discriminate).
    - eauto.
    - intros _ _ Hn. rewrite Hn in Hv. discriminate. }
  intros [= <-]. split_and!; try (intros; discriminate).
  - intros [?|?]; discriminate.
  - reflexivity.
Qed.

Lemma classification_needs_alignment_features_witness :
  (exists v, squat_and_curl !! "foot_distance" = Some v /\ (40 < v)%Q).
Proof.
  exact (proj1 (classification_needs_alignment_features squat_and_curl "squat"
                  ltac:(vm_compute; reflexivity)) eq_refl).
Defined.

(** *** The scorer's bookkeeping *)

(** Issues and recommendations run in parallel, and every issue has cost
    between 5 and 20 points. *)
Definition accounted (t : scoring) : Prop :=
  length (t_issues t) = length (t_recs t)
  /\ 100 - 20 * Z.of_nat (length (t_issues t)) <= t_score t
     <= 100 - 5 * Z.of_nat (length (t_issues t)).

Lemma penalize_accounted issue rec penalty t :
  5 <= penalty <= 20 -> accounted t -> accounted (penalize issue rec penalty t).
Proof.
  intros Hp [Hlen Hsc]. unfold accounted, penalize. cbn [t_issues t_recs t_score].
  rewrite !length_app. cbn [length]. split; [lia|]. lia.
Qed.

Lemma when_accounted cond issue rec penalty t :
  5 <= penalty <= 20 -> accounted t -> accounted (when cond issue rec penalty t).
Proof.
  intros Hp H. unfold when. destruct cond; [|exact H].
  apply penalize_accounted; assumption.
Qed.

Ltac accounting :=
  repeat first
    [ assumption
    | apply when_accounted; [lia|]
    | apply penalize_accounted; [lia|]
    | match goal with |- accounted (if ?b then _ else _) => destruct b end ].

Lemma exercise_rules_accounted exercise features t t' :
  exercise_rules exercise features t = Ok t' -> accounted t -> accounted t'.
Proof.
  unfold exercise_rules, squat_rules, bicep_curl_rules, push_up_rules.
  intros H Ht.
  repeat match type of H with
  | context [getitem features ?k] =>
      destruct (getitem features k); cbn [bind] in H; try discriminate H
  | (if ?b then _ else _) = _ =>
      destruct b; cbn [bind] in H; try discriminate H
  | (let* _ := (if ?b then _ else _) in _) = _ =>
      destruct b; cbn [bind] in H; try discriminate H
  end;
  injection H as <-; accounting.
Qed.

Lemma form_score_accounting exercise features r :
  analyze_form_quality exercise features = Ok r ->
  length (issues r) = length (recommendations r)
  /\ 100 - 20 * Z.of_nat (length (issues r)) <= overall_score r
     <= 100 - 5 * Z.of_nat (length (issues r))
  /\ (overall_score r = 100 <-> issues r = []).
Proof.
  unfold analyze_form_quality.
  destruct (exercise_rules exercise features (Scoring 100 [] [])) as [t|]
    eqn:E; cbn [bind]; [|discriminate].
  intros [= <-]. cbn [overall_score issues recommendations].
  pose proof (exercise_rules_score _ _ _ _ E) as Hfloor.
  apply exercise_rules_accounted in E;
    [|split; [reflexivity | simpl; lia]].
  assert (Hv : accounted (visibility_rule features t))
    by (apply when_accounted; [lia | exact E]).
  pose proof (when_score
    (Qltb (get features "min_visibility" 1%Q) (7 # 10))
    "Poor camera angle or lighting"
    "Improve camera position and lighting" 5 t ltac:(lia)) as Hvs.
  fold (visibility_rule features t) in Hvs.
  destruct Hv as [Hlen Hsc]. cbn [t_score] in Hfloor.
  rewrite Z.max_l by lia. split; [exact Hlen|]. split; [exact Hsc|].
  destruct (t_issues (visibility_rule features t)) as [|i rest].
  - simpl in Hsc. split; [reflexivity | lia].
  - cbn [length] in Hsc. split; [lia | discriminate].
Qed.

(** X11: in every result of [analyze_form_quality] the issues and the
    recommendations are equally many, the score is 100 less the penalties
    of the issues reported, each between 5 and 20 points, and so the score
    is 100 exactly when no issue is reported. *)
Theorem form_score_accounts_for_issues exercise features r :
  analyze_form_quality exercise features = Ok r ->
  length (issues r) = length (recommendations r)
  /\ 100 - 20 * Z.of_nat (length (issues r)) <= overall_score r
     <= 100 - 5 * Z.of_nat (length (issues r))
  /\ (overall_score r = 100 <-> issues r = []).
Proof. apply form_score_accounting. Qed.

Lemma form_score_accounts_for_issues_witness :
  length (issues worst_squat_analysis)
  = length (recommendations worst_squat_analysis)
  /\ 100 - 20 * Z.of_nat (length (issues worst_squat_analysis))
     <= overall_score worst_squat_analysis
     <= 100 - 5 * Z.of_nat (length (issues worst_squat_analysis))
  /\ (overall_score worst_squat_analysis = 100
      <-> issues worst_squat_analysis = []).
Proof.
  exact (form_score_accounts_for_issues "squat" worst_squat
           worst_squat_analysis ltac:(vm_compute; reflexivity)).
Defined.

(** X12: for a label without a rule set (plank, unknown or any other
    string) the scorer never fails, whatever the features, and looks at the
    minimum visibility only: 95 with the camera issue when it is below 0.7,
    and 100 with no issue otherwise (also when it is absent). *)
Theorem form_score_of_unruled_label exercise features :
  exercise <> "squat" ->
  exercise <> "bicep_curl" ->
  exercise <> "push_up" ->
  analyze_form_quality exercise features
  = Ok (if Qltb (get features "min_visibility" 1%Q) (7 # 10)
        then Analysis 95 ["Poor camera angle or lighting"]
                         ["Improve camera position and lighting"]
        else Analysis 100 [] []).
Proof.
  intros H1 H2 H3. unfold analyze_form_quality, exercise_rules.
  destruct (String.eqb_spec exercise "squat"); [done|].
  destruct (String.eqb_spec exercise "bicep_curl"); [done|].
  destruct (String.eqb_spec exercise "push_up"); [done|].
  cbn [bind]. unfold visibility_rule, when, penalize.
  destruct (Qltb _ _); reflexivity.
Qed.

Lemma form_score_of_unruled_label_witness :
  analyze_form_quality "plank" ∅ = Ok (Analysis 100 [] []).
Proof.
  exact (form_score_of_unruled_label "plank" ∅
           ltac:(discriminate) ltac:(discriminate) ltac:(discriminate)).
Defined.

(** The scorer returns. *)
Definition scores (exercise : string) (features : features_t) : Prop :=
  exists r, analyze_form_quality exercise features = Ok r.

(** X13: which angles the scorer needs.  A squat is scored exactly when
    both knee and both hip angles are present, a push-up exactly when both
    elbow angles are; a bicep curl needs the right elbow angle and, unless
    that angle is above 170 (the [or] short-circuits), the left one. *)
Theorem form_scorer_needs_the_rule_angles features :
  (scores "squat" features
   <-> is_Some (features !! "right_knee_angle")
       /\ is_Some (features !! "left_knee_angle")
       /\ is_Some (features !! "right_hip_angle")
       /\ is_Some (features !! "left_hip_angle"))
  /\ (scores "push_up" features
      <-> is_Some (features !! "right_elbow_angle")
          /\ is_Some (features !! "left_elbow_angle"))
  /\ (scores "bicep_curl" features
      <-> exists re,
            features !! "right_elbow_angle" = Some re
            /\ ((170 < re)%Q \/ is_Some (features !! "left_elbow_angle"))).
Proof.
  unfold scores, analyze_form_quality, exercise_rules. cbn [String.eqb
    Ascii.eqb Bool.eqb]. cbn.
  unfold squat_rules, bicep_curl_rules, push_up_rules, getitem.
  split_and!.
  - destruct (features !! "right_knee_angle"),
             (features !! "left_knee_angle"); cbn [bind];
      try (split; [intros [? ?]; discriminate
                  | intros (? & ? & ? & ?);
                    repeat match goal with
                           | H : is_Some None |- _ => destruct H; discriminate
                           end]).
    destruct (features !! "right_hip_angle"),
             (features !! "left_hip_angle"); cbn [bind];
      try (split; [intros [? ?]; discriminate
                  | intros (? & ? & ? & ?);
                    repeat match goal with
                           | H : is_Some None |- _ => destruct H; discriminate
                           end]).
    split; [intros _; split_and!; eexists; reflexivity | intros _; eauto].
  - destruct (features !! "right_elbow_angle"),
             (features !! "left_elbow_angle"); cbn [bind];
      try (split; [intros [? ?]; discriminate
                  | intros (? & ?);
                    repeat match goal with
                           | H : is_Some None |- _ => destruct H; discriminate
                           end]).
    split; [intros _; split_and!; eexists; reflexivity | intros _; eauto].
  - destruct (features !! "right_elbow_angle") as [re|]; cbn [bind].
    + destruct (Qltb 170 re) eqn:E; cbn [bind].
      * split; [intros _; exists re; split; [reflexivity|];
                left; apply Qltb_lt, E | intros _; eauto].
      * destruct (features !! "left_elbow_angle"); cbn [bind].
        -- split; [intros _; exists re; split; [reflexivity|]; right; eauto
                  | intros _; eauto].
        -- split; [intros [? ?]; discriminate|].
           intros (re' & [= <-] & [Hlt|[? ?]]); [|discriminate].
           apply Qltb_lt in Hlt. congruence.
    + split; [intros [? ?]; discriminate | intros (? & ? & _); discriminate].
Qed.

(** The least score a label can get. *)
Definition score_floor (exercise : string) : Z :=
  if String.eqb exercise "squat" then 10
  else if String.eqb exercise "bicep_curl" then 55
  else if String.eqb exercise "push_up" then 60
  else 95.

(** Frames on which every rule of the exercise fires. *)
Definition worst_curl : features_t :=
  list_to_map
    [ ("right_elbow_angle", 175%Q); ("left_elbow_angle", 175%Q);
      ("right_elbow_angle_velocity", 200%Q); ("torso_lean", 20%Q);
      ("min_visibility", (1 # 2)%Q) ].

Definition worst_push_up : features_t :=
  list_to_map
    [ ("right_elbow_angle", 170%Q); ("left_elbow_angle", 170%Q);
      ("spine_angle", 150%Q); ("min_visibility", (1 # 2)%Q) ].

Definition worst_of (exercise : string) : features_t :=
  if String.eqb exercise "squat" then worst_squat
  else if String.eqb exercise "bicep_curl" then worst_curl
  else if String.eqb exercise "push_up" then worst_push_up
  else {["min_visibility" := (1 # 2)%Q]}.

(** X14: the score floor depends on the label: 10 for squat, 55 for
    bicep_curl, 60 for push_up and 95 for any other label; each floor is
    reached on a frame where all rules of the label fire.  In particular a
    frame scored under the label plank or unknown never falls below the
    key-frame mark of 70. *)
Theorem form_score_floor_by_label :
  (forall exercise features r,
     analyze_form_quality exercise features = Ok r ->
     score_floor exercise <= overall_score r)
  /\ (forall exercise,
        exists r, analyze_form_quality exercise (worst_of exercise) = Ok r
                  /\ overall_score r = score_floor exercise).
Proof.
  split.
  - intros exercise features r. unfold analyze_form_quality, score_floor.
    destruct (exercise_rules exercise features (Scoring 100 [] [])) as [t|]
      eqn:E; cbn [bind]; [|discriminate].
    intros [= <-]. cbn [overall_score].
    pose proof (when_score
      (Qltb (get features "min_visibility" 1%Q) (7 # 10))
      "Poor camera angle or lighting"
      "Improve camera position and lighting" 5 t ltac:(lia)) as Hvs.
    fold (visibility_rule features t) in Hvs.
    unfold exercise_rules in E.
    destruct (String.eqb exercise "squat");
      [apply squat_rules_score in E; cbn [t_score] in E; lia|].
    destruct (String.eqb exercise "bicep_curl");
      [apply bicep_curl_rules_score in E; cbn [t_score] in E; lia|].
    destruct (String.eqb exercise "push_up");
      [apply push_up_rules_score in E; cbn [t_score] in E; lia|].
    injection E as <-. cbn [t_score] in Hvs. lia.
  - intros exercise. unfold analyze_form_quality, exercise_rules, worst_of,
      score_floor.
    destruct (String.eqb exercise "squat");
      [eexists; split; [vm_compute; reflexivity | reflexivity]|].
    destruct (String.eqb exercise "bicep_curl");
      [eexists; split; [vm_compute; reflexivity | reflexivity]|].
    destruct (String.eqb exercise "push_up");
      [eexists; split; [vm_compute; reflexivity | reflexivity]|].
    eexists; split; [vm_compute; reflexivity | reflexivity].
Qed.

Lemma form_score_floor_by_label_witness :
  score_floor "squat" <= overall_score worst_squat_analysis.
Proof.
  exact (proj1 form_score_floor_by_label "squat" worst_squat
           worst_squat_analysis ltac:(vm_compute; reflexivity)).
Defined.

End FeaturesExtra.

(** ** Temporal features and the angle history *)

Module TemporalFacts.
Import Num Dict Features NumFacts.

Lemma append_unfold {A} maxlen (dq : list A) x :
  (0 < maxlen)%nat ->
  Deque.append maxlen dq x
  = drop (length dq + 1 - maxlen) dq ++ [x].
Proof.
  intros Hm. unfold Deque.append. rewrite length_app. cbn [length].
  rewrite drop_app_le by lia. reflexivity.
Qed.

Lemma second_last_append {A} maxlen (dq : list A) p x :
  (1 < maxlen)%nat ->
  Deque.second_last (Deque.append maxlen (dq ++ [p]) x) = Some p.
Proof.
  intros Hm. rewrite append_unfold by lia.
  rewrite length_app. cbn [length]. rewrite drop_app_le by lia.
  unfold Deque.second_last. rewrite <- app_assoc. cbn [app].
  rewrite rev_app_distr. reflexivity.
Qed.

(** The two keys written for a joint. *)
Definition velocity_key (joint : string) : string := joint +:+ "_velocity".
Definition is_fast_key (joint : string) : string := joint +:+ "_is_fast".

Lemma temporal_fold_other prev items : forall tf k,
  Forall (fun item => k <> velocity_key (fst item)
                      /\ k <> is_fast_key (fst item)) items ->
  fold_left (temporal_step prev) items tf !! k = tf !! k.
Proof.
  induction items as [|[joint cur] rest IH]; intros tf k H; [reflexivity|].
  apply Forall_cons in H as [[Hv Hf] H]. cbn [fold_left]. rewrite IH by exact H.
  unfold temporal_step, velocity_key, is_fast_key in *. cbn [fst] in *.
  destruct (prev !! joint); [|reflexivity].
  rewrite !lookup_insert_ne by congruence. reflexivity.
Qed.

Lemma temporal_features_other items h k :
  Forall (fun item => k <> velocity_key (fst item)
                      /\ k <> is_fast_key (fst item)) items ->
  fst (calculate_temporal_features items h) !! k = None.
Proof.
  intros H. unfold calculate_temporal_features. cbn [fst].
  destruct (2 <=? _)%nat; [|apply lookup_empty].
  destruct (Deque.second_last _); [|apply lookup_empty].
  rewrite temporal_fold_other by exact H. apply lookup_empty.
Qed.

(** The history a call leaves, and its length. *)
Lemma temporal_history_after current_angles h :
  snd (calculate_temporal_features current_angles h)
  = drop (length h + 1 - 30) h ++ [list_to_map current_angles]
  /\ length (snd (calculate_temporal_features current_angles h))
     = Nat.min (length h + 1) 30.
Proof.
  unfold calculate_temporal_features. cbn [fst snd].
  split; [apply append_unfold; lia|].
  unfold Deque.append. rewrite length_drop, length_app. cbn [length]. lia.
Qed.

(** X15: every call of [calculate_temporal_features] appends the current
    angles to the shared history, which never holds more than 30 entries
    (the oldest fall off), and a call on an empty history yields no
    temporal feature at all. *)
Theorem temporal_features_history current_angles h :
  snd (calculate_temporal_features current_angles h)
  = drop (length h + 1 - 30) h ++ [list_to_map current_angles]
  /\ length (snd (calculate_temporal_features current_angles h))
     = Nat.min (length h + 1) 30
  /\ fst (calculate_temporal_features current_angles []) = ∅.
Proof.
  destruct (temporal_history_after current_angles h) as [Hsnd Hlen].
  split; [exact Hsnd|]. split; [exact Hlen|]. reflexivity.
Qed.


(** The angular velocity of a joint between two frames. *)
Definition velocity (prev cur : Q) : Q := (Qabs (cur - prev) / dt)%Q.




(** X17: whatever the history, the extracted feature vector holds the
    frame's own six angles and nine alignment and visibility measures
    under their names: no temporal feature ever shadows one of them. *)
Theorem extracted_features_keep_frame_measures a e h :
  Forall (fun '(k, v) =>
            fst (extract_comprehensive_features a e h) !! k = Some v)
         (angles_items a ++ enhanced_items e).
Proof.
  unfold extract_comprehensive_features.
  pose proof (temporal_features_other (angles_items a) h) as Hother.
  destruct (calculate_temporal_features (angles_items a) h) as [tf h'].
  cbn [fst] in *. unfold merge2.
  repeat (apply Forall_cons; split); [ idtac .. | apply Forall_nil; exact I ].
  all: rewrite lookup_union_r
    by (apply Hother;
        repeat (apply Forall_cons; split; [split; discriminate|]);
        apply Forall_nil; exact I).
  all: vm_compute; reflexivity.
Qed.

End TemporalFacts.

(** ** The aggregation as a fold over per-frame analyses *)

Module AnalyzerExtra.
Import Num Dict Features Analyzer NumFacts FeaturesFacts AnalyzerFacts
       EstimatorFacts TallyFacts TemporalFacts.

(** What the loop learns from one analysed frame: its index, the label
    detected on it and the analysis made under that label. *)
Record frame_analysis : Type := FrameAnalysis {
  fa_frame : Z;
  fa_label : string;
  fa_analysis : analysis_t
}.

(** The analysis of one frame with landmarks, given the history so far. *)
Definition analyse_frame (frame_count : Z) (a : angles_t) (e : enhanced_t)
    (h : list features_t) : result frame_analysis :=
  let features := fst (extract_comprehensive_features a e h) in
  let* label := detect_exercise_type features in
  let* analysis := analyze_form_quality label features in
  Ok (FrameAnalysis frame_count label analysis).

(** The analyses of the sampled frames with landmarks, in frame order. *)
Fixpoint frame_analyses (frames : list frame_t) (frame_count : Z)
    (h : list features_t) : list frame_analysis :=
  match frames with
  | [] => []
  | f :: rest =>
      if frame_count mod FRAME_SKIP =? 0 then
        match f with
        | Some (a, e) =>
            match analyse_frame frame_count a e h with
            | Ok fa =>
                fa :: frame_analyses rest (frame_count + 1)
                        (snd (extract_comprehensive_features a e h))
            | KeyError _ => []
            end
        | None => frame_analyses rest (frame_count + 1) h
        end
      else frame_analyses rest (frame_count + 1) h
  end.

(** The loop's accumulation of one analysis. *)
Definition accumulate (st : analysis_results * list (string * Z))
    (fa : frame_analysis) : analysis_results * list (string * Z) :=
  (record_analysis (fa_frame fa) (fa_analysis fa) (fst st),
   Tally.incr (snd st) (fa_label fa)).

Lemma process_frame_analyse frame_count a e st :
  exists fa,
    analyse_frame frame_count a e (angle_history st) = Ok fa
    /\ process_frame frame_count a e st
       = (Ok (LoopState
                (fst (accumulate (results st, exercise_votes st) fa))
                (snd (accumulate (results st, exercise_votes st) fa))
                (snd (extract_comprehensive_features a e (angle_history st)))),
          snd (extract_comprehensive_features a e (angle_history st))).
Proof.
  unfold process_frame, analyse_frame.
  pose proof (extract_has_angles a e (angle_history st)) as Hang.
  destruct (extract_comprehensive_features a e (angle_history st))
    as [features h]. cbn [fst snd] in *.
  destruct (detect_exercise_type_total features Hang) as [l Hl].
  destruct (proj1 (proj2 form_score_range_facts) l features Hang) as [r Hr].
  rewrite Hl. cbn [bind]. rewrite Hr. cbn [bind].
  eexists. split; reflexivity.
Qed.

(** The loop is the fold of [accumulate] over the per-frame analyses. *)
Lemma frame_loop_fold frames : forall frame_count st,
  exists st',
    frame_loop frames frame_count st = (Ok st', angle_history st')
    /\ (results st', exercise_votes st')
       = fold_left accumulate
           (frame_analyses frames frame_count (angle_history st))
           (results st, exercise_votes st).
Proof.
  induction frames as [|f rest IH]; intros frame_count st.
  - exists st. split; reflexivity.
  - cbn [frame_loop frame_analyses].
    destruct (frame_count mod FRAME_SKIP =? 0); cbn [negb]; [|apply IH].
    destruct f as [[a e]|]; [|apply IH].
    destruct (process_frame_analyse frame_count a e st) as (fa & Hfa & Hp).
    rewrite Hp, Hfa.
    destruct (IH (frame_count + 1)
                (LoopState
                   (fst (accumulate (results st, exercise_votes st) fa))
                   (snd (accumulate (results st, exercise_votes st) fa))
                   (snd (extract_comprehensive_features a e
                           (angle_history st)))))
      as (st' & Hl & Hacc).
    exists st'. split; [exact Hl|]. rewrite Hacc. reflexivity.
Qed.

Definition fa_score (fa : frame_analysis) : Z :=
  Features.overall_score (fa_analysis fa).

Definition fa_issues (fa : frame_analysis) : list string :=
  Features.issues (fa_analysis fa).

Definition fa_recommendations (fa : frame_analysis) : list string :=
  Features.recommendations (fa_analysis fa).

(** A frame below the key-frame mark. *)
Definition poor (fa : frame_analysis) : bool := fa_score fa <? 70.

(** The key-frame entry of a poor frame. *)
Definition key_frame_of (fa : frame_analysis) : key_frame :=
  KeyFrame (fa_frame fa) (fa_score fa) (take 2 (fa_issues fa))
           ("static/results/key_frame_" +:+ pretty (fa_frame fa) +:+ ".jpg").

Lemma fold_accumulate tr : forall r votes,
  fold_left accumulate tr (r, votes)
  = (AnalysisResults
       (frames_analyzed r + Z.of_nat (length tr))
       (exercise_detected r)
       (confidence r)
       (form_scores r ++ map fa_score tr)
       (issues_detected r ++ concat (map fa_issues tr))
       (recommendations r ++ concat (map fa_recommendations tr))
       (rep_count r)
       (key_frames r ++ map key_frame_of (List.filter poor tr))
       (overall_score r)
       (video_duration r)
       (fps r),
     fold_left Tally.incr (map fa_label tr) votes).
Proof.
  induction tr as [|fa rest IH]; intros r votes.
  - cbn [fold_left map concat List.filter length]. rewrite !app_nil_r, Z.add_0_r.
    destruct r; reflexivity.
  - cbn [fold_left]. unfold accumulate at 2. cbn [fst snd]. rewrite IH.
    cbn [map concat List.filter length]. unfold record_analysis.
    cbn [frames_analyzed exercise_detected confidence form_scores
         issues_detected recommendations rep_count key_frames overall_score
         video_duration fps].
    fold (fa_score fa). fold (fa_issues fa). fold (fa_recommendations fa).
    fold (poor fa). fold (key_frame_of fa).
    rewrite Nat2Z.inj_succ, <- !app_assoc.
    f_equal. f_equal; try reflexivity; try lia.
    destruct (poor fa); [rewrite <- app_assoc|]; reflexivity.
Qed.

(** What every per-frame analysis satisfies. *)
Definition analysed (lo hi : Z) (fa : frame_analysis) : Prop :=
  fa_frame fa mod FRAME_SKIP = 0
  /\ lo <= fa_frame fa < hi
  /\ fa_label fa ∈ FeaturesExtra.exercise_labels
  /\ 10 <= fa_score fa <= 100
  /\ (fa_score fa = 100 <-> fa_issues fa = []).

Lemma analyse_frame_analysed frame_count a e h fa :
  frame_count mod FRAME_SKIP = 0 ->
  analyse_frame frame_count a e h = Ok fa ->
  analysed frame_count (frame_count + 1) fa.
Proof.
  unfold analyse_frame. intros Hmod.
  destruct (detect_exercise_type _) as [label|] eqn:Hl; cbn [bind];
    [|discriminate].
  destruct (analyze_form_quality label _) as [r|] eqn:Hr; cbn [bind];
    [|discriminate].
  intros [= <-]. unfold analysed, fa_score, fa_issues.
  cbn [fa_frame fa_label fa_analysis].
  split; [exact Hmod|]. split; [lia|].
  split; [eapply FeaturesExtra.detect_label_in, Hl|].
  split; [eapply (proj1 form_score_range_facts), Hr|].
  eapply FeaturesExtra.form_score_accounting, Hr.
Qed.

Lemma analysed_weaken lo hi lo' hi' fa :
  lo' <= lo -> hi <= hi' -> analysed lo hi fa -> analysed lo' hi' fa.
Proof. unfold analysed. intros ? ? (? & ? & ?). split; [assumption|]. split; [lia|assumption]. Qed.

Lemma frame_analyses_analysed frames : forall frame_count h,
  Forall (analysed frame_count (frame_count + Z.of_nat (length frames)))
         (frame_analyses frames frame_count h).
Proof.
  induction frames as [|f rest IH]; intros frame_count h; [constructor|].
  cbn [frame_analyses length]. rewrite Nat2Z.inj_succ.
  assert (Hrest : forall h',
    Forall (analysed frame_count (frame_count + Z.succ (Z.of_nat (length rest))))
           (frame_analyses rest (frame_count + 1) h')).
  { intros h'. eapply Forall_impl; [apply IH|].
    intros fa. apply analysed_weaken; lia. }
  destruct (frame_count mod FRAME_SKIP =? 0) eqn:E; [|apply Hrest].
  apply Z.eqb_eq in E.
  destruct f as [[a e]|]; [|apply Hrest].
  destruct (analyse_frame frame_count a e h) as [fa|] eqn:Hfa; [|constructor].
  constructor; [|apply Hrest].
  eapply analysed_weaken; [| |eapply analyse_frame_analysed; eassumption]; lia.
Qed.

(** The per-frame analyses of a run. *)
Definition trace (v : video) (h : list features_t) : list frame_analysis :=
  frame_analyses (cap_frames v) 0 h.

(** [video_duration] *)
Definition duration_of (v : video) : Q :=
  if Qltb 0 (cap_fps v)
  then (inject_Z (cap_frame_count v) / cap_fps v)%Q else 0%Q.

(** The session aggregate of a list of per-frame analyses whose dominant
    label [label] got [votes] votes. *)
Definition aggregate (v : video) (tr : list frame_analysis)
    (label : string) (votes : Z) : analysis_results :=
  AnalysisResults
    (Z.of_nat (length tr))
    label
    (inject_Z votes / inject_Z (Z.of_nat (length tr)))%Q
    (map fa_score tr)
    (list_set (concat (map fa_issues tr)))
    (list_set (concat (map fa_recommendations tr)))
    (estimate_rep_count (map fa_score tr))
    (map key_frame_of (List.filter poor tr))
    (Z.quot (sum (map fa_score tr)) (Z.of_nat (length tr)))
    (duration_of v)
    (cap_fps v).

Lemma analyze_video_run v h :
  exists st,
    frame_loop (cap_frames v) 0
      (LoopState
         (AnalysisResults 0 "unknown" 0 [] [] [] 0 [] 0 (duration_of v)
                          (cap_fps v)) [] h)
    = (Ok st, angle_history st)
    /\ results st
       = AnalysisResults (Z.of_nat (length (trace v h))) "unknown" 0
           (map fa_score (trace v h))
           (concat (map fa_issues (trace v h)))
           (concat (map fa_recommendations (trace v h)))
           0
           (map key_frame_of (List.filter poor (trace v h)))
           0 (duration_of v) (cap_fps v)
    /\ exercise_votes st = Tally.count_all (map fa_label (trace v h)).
Proof.
  destruct (frame_loop_fold (cap_frames v) 0
              (LoopState
                 (AnalysisResults 0 "unknown" 0 [] [] [] 0 [] 0 (duration_of v)
                                  (cap_fps v)) [] h)) as (st & Hl & Hacc).
  exists st. split; [exact Hl|].
  cbn [results exercise_votes angle_history] in Hacc.
  fold (trace v h) in Hacc. rewrite fold_accumulate in Hacc.
  injection Hacc as Hr Hv. split; [exact Hr | exact Hv].
Qed.

Lemma count_all_nil_iff xs : Tally.count_all xs = [] <-> xs = [].
Proof.
  split; [|intros ->; reflexivity].
  destruct xs as [|x xs]; [reflexivity|]. intros H. exfalso.
  assert (Hx : x ∈ keys (Tally.count_all (x :: xs)))
    by apply keys_count_all_in, list_elem_of_here.
  rewrite H in Hx. inversion Hx.
Qed.

Lemma analyze_video_closed_form v h :
  fst (analyze_video (Some v) h)
  = match Tally.argmax (Tally.count_all (map fa_label (trace v h))) with
    | Some (label, votes) => Results (aggregate v (trace v h) label votes)
    | None => Error "No pose landmarks detected in video"
    end
  /\ (Tally.argmax (Tally.count_all (map fa_label (trace v h))) = None
      <-> trace v h = []).
Proof.
  split.
  - unfold analyze_video. fold (duration_of v).
    destruct (analyze_video_run v h) as (st & Hl & Hr & Hv).
    rewrite Hl, Hv. cbn [fst].
    destruct (Tally.argmax _) as [[label votes]|] eqn:Hmax; [|reflexivity].
    f_equal. unfold finalize, aggregate. rewrite Hr.
    cbn [frames_analyzed form_scores issues_detected recommendations
         key_frames overall_score video_duration fps].
    rewrite total_count_all, !length_map.
    destruct (trace v h) as [|fa rest] eqn:Htr; [discriminate Hmax|].
    reflexivity.
  - destruct (Tally.count_all (map fa_label (trace v h))) as [|kv d] eqn:E.
    + apply count_all_nil_iff in E. simpl.
      split; [intros _|reflexivity].
      destruct (trace v h); [reflexivity|discriminate].
    + simpl. split; [discriminate|]. intros Htr. rewrite Htr in E.
      discriminate.
Qed.

(** X18: [analyze_video] on an opened capture is the aggregation of the
    per-frame analyses of its sampled frames with landmarks: with none it
    returns the "No pose landmarks" error; otherwise its result counts
    them, lists their scores in frame order, keeps as key frames those
    scoring below 70 (with at most their first two issues), collects the
    distinct issues and recommendations, estimates the repetitions from the
    scores, takes the integer part of the mean score, and reports the
    label with the most votes together with its share of the votes. *)
Theorem analyze_video_aggregates_frame_analyses v h :
  fst (analyze_video (Some v) h)
  = match Tally.argmax (Tally.count_all (map fa_label (trace v h))) with
    | Some (label, votes) => Results (aggregate v (trace v h) label votes)
    | None => Error "No pose landmarks detected in video"
    end
  /\ (Tally.argmax (Tally.count_all (map fa_label (trace v h))) = None
      <-> trace v h = []).
Proof. apply analyze_video_closed_form. Qed.

(** *** Bounds on the estimate *)

Lemma dips_bound below scores : forall p,
  2 * dips below p scores
  <= Z.of_nat (length scores) + (if p then 0 else 1).
Proof.
  induction scores as [|s rest IH]; intros p; cbn [dips length].
  - destruct p; lia.
  - rewrite Nat2Z.inj_succ. specialize (IH (below s)).
    destruct (below s), p; cbn [andb negb] in *; lia.
Qed.

Lemma estimate_bounds scores :
  0 <= estimate_rep_count scores
  /\ 2 * estimate_rep_count scores <= Z.of_nat (length scores).
Proof.
  destruct (Nat.lt_ge_cases (length scores) 10) as [Hlt|Hge].
  - rewrite estimate_short by exact Hlt. lia.
  - rewrite estimate_long by exact Hge. unfold low_period_entries.
    pose proof (dips_bound (below_threshold (threshold scores)) scores
                  false). lia.
Qed.

(** X19: the batch estimate is never negative and never exceeds half the
    number of scores: it is 0 below ten scores, and from ten on every
    counted repetition needs a score below the threshold preceded by one
    at or above it. *)
Theorem estimate_rep_count_bounds scores :
  0 <= estimate_rep_count scores
  /\ 2 * estimate_rep_count scores <= Z.of_nat (length scores)
  /\ ((length scores < 10)%nat -> estimate_rep_count scores = 0).
Proof.
  destruct (estimate_bounds scores) as [H1 H2].
  split; [exact H1|]. split; [exact H2 | apply estimate_short].
Qed.

(** *** Bounds on a run's result *)

Lemma sum_bounds lo hi xs :
  Forall (fun x => lo <= x <= hi) xs ->
  lo * Z.of_nat (length xs) <= sum xs <= hi * Z.of_nat (length xs).
Proof.
  induction 1 as [|x rest Hx _ IH]; cbn [sum fold_right length]; [lia|].
  fold (sum rest). rewrite Nat2Z.inj_succ. lia.
Qed.

Lemma mean_bounds lo hi xs :
  0 <= lo ->
  xs <> [] ->
  Forall (fun x => lo <= x <= hi) xs ->
  lo <= Z.quot (sum xs) (Z.of_nat (length xs)) <= hi.
Proof.
  intros Hlo Hne H. pose proof (sum_bounds lo hi xs H) as [H1 H2].
  assert (Hn : 0 < Z.of_nat (length xs)) by (destruct xs; [done|simpl; lia]).
  rewrite Z.quot_div_nonneg by nia. split.
  - apply Z.div_le_lower_bound; lia.
  - apply Z.div_le_upper_bound; lia.
Qed.

Lemma results_inv v h r :
  fst (analyze_video (Some v) h) = Results r ->
  exists label votes,
    Tally.argmax (Tally.count_all (map fa_label (trace v h)))
    = Some (label, votes)
    /\ r = aggregate v (trace v h) label votes
    /\ trace v h <> [].
Proof.
  intros H. destruct (analyze_video_closed_form v h) as [Hcf Hnone].
  rewrite Hcf in H.
  destruct (Tally.argmax _) as [[label votes]|] eqn:Hmax; [|discriminate].
  injection H as <-. exists label, votes.
  split; [reflexivity|]. split; [reflexivity|].
  intros Htr. apply Hnone in Htr. discriminate.
Qed.

(** The result of the two-frame squat clip in a fresh process. *)
Definition squat_clip_result : analysis_results :=
  Eval vm_compute in
    match fst (analyze_video (Some squat_clip) []) with
    | Results r => r
    | Error _ => AnalysisResults 0 "" 0 [] [] [] 0 [] 0 0 0
    end.

(** X20: in every result record the scores are one per analysed frame and
    lie between 10 and 100, and so does the overall score; the estimated
    repetition count lies between 0 and half the number of analysed
    frames; and every key frame is a sampled frame of the video (index a
    multiple of 3 and below the number of frames read) that scored below
    70, carrying one or two issues. *)
Theorem analysis_results_are_within_bounds v h r :
  fst (analyze_video (Some v) h) = Results r ->
  Z.of_nat (length (form_scores r)) = frames_analyzed r
  /\ Forall (fun s => 10 <= s <= 100) (form_scores r)
  /\ 10 <= overall_score r <= 100
  /\ 0 <= rep_count r
  /\ 2 * rep_count r <= frames_analyzed r
  /\ Forall (fun kf =>
               10 <= score kf < 70
               /\ frame kf mod FRAME_SKIP = 0
               /\ 0 <= frame kf < Z.of_nat (length (cap_frames v))
               /\ (1 <= length (kf_issues kf) <= 2)%nat)
            (key_frames r).
Proof.
  intros H. destruct (results_inv v h r H) as (label & votes & _ & -> & Hne).
  pose proof (frame_analyses_analysed (cap_frames v) 0 h) as Htr.
  fold (trace v h) in Htr. unfold aggregate.
  cbn [form_scores frames_analyzed overall_score rep_count key_frames].
  assert (Hscores : Forall (fun s => 10 <= s <= 100) (map fa_score (trace v h))).
  { apply Forall_fmap. eapply Forall_impl; [exact Htr|].
    intros fa (_ & _ & _ & Hs & _). exact Hs. }
  pose proof (estimate_bounds (map fa_score (trace v h))) as [He1 He2].
  rewrite length_map in *.
  split; [reflexivity|]. split; [exact Hscores|].
  split.
  { rewrite <- (length_map fa_score).
    apply mean_bounds; [lia| |exact Hscores].
    destruct (trace v h); [done|discriminate]. }
  split; [exact He1|]. split; [exact He2|].
  apply Forall_fmap. apply Forall_forall. intros fa Hin.
  apply list_elem_of_In, filter_In in Hin as [Hin Hpoor].
  apply list_elem_of_In in Hin.
  rewrite Forall_forall in Htr. destruct (Htr fa Hin) as (Hmod & Hfr & _ & Hs & Hiss).
  unfold poor in Hpoor. apply Z.ltb_lt in Hpoor.
  cbn [score frame kf_issues key_frame_of compose].
  split; [lia|]. split; [exact Hmod|]. split; [lia|].
  rewrite length_take.
  destruct (fa_issues fa) as [|i rest]; [|cbn [length]; lia].
  exfalso. assert (fa_score fa = 100) by (apply Hiss; reflexivity). lia.
Qed.

Lemma analysis_results_are_within_bounds_witness :
  10 <= overall_score squat_clip_result <= 100.
Proof.
  exact (proj1 (proj2 (proj2
           (analysis_results_are_within_bounds squat_clip [] squat_clip_result
              ltac:(vm_compute; reflexivity))))).
Defined.

(** Each label is one of five, so the votes add up over the five. *)
Lemma labels_length labels :
  Forall (fun l => l ∈ FeaturesExtra.exercise_labels) labels ->
  Z.of_nat (length labels)
  = occurrences labels "squat" + occurrences labels "bicep_curl"
    + occurrences labels "push_up" + occurrences labels "plank"
    + occurrences labels "unknown".
Proof.
  induction 1 as [|l rest Hl _ IH]; [reflexivity|].
  cbn [length]. rewrite Nat2Z.inj_succ, IH.
  unfold FeaturesExtra.exercise_labels in Hl.
  repeat (apply elem_of_cons in Hl as [->|Hl]; [simpl; lia|]).
  inversion Hl.
Qed.

(** X21: the exercise a result reports is the label detected on the most
    analysed frames and, among equally frequent labels, the one detected
    first; its confidence is its share of the analysed frames, which is at
    least 1/5 (there are five labels) and at most 1. *)
Theorem dominant_exercise_is_first_most_frequent v h r :
  fst (analyze_video (Some v) h) = Results r ->
  (exists pre post,
     map fa_label (trace v h) = pre ++ exercise_detected r :: post
     /\ (exercise_detected r ∉ pre)
     /\ (forall l, l ∈ pre ->
           occurrences (map fa_label (trace v h)) l
           < occurrences (map fa_label (trace v h)) (exercise_detected r)))
  /\ (forall l,
        occurrences (map fa_label (trace v h)) l
        <= occurrences (map fa_label (trace v h)) (exercise_detected r))
  /\ confidence r
     = (inject_Z (occurrences (map fa_label (trace v h)) (exercise_detected r))
        / inject_Z (frames_analyzed r))%Q
  /\ exercise_detected r ∈ FeaturesExtra.exercise_labels
  /\ (1 # 5 <= confidence r <= 1)%Q.
Proof.
  intros H. destruct (results_inv v h r H) as (label & votes & Hmax & -> & Hne).
  pose proof (frame_analyses_analysed (cap_frames v) 0 h) as Htr.
  fold (trace v h) in Htr.
  assert (Hlabels : Forall (fun l => l ∈ FeaturesExtra.exercise_labels)
                           (map fa_label (trace v h))).
  { apply Forall_fmap. eapply Forall_impl; [exact Htr|].
    intros fa (_ & _ & Hl & _). exact Hl. }
  assert (Hne' : map fa_label (trace v h) <> [])
    by (destruct (trace v h); [done|discriminate]).
  destruct (argmax_count_all _ Hne')
    as (m & n & pre & post & Hmax' & Hn & Hall & Hsplit & Hpre & Hbefore).
  rewrite Hmax in Hmax'. injection Hmax' as -> ->. subst n.
  unfold aggregate. cbn [exercise_detected confidence frames_analyzed].
  assert (Hin : m ∈ map fa_label (trace v h)).
  { rewrite Hsplit. apply elem_of_app. right. apply list_elem_of_here. }
  split; [exists pre, post; split_and!; assumption|].
  split; [exact Hall|].
  split; [reflexivity|].
  split; [rewrite Forall_forall in Hlabels; apply Hlabels, Hin|].
  pose proof (labels_length _ Hlabels) as Hsum.
  pose proof (Hall "squat"). pose proof (Hall "bicep_curl").
  pose proof (Hall "push_up"). pose proof (Hall "plank").
  pose proof (Hall "unknown").
  pose proof (occurrences_le_length (map fa_label (trace v h)) m) as Hle.
  rewrite length_map in *.
  destruct (Z.of_nat (length (trace v h))) as [|p|p] eqn:E;
    [destruct (trace v h); [done|discriminate] | | lia].
  split; unfold Qle, Qdiv, Qmult, Qinv; simpl; lia.
Qed.

Lemma dominant_exercise_is_first_most_frequent_witness :
  (1 # 5 <= confidence squat_clip_result <= 1)%Q.
Proof.
  exact (proj2 (proj2 (proj2 (proj2
           (dominant_exercise_is_first_most_frequent squat_clip []
              squat_clip_result ltac:(vm_compute; reflexivity)))))).
Defined.

(** *** Skipped frames *)

(** Two frame sequences of the same length that agree on every sampled
    index, counting from [frame_count]. *)
Fixpoint agree_on_sampled (frame_count : Z) (l1 l2 : list frame_t) : Prop :=
  match l1, l2 with
  | [], [] => True
  | f1 :: r1, f2 :: r2 =>
      (frame_count mod FRAME_SKIP = 0 -> f1 = f2)
      /\ agree_on_sampled (frame_count + 1) r1 r2
  | _, _ => False
  end.

Lemma frame_loop_agree l1 : forall l2 frame_count st,
  agree_on_sampled frame_count l1 l2 ->
  frame_loop l1 frame_count st = frame_loop l2 frame_count st.
Proof.
  induction l1 as [|f1 r1 IH]; intros [|f2 r2] frame_count st H;
    try destruct H; [reflexivity|].
  cbn [frame_loop].
  destruct (frame_count mod FRAME_SKIP =? 0) eqn:E; cbn [negb].
  - apply Z.eqb_eq in E. rewrite (H E).
    destruct f2 as [[a e]|]; [|apply IH; assumption].
    destruct (process_frame frame_count a e st) as [[st'|k] h'];
      [apply IH; assumption | reflexivity].
  - apply IH. assumption.
Qed.

(** X22: only every third frame is looked at: two videos with the same
    metadata and the same number of frames that agree on the frames at
    indices 0, 3, 6, ... get the same response and leave the same history,
    whatever their other frames show. *)
Theorem analyze_video_ignores_skipped_frames fps n frames1 frames2 h :
  agree_on_sampled 0 frames1 frames2 ->
  analyze_video (Some (Video fps n frames1)) h
  = analyze_video (Some (Video fps n frames2)) h.
Proof.
  intros H. unfold analyze_video. cbn [cap_fps cap_frame_count cap_frames].
  rewrite (frame_loop_agree frames1 frames2 0 _ H). reflexivity.
Qed.

Lemma analyze_video_ignores_skipped_frames_witness :
  analyze_video
    (Some (Video 30 4 [squat_pose 90; None; None; squat_pose 100])) []
  = analyze_video
      (Some (Video 30 4 [squat_pose 90; squat_pose 30; squat_pose 170;
                         squat_pose 100])) [].
Proof.
  apply analyze_video_ignores_skipped_frames.
  cbn [agree_on_sampled].
  repeat split; try reflexivity; vm_compute; discriminate.
Defined.

(** *** What a run sees of the history it inherits *)

Lemma temporal_features_last items h :
  fst (calculate_temporal_features items h)
  = match last h with
    | Some prev_angles => fold_left (temporal_step prev_angles) items ∅
    | None => ∅
    end.
Proof.
  unfold calculate_temporal_features. cbn [fst].
  induction h as [|x h' _] using rev_ind; [reflexivity|].
  rewrite last_snoc, second_last_append by lia.
  destruct (2 <=? length (Deque.append 30 (h' ++ [x]) (list_to_map items)))%nat
    eqn:E; [reflexivity|].
  apply Nat.leb_gt in E. unfold Deque.append in E.
  rewrite length_drop, !length_app in E. cbn [length] in E. lia.
Qed.

Lemma temporal_history_last items h :
  last (snd (calculate_temporal_features items h))
  = Some (list_to_map items).
Proof.
  unfold calculate_temporal_features. cbn [snd].
  rewrite append_unfold by lia. apply last_snoc.
Qed.

Lemma extract_last a e h1 h2 :
  last h1 = last h2 ->
  fst (extract_comprehensive_features a e h1)
  = fst (extract_comprehensive_features a e h2)
  /\ last (snd (extract_comprehensive_features a e h1))
     = last (snd (extract_comprehensive_features a e h2)).
Proof.
  intros H. unfold extract_comprehensive_features.
  pose proof (temporal_features_last (angles_items a) h1) as Hf1.
  pose proof (temporal_features_last (angles_items a) h2) as Hf2.
  pose proof (temporal_history_last (angles_items a) h1) as Hl1.
  pose proof (temporal_history_last (angles_items a) h2) as Hl2.
  destruct (calculate_temporal_features (angles_items a) h1) as [tf1 h1'].
  destruct (calculate_temporal_features (angles_items a) h2) as [tf2 h2'].
  cbn [fst snd] in *. rewrite Hf1, Hf2, Hl1, Hl2, H. split; reflexivity.
Qed.

Lemma frame_analyses_last frames : forall frame_count h1 h2,
  last h1 = last h2 ->
  frame_analyses frames frame_count h1 = frame_analyses frames frame_count h2.
Proof.
  induction frames as [|f rest IH]; intros frame_count h1 h2 H; [reflexivity|].
  cbn [frame_analyses].
  destruct (frame_count mod FRAME_SKIP =? 0); [|apply IH, H].
  destruct f as [[a e]|]; [|apply IH, H].
  destruct (extract_last a e h1 h2 H) as [Hf Hl].
  unfold analyse_frame. rewrite Hf.
  destruct (let* label := detect_exercise_type _ in _); [|reflexivity].
  f_equal. apply IH, Hl.
Qed.

(** X23: a run sees of the shared angle history it inherits only the last
    entry: started with two histories that end in the same entry (or are
    both empty), [analyze_video] returns the same response. *)
Theorem analyze_video_sees_only_last_history_entry v h1 h2 :
  last h1 = last h2 ->
  fst (analyze_video v h1) = fst (analyze_video v h2).
Proof.
  intros H. destruct v as [v|]; [|reflexivity].
  destruct (analyze_video_closed_form v h1) as [-> _].
  destruct (analyze_video_closed_form v h2) as [-> _].
  unfold trace. rewrite (frame_analyses_last _ 0 h1 h2 H). reflexivity.
Qed.

Lemma analyze_video_sees_only_last_history_entry_witness :
  fst (analyze_video (Some squat_clip)
         [list_to_map (angles_items (Angles 10 10 10 10 10 10));
          list_to_map (angles_items (Angles 100 100 90 90 170 170))])
  = fst (analyze_video (Some squat_clip)
           [list_to_map (angles_items (Angles 100 100 90 90 170 170))]).
Proof.
  apply analyze_video_sees_only_last_history_entry. reflexivity.
Defined.

(** *** The history a run leaves behind *)

Lemma extract_history_length a e h :
  length (snd (extract_comprehensive_features a e h))
  = Nat.min (length h + 1) 30.
Proof.
  unfold extract_comprehensive_features.
  pose proof (temporal_history_after (angles_items a) h) as (_ & Hlen).
  destruct (calculate_temporal_features (angles_items a) h) as [tf h'].
  exact Hlen.
Qed.

Lemma frame_loop_history frames : forall frame_count st,
  (length (angle_history st) <= 30)%nat ->
  exists st',
    frame_loop frames frame_count st = (Ok st', angle_history st')
    /\ length (angle_history st')
       = Nat.min (length (angle_history st)
                  + length (frame_analyses frames frame_count
                              (angle_history st))) 30
    /\ (frame_analyses frames frame_count (angle_history st) = [] ->
        angle_history st' = angle_history st).
Proof.
  induction frames as [|f rest IH]; intros frame_count st Hlen.
  - exists st. cbn [frame_loop frame_analyses length].
    split; [reflexivity|]. split; [lia | reflexivity].
  - cbn [frame_loop frame_analyses].
    destruct (frame_count mod FRAME_SKIP =? 0); cbn [negb];
      [|apply IH, Hlen].
    destruct f as [[a e]|]; [|apply IH, Hlen].
    destruct (process_frame_analyse frame_count a e st) as (fa & Hfa & Hp).
    rewrite Hp, Hfa.
    pose proof (extract_history_length a e (angle_history st)) as Hl1.
    destruct (IH (frame_count + 1)
                (LoopState
                   (fst (accumulate (results st, exercise_votes st) fa))
                   (snd (accumulate (results st, exercise_votes st) fa))
                   (snd (extract_comprehensive_features a e
                           (angle_history st)))))
      as (st' & Hl & Hn & _); [cbn [angle_history]; lia|].
    exists st'. split; [exact Hl|]. cbn [angle_history] in Hn.
    split; [cbn [length]; lia | discriminate].
Qed.

(** X24: a run appends one entry to the shared angle history per analysed
    frame and never lets it exceed 30 entries (given it did not before);
    a run in which no frame has landmarks leaves the history as it was. *)
Theorem analyze_video_history_is_bounded v h :
  (length h <= 30)%nat ->
  length (snd (analyze_video (Some v) h))
  = Nat.min (length h + length (trace v h)) 30
  /\ (trace v h = [] -> snd (analyze_video (Some v) h) = h).
Proof.
  intros Hlen. unfold analyze_video, trace.
  destruct (frame_loop_history (cap_frames v) 0
              (LoopState
                 (AnalysisResults 0 "unknown" 0 [] [] [] 0 [] 0
                    (if Qltb 0 (cap_fps v)
                     then (inject_Z (cap_frame_count v) / cap_fps v)%Q
                     else 0%Q)
                    (cap_fps v)) [] h) Hlen) as (st & Hl & Hn & Hsame).
  rewrite Hl. cbn [angle_history] in Hn, Hsame.
  destruct (Tally.argmax (exercise_votes st)) as [[label votes]|];
    cbn [snd]; (split; [exact Hn | exact Hsame]).
Qed.

Lemma analyze_video_history_is_bounded_witness :
  length (snd (analyze_video (Some squat_clip) []))
  = Nat.min (length (@nil features_t) + length (trace squat_clip [])) 30.
Proof.
  exact (proj1 (analyze_video_history_is_bounded squat_clip []
                  ltac:(simpl; lia))).
Defined.

End AnalyzerExtra.

(** ** More joint geometry *)

Module GeometryExtra.
Import Geometry GeometryFacts.

Local Open Scope R_scope.

Lemma dot_self_nonneg u : 0 <= dot u u.
Proof. unfold dot. nra. Qed.

Lemma norm_nonneg u : 0 <= norm u.
Proof. apply sqrt_pos. Qed.

Lemma norm_zero_iff u : norm u = 0 <-> u = (0, 0).
Proof.
  unfold norm. split.
  - intros H. apply sqrt_eq_0 in H; [|apply dot_self_nonneg].
    unfold dot in H. destruct u as [x y]. simpl in H.
    assert (x = 0) by nra. assert (y = 0) by nra. subst. reflexivity.
  - intros ->. unfold dot. simpl.
    replace (0 * 0 + 0 * 0) with 0 by ring. apply sqrt_0.
Qed.

Lemma norm_sqr u : norm u * norm u = dot u u.
Proof. unfold norm. apply sqrt_sqrt, dot_self_nonneg. Qed.

Lemma sub_zero_iff a b : sub a b = (0, 0) <-> a = b.
Proof.
  destruct a as [x1 y1], b as [x2 y2]. unfold sub. simpl. split.
  - intros [= H1 H2]. f_equal; lra.
  - intros [= -> ->]. f_equal; ring.
Qed.

Lemma dot_comm u v : dot u v = dot v u.
Proof. unfold dot. ring. Qed.

(** X26: the angle at a vertex does not depend on the order in which the
    two rays are given: [angle(a, b, c) = angle(c, b, a)]. *)
Theorem calculate_angle_is_symmetric a b c :
  calculate_angle a b c = calculate_angle c b a.
Proof.
  unfold calculate_angle.
  destruct (Req_dec_T (norm (sub a b)) 0), (Req_dec_T (norm (sub c b)) 0);
    try reflexivity.
  rewrite (dot_comm (sub a b) (sub c b)),
    (Rmult_comm (norm (sub a b)) (norm (sub c b))).
  reflexivity.
Qed.

(** The mirror image of [a] through [b]. *)
Definition opposite (a b : point) : point :=
  (2 * fst b - fst a, 2 * snd b - snd a).

Lemma norm_opposite a b : norm (sub (opposite a b) b) = norm (sub a b).
Proof. unfold norm, dot, sub, opposite. simpl. f_equal. ring. Qed.

(** X27: the three exact readings of [calculate_angle]: a joint folded
    onto itself ([c = a], with [a <> b]) reads 0, perpendicular rays read
    90, and a straight joint ([c] opposite to [a] through [b]) reads 180. *)
Theorem calculate_angle_exact_readings a b :
  a <> b ->
  calculate_angle a b a = 0
  /\ calculate_angle a b (opposite a b) = 180
  /\ (forall c,
        c <> b -> dot (sub a b) (sub c b) = 0 -> calculate_angle a b c = 90).
Proof.
  intros Hab.
  assert (Ha : norm (sub a b) <> 0).
  { intros H. apply (proj1 (norm_zero_iff _)) in H.
    apply (proj1 (sub_zero_iff _ _)) in H. contradiction. }
  split_and!.
  - apply (angle_of_cosine a b a Ha Ha). symmetry. apply norm_sqr.
  - assert (Ho : norm (sub (opposite a b) b) <> 0)
      by (rewrite norm_opposite; exact Ha).
    apply (angle_of_cosine a b (opposite a b) Ha Ho).
    rewrite norm_opposite, norm_sqr. unfold dot, sub, opposite. simpl. ring.
  - intros c Hcb Hdot.
    assert (Hc : norm (sub c b) <> 0).
    { intros H. apply (proj1 (norm_zero_iff _)) in H.
    apply (proj1 (sub_zero_iff _ _)) in H. contradiction. }
    apply (angle_of_cosine a b c Ha Hc). exact Hdot.
Qed.

Lemma calculate_angle_exact_readings_witness :
  calculate_angle (0, 0) (1, 0) (0, 0) = 0
  /\ calculate_angle (0, 0) (1, 0) (opposite (0, 0) (1, 0)) = 180
  /\ (forall c,
        c <> (1, 0) ->
        dot (sub (0, 0) (1, 0)) (sub c (1, 0)) = 0 ->
        calculate_angle (0, 0) (1, 0) c = 90).
Proof.
  apply calculate_angle_exact_readings.
  intros H. injection H as H. lra.
Defined.

End GeometryExtra.

(** ** Binary64 rounding *)

Module Float64Facts.
Import Float64.

Lemma round_Qeq x y : (x == y)%Q -> round x = round y.
Proof. intros H. unfold round. rewrite (Qred_complete x y H). reflexivity. Qed.

Lemma Qopp_opp_eq (q : Q) : (- - q)%Q = q.
Proof. destruct q as [n d]. unfold Qopp. simpl. rewrite Z.opp_involutive. reflexivity. Qed.

Lemma round_opp x : round (- x) = (- round x)%Q.
Proof.
  unfold round. rewrite Qred_opp.
  destruct (Qred x) as [n d]. simpl.
  destruct n as [|n|n]; simpl; [reflexivity|reflexivity|].
  symmetry. apply Qopp_opp_eq.
Qed.

Lemma nearest_even_ge m c : m <= nearest_even m c.
Proof. unfold nearest_even. destruct c; [destruct (Z.even m)| |]; lia. Qed.

Lemma ldexp_pos m e : 0 < m -> (0 < ldexp m e)%Q.
Proof.
  intros Hm. unfold ldexp. rewrite Qred_correct.
  destruct (0 <=? e) eqn:E.
  - apply Z.leb_le in E. unfold Qlt. simpl.
    pose proof (Z.pow_pos_nonneg 2 e ltac:(lia) E). nia.
  - unfold Qlt. simpl. lia.
Qed.

Lemma ldexp_0 e : ldexp 0 e = 0%Q.
Proof.
  unfold ldexp. destruct (0 <=? e); [reflexivity|].
  apply (Qred_complete (0 # _) 0). reflexivity.
Qed.

(** Scaling brings the quotient to 1 at least, so that a positive value is
    never rounded to 0. *)
Lemma round_pos_pos n d : 0 < n -> 0 < d -> (0 < round_pos n d)%Q.
Proof.
  intros Hn Hd. unfold round_pos.
  set (e0 := Z.log2 n - Z.log2 d - prec).
  set (num := n * 2 ^ Z.max 0 (- e0)).
  set (den := d * 2 ^ Z.max 0 e0).
  assert (Hden : 0 < den).
  { unfold den. pose proof (Z.pow_pos_nonneg 2 (Z.max 0 e0) ltac:(lia) ltac:(lia)). nia. }
  assert (Hle : den <= num).
  { pose proof (Z.log2_spec n Hn) as [Hn1 Hn2].
    pose proof (Z.log2_spec d Hd) as [Hd1 Hd2].
    pose proof (Z.log2_nonneg n). pose proof (Z.log2_nonneg d).
    unfold num, den, prec in *. 
    destruct (Z.le_gt_cases 0 e0) as [He|He].
    - rewrite (Z.max_r 0 e0), (Z.max_l 0 (- e0)) by lia.
      rewrite Z.pow_0_r, Z.mul_1_r.
      assert (d * 2 ^ e0 < 2 ^ (Z.succ (Z.log2 d)) * 2 ^ e0).
      { apply Z.mul_lt_mono_pos_r; [apply Z.pow_pos_nonneg; lia | exact Hd2]. }
      rewrite <- Z.pow_add_r in H1 by lia.
      assert (2 ^ (Z.succ (Z.log2 d) + e0) <= 2 ^ Z.log2 n)
        by (apply Z.pow_le_mono_r; unfold e0; lia).
      lia.
    - rewrite (Z.max_l 0 e0), (Z.max_r 0 (- e0)) by lia.
      rewrite Z.pow_0_r, Z.mul_1_r.
      assert (2 ^ Z.log2 n * 2 ^ (- e0) <= n * 2 ^ (- e0)).
      { apply Z.mul_le_mono_nonneg_r; [apply Z.pow_nonneg; lia | exact Hn1]. }
      rewrite <- Z.pow_add_r in H1 by lia.
      assert (2 ^ (Z.succ (Z.log2 d)) <= 2 ^ (Z.log2 n + - e0))
        by (apply Z.pow_le_mono_r; unfold e0; lia).
      lia. }
  destruct (2 ^ prec <=? num / den) eqn:E.
  - apply Z.leb_le in E. apply ldexp_pos.
    pose proof (nearest_even_ge (num / (2 * den)) (2 * (num mod (2 * den)) ?= 2 * den)).
    assert (1 <= num / (2 * den)); [|lia].
    apply Z.div_le_lower_bound; [lia|].
    assert (2 ^ prec * den <= num).
    { pose proof (Z.mul_div_le num den Hden). nia. }
    assert (2 <= 2 ^ prec) by (unfold prec; lia). nia.
  - apply ldexp_pos.
    pose proof (nearest_even_ge (num / den) (2 * (num mod den) ?= den)).
    assert (1 <= num / den); [|lia].
    apply Z.div_le_lower_bound; lia.
Qed.

Lemma round_pos_iff q : (0 < round q)%Q <-> (0 < q)%Q.
Proof.
  unfold round. rewrite <- (Qred_lt 0 q). change (Qred 0) with 0%Q.
  destruct (Qred q) as [n d]. simpl.
  destruct n as [|n|n].
  - split; intros H; exact H.
  - split; intros _; [reflexivity|]. apply round_pos_pos; reflexivity.
  - split; intros H; [|discriminate H].
    pose proof (round_pos_pos (Z.pos n) (Z.pos d) eq_refl eq_refl) as Hp.
    exfalso. apply (Qlt_irrefl 0).
    eapply Qlt_trans; [exact H|].
    rewrite <- (Qopp_involutive 0). apply Qopp_lt_compat. exact Hp.
Qed.

Lemma round_nonneg q : (0 <= q)%Q -> (0 <= round q)%Q.
Proof.
  intros H. apply Qle_lteq in H as [H|H].
  - apply Qlt_le_weak, round_pos_iff, H.
  - rewrite <- (round_Qeq 0 q H). apply Qle_refl.
Qed.

Lemma round_zero_iff q : (round q == 0)%Q <-> (q == 0)%Q.
Proof.
  split.
  - intros H. destruct (Q_dec q 0) as [[Hlt|Hgt]|Heq]; [| |exact Heq].
    + exfalso. assert (Hp : (0 < round (- q))%Q).
      { apply round_pos_iff. rewrite <- (Qopp_involutive 0).
        apply Qopp_lt_compat. exact Hlt. }
      rewrite round_opp, H in Hp. discriminate Hp.
    + exfalso. apply round_pos_iff in Hgt. rewrite H in Hgt.
      discriminate Hgt.
  - intros H. rewrite (round_Qeq q 0 H). reflexivity.
Qed.

Lemma sqrt_pos_pos n d : 0 < n -> 0 < d -> (0 < sqrt_pos n d)%Q.
Proof.
  intros Hn Hd. unfold sqrt_pos.
  set (e0 := (Z.log2 n - Z.log2 d - 1) / 2 - (prec - 1)).
  set (num := n * 4 ^ Z.max 0 (- e0)).
  set (den := d * 4 ^ Z.max 0 e0).
  assert (Hden : 0 < den).
  { unfold den.
    pose proof (Z.pow_pos_nonneg 4 (Z.max 0 e0) ltac:(lia) ltac:(lia)).
    nia. }
  assert (He0 : 2 * e0 <= Z.log2 n - Z.log2 d - 1 - 104).
  { unfold e0, prec.
    pose proof (Z.mul_div_le (Z.log2 n - Z.log2 d - 1) 2 ltac:(lia)). lia. }
  assert (H4 : forall k, 0 <= k -> 4 ^ k = 2 ^ (2 * k)).
  { intros k Hk. rewrite Z.pow_mul_r by lia. reflexivity. }
  assert (Hle : den <= num).
  { pose proof (Z.log2_spec n Hn) as [Hn1 Hn2].
    pose proof (Z.log2_spec d Hd) as [Hd1 Hd2].
    pose proof (Z.log2_nonneg n). pose proof (Z.log2_nonneg d).
    unfold num, den.
    destruct (Z.le_gt_cases 0 e0) as [He|He].
    - rewrite (Z.max_r 0 e0), (Z.max_l 0 (- e0)) by lia.
      rewrite Z.pow_0_r, Z.mul_1_r, H4 by lia.
      assert (d * 2 ^ (2 * e0) < 2 ^ (Z.succ (Z.log2 d)) * 2 ^ (2 * e0)).
      { apply Z.mul_lt_mono_pos_r; [apply Z.pow_pos_nonneg; lia | exact Hd2]. }
      rewrite <- Z.pow_add_r in H1 by lia.
      assert (2 ^ (Z.succ (Z.log2 d) + 2 * e0) <= 2 ^ Z.log2 n)
        by (apply Z.pow_le_mono_r; lia).
      lia.
    - rewrite (Z.max_l 0 e0), (Z.max_r 0 (- e0)) by lia.
      rewrite Z.pow_0_r, Z.mul_1_r.
      assert (4 ^ (- e0) = 2 ^ (2 * - e0)) as -> by (apply H4; lia).
      assert (2 ^ Z.log2 n * 2 ^ (2 * - e0) <= n * 2 ^ (2 * - e0)).
      { apply Z.mul_le_mono_nonneg_r; [apply Z.pow_nonneg; lia | exact Hn1]. }
      rewrite <- Z.pow_add_r in H1 by lia.
      assert (2 ^ (Z.succ (Z.log2 d)) <= 2 ^ (Z.log2 n + 2 * - e0))
        by (apply Z.pow_le_mono_r; lia).
      lia. }
  assert (Hroot : forall y, 1 <= y -> 1 <= Z.sqrt y).
  { intros y Hy. change 1 with (Z.sqrt 1). apply Z.sqrt_le_mono. exact Hy. }
  destruct (2 ^ prec <=? Z.sqrt (num / den)) eqn:E.
  - apply Z.leb_le in E. apply ldexp_pos.
    match goal with
    | |- 0 < nearest_even ?m ?c => pose proof (nearest_even_ge m c)
    end.
    assert (1 <= Z.sqrt (num / (4 * den))); [|lia].
    apply Hroot. apply Z.div_le_lower_bound; [lia|].
    assert (H2 : 2 <= Z.sqrt (num / den)) by (unfold prec in E; lia).
    assert (H3 : 4 <= num / den).
    { pose proof (Z.sqrt_spec (num / den)
                    ltac:(apply Z.div_pos; lia)) as [Hs _]. nia. }
    pose proof (Z.mul_div_le num den Hden). nia.
  - apply ldexp_pos.
    match goal with
    | |- 0 < nearest_even ?m ?c => pose proof (nearest_even_ge m c)
    end.
    assert (1 <= Z.sqrt (num / den)); [|lia].
    apply Hroot. apply Z.div_le_lower_bound; lia.
Qed.

Lemma sqrt_nonneg x : (0 <= sqrt x)%Q.
Proof.
  unfold sqrt. destruct (Qred x) as [n d]. simpl.
  destruct n as [|n|n]; try apply Qle_refl.
  apply Qlt_le_weak, sqrt_pos_pos; reflexivity.
Qed.

Lemma sqrt_zero_iff x : (0 <= x)%Q -> (sqrt x == 0)%Q <-> (x == 0)%Q.
Proof.
  intros Hx. rewrite <- (Qred_le 0 x) in Hx. change (Qred 0) with 0%Q in Hx.
  rewrite <- (Qred_correct x) at 2.
  unfold sqrt. destruct (Qred x) as [n d]. simpl.
  destruct n as [|n|n].
  - split; reflexivity.
  - pose proof (sqrt_pos_pos (Z.pos n) (Z.pos d) eq_refl eq_refl) as Hp.
    split; intros H.
    + rewrite H in Hp. discriminate Hp.
    + discriminate H.
  - exfalso. apply Hx. reflexivity.
Qed.

Lemma Qred_inject_Z z : Qred (inject_Z z) = inject_Z z.
Proof.
  unfold Qred, inject_Z.
  pose proof (Z.ggcd_gcd z 1) as Hg.
  pose proof (Z.ggcd_correct_divisors z 1) as Hd.
  destruct (Z.ggcd z 1) as [g [a b]]. cbn [fst snd] in *.
  rewrite Z.gcd_1_r in Hg. subst g. destruct Hd as [Ha Hb].
  rewrite Z.mul_1_l in Ha, Hb. subst a b. reflexivity.
Qed.

Lemma ldexp_Qeq m e :
  (ldexp m e == (if 0 <=? e then inject_Z (m * 2 ^ e)
                 else Qmake m (Z.to_pos (2 ^ (- e)))))%Q.
Proof. unfold ldexp. apply Qred_correct. Qed.

(** Integers of up to 53 bits are binary64 values. *)
Lemma round_pos_small n :
  0 < n < 2 ^ prec -> round_pos n 1 = inject_Z n.
Proof.
  intros [Hn Hlt]. unfold round_pos.
  pose proof (Z.log2_spec n Hn) as [Hn1 Hn2].
  pose proof (Z.log2_nonneg n) as HL.
  assert (HL52 : Z.log2 n < prec).
  { apply (Z.pow_lt_mono_r_iff 2); [lia | unfold prec; lia | lia]. }
  change (Z.log2 1) with 0. rewrite Z.sub_0_r.
  set (e0 := Z.log2 n - prec).
  rewrite (Z.max_l 0 e0), (Z.max_r 0 (- e0)) by (unfold e0; lia).
  rewrite Z.pow_0_r, Z.mul_1_l, Z.div_1_r.
  set (k := - e0 - 1).
  assert (Hk : 0 <= k) by (unfold k, e0; lia).
  assert (Hpow : 2 ^ (- e0) = 2 * 2 ^ k).
  { replace (- e0) with (Z.succ k) by (unfold k; lia).
    apply Z.pow_succ_r. exact Hk. }
  assert (Hge : 2 ^ prec <= n * 2 ^ (- e0)).
  { replace prec with (Z.log2 n + - e0) by (unfold e0; lia).
    rewrite Z.pow_add_r by (unfold e0; lia).
    apply Z.mul_le_mono_nonneg_r; [apply Z.pow_nonneg; lia | exact Hn1]. }
  apply Z.leb_le in Hge. rewrite Hge.
  rewrite Hpow.
  replace (n * (2 * 2 ^ k)) with ((n * 2 ^ k) * (2 * 1)) by ring.
  rewrite Z.div_mul, Z.mod_mul by lia.
  change (2 * 0 ?= 2 * 1) with Lt. cbn [nearest_even].
  unfold ldexp.
  rewrite <- (Qred_inject_Z n). apply Qred_complete.
  destruct (0 <=? e0 + 1) eqn:E.
  - apply Z.leb_le in E.
    assert (He : e0 + 1 = 0) by (unfold k in Hk; lia).
    assert (Hk0 : k = 0) by (unfold k; lia).
    rewrite He, Hk0. unfold Qeq. simpl. lia.
  - apply Z.leb_gt in E. replace (- (e0 + 1)) with k by (unfold k; lia).
    unfold Qeq. cbn [Qnum Qden inject_Z].
    rewrite Z2Pos.id by (apply Z.pow_pos_nonneg; lia). lia.
Qed.

Lemma of_int_small z : Z.abs z < 2 ^ prec -> of_int z = inject_Z z.
Proof.
  intros Hz. unfold of_int, round. rewrite Qred_inject_Z.
  destruct z as [|p|p]; cbn [inject_Z Qnum Qden].
  - reflexivity.
  - apply round_pos_small. lia.
  - rewrite round_pos_small by lia. reflexivity.
Qed.

End Float64Facts.

(** ** The distance of two points *)

Module DistanceFacts.
Import Float64 Distance Float64Facts.

Lemma sub_swap x y : sub y x = (- sub x y)%Q.
Proof.
  unfold sub. rewrite <- round_opp. apply round_Qeq. ring.
Qed.

Lemma square_opp x : square (- x) = square x.
Proof. unfold square, mul. apply round_Qeq. ring. Qed.

Lemma square_nonneg x : (0 <= square x)%Q.
Proof.
  unfold square, mul. apply round_nonneg.
  destruct x as [n d]. unfold Qle, Qmult. simpl. nia.
Qed.

Lemma square_zero_iff x : (square x == 0)%Q <-> (x == 0)%Q.
Proof.
  unfold square, mul. rewrite round_zero_iff. split.
  - intros H. apply Qmult_integral in H. tauto.
  - intros H. rewrite H. reflexivity.
Qed.

Lemma difference_zero_iff x y : (sub x y == 0)%Q <-> (x == y)%Q.
Proof.
  unfold sub. rewrite round_zero_iff. split; intros H.
  - apply (proj1 (Qplus_inj_r x y (- y))). rewrite Qplus_opp_r. exact H.
  - rewrite H. ring.
Qed.

Lemma distance_zero_iff p q :
  (calculate_distance p q == 0)%Q
  <-> (fst p == fst q)%Q /\ (snd p == snd q)%Q.
Proof.
  unfold calculate_distance.
  set (a := square (sub (fst p) (fst q))).
  set (b := square (sub (snd p) (snd q))).
  assert (Ha : (0 <= a)%Q) by apply square_nonneg.
  assert (Hb : (0 <= b)%Q) by apply square_nonneg.
  assert (Hab : (0 <= a + b)%Q).
  { replace 0%Q with (0 + 0)%Q by reflexivity.
    apply Qplus_le_compat; assumption. }
  rewrite sqrt_zero_iff by (apply round_nonneg; exact Hab).
  unfold add. rewrite round_zero_iff.
  assert (Hsum : (a + b == 0)%Q <-> (a == 0)%Q /\ (b == 0)%Q).
  { split.
    - intros H. split; apply Qle_antisym; try assumption.
      + rewrite <- H. rewrite <- (Qplus_0_r a) at 1.
        apply Qplus_le_compat; [apply Qle_refl | exact Hb].
      + rewrite <- H. rewrite <- (Qplus_0_l b) at 1.
        apply Qplus_le_compat; [exact Ha | apply Qle_refl].
    - intros [-> ->]. reflexivity. }
  rewrite Hsum. unfold a, b.
  rewrite !square_zero_iff, !difference_zero_iff. reflexivity.
Qed.

(** On integers whose difference has at most 26 bits the difference and
    its square are exact. *)
Lemma square_sub_exact x y :
  Z.abs (x - y) < 2 ^ 26 ->
  square (sub (inject_Z x) (inject_Z y)) = inject_Z ((x - y) * (x - y)).
Proof.
  intros H. unfold square, sub, mul.
  assert (Hd : round (inject_Z x - inject_Z y) = inject_Z (x - y)).
  { rewrite <- (of_int_small (x - y)) by (unfold prec; lia).
    apply round_Qeq. unfold Qeq. simpl. lia. }
  rewrite Hd.
  rewrite <- (of_int_small ((x - y) * (x - y))) by (unfold prec; nia).
  apply round_Qeq. rewrite inject_Z_mult. reflexivity.
Qed.

(** X25: [calculate_distance] is never negative, symmetric, and zero from
    a point to itself; between two pixels it is zero only if they are the
    same, and, for coordinates of at most 25 bits, it is the square root of
    the exact squared distance, rounded once: 5 from (0,0) to (3,4).  It
    is not a metric, though: the rounding of the square root lets the
    triangle inequality fail in the last place, as from (0,0) by (1,1) to
    (4,4). *)
Theorem calculate_distance_is_rounded_euclidean :
  (forall p q, (0 <= calculate_distance p q)%Q)
  /\ (forall p q, calculate_distance p q = calculate_distance q p)
  /\ (forall p, calculate_distance p p = 0%Q)
  /\ (forall x1 y1 x2 y2,
        (calculate_distance (pixel x1 y1) (pixel x2 y2) == 0)%Q ->
        x1 = x2 /\ y1 = y2)
  /\ (forall x1 y1 x2 y2,
        Z.abs x1 < 2 ^ 25 -> Z.abs y1 < 2 ^ 25 ->
        Z.abs x2 < 2 ^ 25 -> Z.abs y2 < 2 ^ 25 ->
        calculate_distance (pixel x1 y1) (pixel x2 y2)
        = Float64.sqrt
            (inject_Z ((x1 - x2) * (x1 - x2) + (y1 - y2) * (y1 - y2))))
  /\ calculate_distance (pixel 0 0) (pixel 3 4) = 5%Q
  /\ (calculate_distance (pixel 0 0) (pixel 1 1)
      + calculate_distance (pixel 1 1) (pixel 4 4)
      < calculate_distance (pixel 0 0) (pixel 4 4))%Q
  /\ (Float64.add (calculate_distance (pixel 0 0) (pixel 1 1))
                  (calculate_distance (pixel 1 1) (pixel 4 4))
      < calculate_distance (pixel 0 0) (pixel 4 4))%Q.
Proof.
  split_and!.
  - intros p q. apply sqrt_nonneg.
  - intros p q. unfold calculate_distance.
    rewrite (sub_swap (fst p) (fst q)), (sub_swap (snd p) (snd q)).
    rewrite !square_opp. reflexivity.
  - intros p. unfold calculate_distance, square, sub.
    rewrite (round_Qeq (fst p - fst p) 0), (round_Qeq (snd p - snd p) 0)
      by ring.
    reflexivity.
  - intros x1 y1 x2 y2 H. apply distance_zero_iff in H as [Hx Hy].
    unfold pixel in *. cbn [fst snd] in *.
    split; apply inject_Z_injective; assumption.
  - intros x1 y1 x2 y2 Hx1 Hy1 Hx2 Hy2.
    unfold calculate_distance, pixel. cbn [fst snd].
    rewrite !square_sub_exact by lia. f_equal. unfold add.
    rewrite <- (of_int_small
                  ((x1 - x2) * (x1 - x2) + (y1 - y2) * (y1 - y2)))
      by (unfold prec; nia).
    apply round_Qeq. rewrite inject_Z_plus. reflexivity.
  - vm_compute. reflexivity.
  - vm_compute. reflexivity.
  - vm_compute. reflexivity.
Qed.

End DistanceFacts.

(** ** The upload filter *)

Module UploadFacts.
Import Upload.

Lemma after_last_dot_none s : contains_dot s = false -> after_last_dot s = None.
Proof.
  induction s as [|c rest IH]; [reflexivity|]. cbn [contains_dot after_last_dot].
  intros H. apply orb_false_iff in H as [Hc Hrest].
  rewrite (IH Hrest), Hc. reflexivity.
Qed.

Lemma after_last_dot_app stem ext :
  contains_dot ext = false ->
  after_last_dot (stem +:+ String dot ext) = Some ext.
Proof.
  intros Hext. induction stem as [|c rest IH].
  - change (after_last_dot (String dot ext) = Some ext).
    cbn [after_last_dot]. rewrite (after_last_dot_none ext Hext). reflexivity.
  - change (after_last_dot (String c (rest +:+ String dot ext)) = Some ext).
    cbn [after_last_dot]. rewrite IH. reflexivity.
Qed.

Lemma contains_dot_app stem ext :
  contains_dot (stem +:+ String dot ext) = true.
Proof.
  induction stem as [|c rest IH].
  - reflexivity.
  - change (contains_dot (String c (rest +:+ String dot ext)) = true).
    cbn [contains_dot]. rewrite IH. apply orb_true_r.
Qed.

Lemma lower_idempotent s : lower (lower s) = lower s.
Proof.
  induction s as [|c rest IH]; [reflexivity|]. cbn [lower]. rewrite IH.
  f_equal. unfold lower_char.
  destruct ((65 <=? Ascii.nat_of_ascii c) && (Ascii.nat_of_ascii c <=? 90))%nat
    eqn:E; [|rewrite E; reflexivity].
  apply andb_prop in E as [E1 E2].
  apply Nat.leb_le in E1, E2.
  rewrite Ascii.nat_ascii_embedding by lia.
  destruct ((65 <=? Ascii.nat_of_ascii c + 32)
            && (Ascii.nat_of_ascii c + 32 <=? 90))%nat eqn:E'; [|reflexivity].
  apply andb_prop in E' as [_ E']. apply Nat.leb_le in E'. lia.
Qed.

Lemma contains_dot_lower s : contains_dot (lower s) = contains_dot s.
Proof.
  induction s as [|c rest IH]; [reflexivity|].
  cbn [lower contains_dot]. rewrite IH. f_equal.
  unfold lower_char.
  destruct ((65 <=? Ascii.nat_of_ascii c) && (Ascii.nat_of_ascii c <=? 90))%nat
    eqn:E; [|reflexivity].
  apply andb_prop in E as [E1 E2]. apply Nat.leb_le in E1, E2.
  assert (Hdot : Ascii.nat_of_ascii dot = 46%nat) by reflexivity.
  destruct (Ascii.eqb_spec c dot) as [->|Hne]; [lia|].
  apply Ascii.eqb_neq. intros Heq.
  apply (f_equal Ascii.nat_of_ascii) in Heq.
  rewrite Ascii.nat_ascii_embedding in Heq by lia. lia.
Qed.

(** X28: the upload filter looks only at what follows the last dot of the
    file name, without regard to letter case: a name without a dot is
    refused; a name [stem.ext] whose [ext] has no dot is accepted exactly
    when [ext] in lower case is one of mp4, avi, mov, mkv, webm, mpg, mpeg,
    whatever the stem (empty, or itself containing dots).  Lower case is
    taken on ASCII letters, which is what [str.lower] does on ASCII file
    names. *)
Theorem allowed_file_checks_last_extension :
  (forall filename, contains_dot filename = false ->
                    allowed_file filename = false)
  /\ (forall stem ext,
        contains_dot ext = false ->
        allowed_file (stem +:+ String dot ext)
        = bool_decide (lower ext ∈ ALLOWED_EXTENSIONS))
  /\ (forall stem stem' ext,
        contains_dot ext = false ->
        allowed_file (stem +:+ String dot ext)
        = allowed_file (stem' +:+ String dot (lower ext))).
Proof.
  split_and!.
  - intros filename H. unfold allowed_file. rewrite H. reflexivity.
  - intros stem ext H. unfold allowed_file.
    rewrite contains_dot_app, after_last_dot_app by exact H. reflexivity.
  - intros stem stem' ext H. unfold allowed_file.
    rewrite !contains_dot_app, !after_last_dot_app
      by (rewrite ?contains_dot_lower; exact H).
    rewrite lower_idempotent. reflexivity.
Qed.

Lemma allowed_file_checks_last_extension_witness :
  allowed_file ("my.workout" +:+ String dot "MP4")
  = bool_decide (lower "MP4" ∈ ALLOWED_EXTENSIONS).
Proof.
  exact (proj1 (proj2 allowed_file_checks_last_extension)
           "my.workout" "MP4" eq_refl).
Defined.

(** The cases of the repository's test. *)
Example allowed_file_test_cases :
  allowed_file "test.mp4" = true /\ allowed_file "test.avi" = true
  /\ allowed_file "test.mov" = true /\ allowed_file "test.txt" = false
  /\ allowed_file "test" = false /\ allowed_file "clip.tar.MKV" = true
  /\ allowed_file ".mp4" = true /\ allowed_file "mp4." = false.
Proof. repeat split; vm_compute; reflexivity. Qed.

End UploadFacts.
